(** * ReplSetTest (src/mongo/shell/replsettest.js): convergence and consistency checks

    A shallow embedding of the polling and comparison code of the replica set
    test fixture, the properties of it that the specification states, and
    further properties of the fixture read off its code.

    Conventions of the embedding.
    - A JavaScript call that can raise is a [completion]: [Normal v] or [Throw].
    - [undefined] / [null] in a variable is [None] of an [option].
    - Replies of the members (the collaborators of the fixture) are inputs: a
      polling pass is a function of the replies it receives, in the order in
      which the source issues the queries.
    - [NumberLong] and plain numbers are integers of [Z]; the values compared
      here (terms, seconds, counters, versions) are far below 2^53, where the
      shell's numeric comparison is exact. *)

From stdpp Require Import base numbers option list strings gmap pretty.

Local Open Scope Z_scope.

(** ** Completions: normal return or a thrown exception *)

Inductive completion (A : Type) : Type :=
| Normal (a : A)
| Throw.
Arguments Normal {A} a.
Arguments Throw {A}.

#[global] Instance completion_eq_dec {A : Type} `{EqDecision A} : EqDecision (completion A).
Proof. solve_decision. Defined.

Definition cbind {A B} (c : completion A) (k : A -> completion B) : completion B :=
  match c with
  | Normal a => k a
  | Throw => Throw
  end.

Notation "x <- c ;; k" := (cbind c (fun x => k))
  (at level 100, c at next level, right associativity).

(** [try { c } catch (e) { h }] *)
Definition try_catch {A} (c : completion A) (h : completion A) : completion A :=
  match c with
  | Normal a => Normal a
  | Throw => h
  end.

(** Reading a property of a value that may be [undefined]: a TypeError. *)
Definition deref {A} (o : option A) : completion A :=
  match o with
  | Some a => Normal a
  | None => Throw
  end.

(** ** Operation times *)

Module OpTime.

(** Modelled from the spec: the shell type [Timestamp] is not part of these
    sources. Section 3 gives a timestamp as (seconds, ordinal within the
    second); the sources read the two as the properties [t] and [i]
    ([awaitReplication], [ensureOplogsMatch]) and through [getTime()] and
    [getInc()] ([_isEarlierTimestamp]). *)
Record Timestamp : Type := mkTimestamp { secs : Z; inc : Z }.

Definition getTime (ts : Timestamp) : Z := secs ts.
Definition getInc (ts : Timestamp) : Z := inc ts.

(** An operation time as [replSetGetStatus] reports it: the document
    [{ts: Timestamp, t: NumberLong}] or, for a member without terms, the
    Timestamp alone. *)
Inductive OpTimeValue : Type :=
| OpTimeDoc (ts : Timestamp) (term : Z)
| BareTimestamp (ts : Timestamp).

(** Modelled from the spec: the shell function [friendlyEqual] is not part
    of these sources. It stands for the exact equality of section 4.4: two
    timestamps, or two operation times, are equal when they have the same
    shape and the same numbers; two numbers, plain or NumberLong, when they
    are the same number. *)
Definition timestamp_eqb (a b : Timestamp) : bool :=
  (secs a =? secs b) && (inc a =? inc b).

Definition optime_eqb (a b : OpTimeValue) : bool :=
  match a, b with
  | OpTimeDoc ta ea, OpTimeDoc tb eb => timestamp_eqb ta tb && (ea =? eb)
  | BareTimestamp ta, BareTimestamp tb => timestamp_eqb ta tb
  | _, _ => false
  end.

(** [ot.t]: the term of a document (a NumberLong object), the seconds of
    a bare Timestamp (a number). *)
Definition prop_t (ot : OpTimeValue) : Z :=
  match ot with
  | OpTimeDoc _ term => term
  | BareTimestamp ts => secs ts
  end.

(** Truthiness of [ot.t]: a NumberLong is an object, hence always truthy; a
    number is truthy unless it is 0. *)
Definition prop_t_truthy (ot : OpTimeValue) : bool :=
  match ot with
  | OpTimeDoc _ _ => true
  | BareTimestamp ts => negb (secs ts =? 0)
  end.

(** [ot.ts]: a bare Timestamp has no such property. *)
Definition prop_ts (ot : OpTimeValue) : option Timestamp :=
  match ot with
  | OpTimeDoc ts _ => Some ts
  | BareTimestamp _ => None
  end.

(** The value itself, used as a Timestamp. *)
Definition as_timestamp (ot : OpTimeValue) : option Timestamp :=
  match ot with
  | OpTimeDoc _ _ => None
  | BareTimestamp ts => Some ts
  end.

(** What [_isEarlierOpTime] works on after its first two lines. *)
Record TermAndTs : Type := mkTermAndTs { n_ts : option Timestamp; n_t : Z }.

(** [ot = ot.t ? ot : {ts: ot, t: NumberLong(-1)}] *)
Definition withTerm (ot : OpTimeValue) : TermAndTs :=
  if prop_t_truthy ot
  then {| n_ts := prop_ts ot; n_t := prop_t ot |}
  else {| n_ts := as_timestamp ot; n_t := -1 |}.

(** [_isEarlierTimestamp(ts1, ts2)]; calling [getTime] on [undefined]
    throws. *)
Definition _isEarlierTimestamp (ts1 ts2 : option Timestamp) : completion bool :=
  a <- deref ts1 ;;
  b <- deref ts2 ;;
  Normal (if getTime a =? getTime b
          then getInc a <? getInc b
          else getTime a <? getTime b).

(** [_isEarlierOpTime(ot1, ot2)]; [friendlyEqual] on the two [t] is the
    equality of numbers, and [<] compares them as numbers. *)
Definition _isEarlierOpTime (ot1 ot2 : OpTimeValue) : completion bool :=
  let o1 := withTerm ot1 in
  let o2 := withTerm ot2 in
  if negb (n_t o1 =? -1) && negb (n_t o2 =? -1) && negb (n_t o1 =? n_t o2)
  then Normal (n_t o1 <? n_t o2)
  else _isEarlierTimestamp (n_ts o1) (n_ts o2).

(** The three-way comparison the specification derives from the predicate:
    [a] and [b] are equal when neither is earlier than the other. *)
Definition compare (a b : OpTimeValue) : completion comparison :=
  ab <- _isEarlierOpTime a b ;;
  ba <- _isEarlierOpTime b a ;;
  Normal (if ab then Lt else if ba then Gt else Eq).

(** [a] is not later than [b]. *)
Definition notLater (a b : OpTimeValue) : Prop :=
  compare a b = Normal Lt \/ compare a b = Normal Eq.

(** The specification's rule on a pair of operation times, with the
    timestamp of a value that has no term taken as the value itself. *)
Definition timestampOf (ot : OpTimeValue) : Timestamp :=
  match ot with
  | OpTimeDoc ts _ => ts
  | BareTimestamp ts => ts
  end.

Definition termOf (ot : OpTimeValue) : option Z :=
  match ot with
  | OpTimeDoc _ term => Some term
  | BareTimestamp _ => None
  end.

Definition timestampLower (a b : Timestamp) : bool :=
  (secs a <? secs b) || ((secs a =? secs b) && (inc a <? inc b)).

Definition specEarlier (a b : OpTimeValue) : bool :=
  match termOf a, termOf b with
  | Some ta, Some tb =>
      if negb (ta =? -1) && negb (tb =? -1) && negb (ta =? tb)
      then ta <? tb
      else timestampLower (timestampOf a) (timestampOf b)
  | _, _ => timestampLower (timestampOf a) (timestampOf b)
  end.

(** The same rule as propositions, for operation times with a term. *)
Definition lowerP (a b : Timestamp) : Prop :=
  secs a < secs b \/ (secs a = secs b /\ inc a < inc b).

Definition earlierP (ta : Timestamp) (ea : Z) (tb : Timestamp) (eb : Z) : Prop :=
  (ea <> -1 /\ eb <> -1 /\ ea < eb)
  \/ ((ea = -1 \/ eb = -1 \/ ea = eb) /\ lowerP ta tb).

(** Two terms that send the comparison to the timestamps. *)
Definition byTimestamp (ea eb : Z) : Prop := ea = -1 \/ eb = -1 \/ ea = eb.

(** Three terms that are all set, or of which every two send the comparison
    to the timestamps. *)
Definition coherentTerms (ea eb ec : Z) : Prop :=
  (ea <> -1 /\ eb <> -1 /\ ec <> -1)
  \/ (byTimestamp ea eb /\ byTimestamp eb ec /\ byTimestamp ea ec).

End OpTime.

(** ** Leadership scan *)

Module Leadership.

Section Scan.
Context {Node : Type}.

(** [self.liveNodes] *)
Record LiveNodes : Type := mkLiveNodes { master : option Node; slaves : list Node }.

(** [_clearLiveNodes()] *)
Definition _clearLiveNodes : LiveNodes := {| master := None; slaves := [] |}.

(** The variables the [forEach] of [_callIsMaster] updates. *)
Record ScanState : Type := mkScanState { liveNodes : LiveNodes; twoPrimaries : bool }.

(** One member and the outcome of [runCommand({ismaster: 1})] on it: the
    value of [n.ismaster == true], or [Throw] when the command raised. *)
Definition Probe : Type := (Node * completion bool)%type.

(** The body of the [forEach]: a member that raises is only printed. *)
Definition visit (st : ScanState) (p : Probe) : ScanState :=
  match p.2 with
  | Normal true =>
      match master (liveNodes st) with
      | Some _ => {| liveNodes := liveNodes st; twoPrimaries := true |}
      | None =>
          {| liveNodes := {| master := Some p.1; slaves := slaves (liveNodes st) |};
             twoPrimaries := twoPrimaries st |}
      end
  | Normal false =>
      {| liveNodes := {| master := master (liveNodes st);
                         slaves := slaves (liveNodes st) ++ [p.1] |};
         twoPrimaries := twoPrimaries st |}
  | Throw => st
  end.

Definition scan (probes : list Probe) : ScanState :=
  fold_left visit probes {| liveNodes := _clearLiveNodes; twoPrimaries := false |}.

(** [_callIsMaster()]: the new [liveNodes] and the returned value, [None]
    standing for [false]. *)
Definition _callIsMaster (probes : list Probe) : LiveNodes * option Node :=
  let st := scan probes in
  (liveNodes st, if twoPrimaries st then None else master (liveNodes st)).

(** The members that report themselves leader in a scan. *)
Definition claimants (probes : list Probe) : list Node :=
  omap (fun p : Probe => match p.2 with Normal true => Some p.1 | _ => None end) probes.

End Scan.

Arguments LiveNodes : clear implicits.
Arguments ScanState : clear implicits.
Arguments Probe : clear implicits.

End Leadership.

(** ** Default timeouts *)

Module Timeouts.

(** The JavaScript values a timeout argument or an instance property holds. *)
Inductive JsValue : Type :=
| Undefined
| Null
| Boolean (b : bool)
| Number (z : Z)
| Str (s : string)
| Function_
| Object_.

Definition truthy (v : JsValue) : bool :=
  match v with
  | Undefined | Null => false
  | Boolean b => b
  | Number z => negb (z =? 0)
  | Str s => negb (String.eqb s "")
  | Function_ | Object_ => true
  end.

(** [a || b] *)
Definition js_or (a b : JsValue) : JsValue := if truthy a then a else b.

(** [o.name]: a property that was never assigned reads as [undefined]. *)
Definition get (o : gmap string JsValue) (name : string) : JsValue :=
  default Undefined (o !! name).

(** The methods the constructor body assigns on [this]. *)
Definition methods : list string :=
  [ "nodeList"; "getNodeId"; "getPort"; "_addPath"; "getReplSetConfig"; "getURL";
    "startSet"; "awaitSecondaryNodes"; "awaitNodesAgreeOnPrimary"; "getPrimary";
    "awaitNoPrimary"; "getSecondaries"; "getSecondary"; "status"; "add"; "remove";
    "_setDefaultConfigOptions"; "initiate"; "getReplSetConfigFromNode"; "reInitiate";
    "awaitLastOpCommitted"; "awaitReplication"; "getHashes"; "dumpOplog";
    "checkReplicatedDataHashes"; "start"; "restart"; "stopMaster"; "stop"; "stopSet";
    "ensureOplogsMatch"; "waitForState"; "waitForMaster" ]%string.

(** The data properties the constructors and [_callIsMaster] assign on
    [self]; their values come from the options. *)
Definition dataProperties : list string :=
  [ "name"; "useHostName"; "host"; "oplogSize"; "useSeedList"; "keyFile";
    "protocolVersion"; "nodeOptions"; "ports"; "nodes"; "liveNodes" ]%string.

(** The instance after [new ReplSetTest(opts)]:
    [this.kDefaultTimeoutMs = 5 * 60 * 1000] and the properties above. *)
Definition instance (data : string -> JsValue) : gmap string JsValue :=
  list_to_map
    ((("kDefaultTimeoutMs")%string, Number (5 * 60 * 1000))
       :: map (fun m => (m, Function_)) methods
       ++ map (fun d => (d, data d)) dataProperties).

(** [timeout = timeout || self.kDefaultTimeoutMS] *)
Definition defaulted (self : gmap string JsValue) (timeout : JsValue) : JsValue :=
  js_or timeout (get self "kDefaultTimeoutMS").

(** The waits that take an optional timeout. *)
Inductive WaitOp : Type :=
| AwaitSecondaryNodes
| AwaitNodesAgreeOnPrimary
| GetPrimary
| AwaitNoPrimary
| AwaitReplication
| Initiate
| WaitForIndicator
| WaitForHealth
| WaitForState.

(** The timeout each wait hands to [assert.soon] / [assert.soonNoExcept]
    when called with [timeout]. [initiate] defaults its argument and passes
    it to [awaitSecondaryNodes]; [waitForState] and [_waitForHealth] pass
    theirs to [_waitForIndicator]. *)
Definition effectiveTimeout (self : gmap string JsValue) (op : WaitOp)
    (timeout : JsValue) : JsValue :=
  match op with
  | AwaitSecondaryNodes => defaulted self timeout
  | AwaitNodesAgreeOnPrimary => defaulted self timeout
  | GetPrimary => defaulted self timeout
  | AwaitNoPrimary => defaulted self timeout
  | AwaitReplication => defaulted self timeout
  | Initiate => defaulted self (defaulted self timeout)
  | WaitForIndicator => defaulted self timeout
  | WaitForHealth => defaulted self timeout
  | WaitForState => defaulted self timeout
  end.

End Timeouts.

(** ** The retry primitive *)

Module Poller.

(** Modelled from the spec: [assert.soonNoExcept] lives in the shell's
    assertion library, which is not part of these sources. Following section
    4.2 of the specification, the predicate is invoked repeatedly until it
    returns true or the timeout elapses; a predicate that raises counts as
    not yet satisfied; on timeout the wait fails. The list holds, for each
    invocation that fits in the timeout, what the members reply during it. *)
Fixpoint soonNoExcept {S O : Type} (pass : S -> O -> S * completion bool)
    (s : S) (attempts : list O) : S * completion unit :=
  match attempts with
  | [] => (s, Throw)
  | o :: rest =>
      let '(s', r) := pass s o in
      match r with
      | Normal true => (s', Normal ())
      | Normal false | Throw => soonNoExcept pass s' rest
      end
  end.

End Poller.

(** ** awaitReplication *)

Module AwaitReplication.
Import OpTime.

Definition Node : Type := nat.

(** [ReplSetTest.State.ARBITER], [ReplSetTest.OpTimeType] *)
Definition ARBITER : Z := 7.
Definition LAST_APPLIED : Z := 1.
Definition LAST_DURABLE : Z := 2.

(** [secondaryOpTimeType || ReplSetTest.OpTimeType.LAST_APPLIED] *)
Definition opTimeTypeOrDefault (secondaryOpTimeType : option Z) : Z :=
  match secondaryOpTimeType with
  | Some k => if k =? 0 then LAST_APPLIED else k
  | None => LAST_APPLIED
  end.

(** The variables of [awaitReplication] that its polling predicate shares
    with the rest of the function ([masterName] is only printed). *)
Record Vars : Type := mkVars {
  master : Node;
  configVersion : Z;
  masterOpTime : option Timestamp;
  masterLatestOpTime : option Timestamp
}.

Definition setLatest (v : Vars) (ts : option Timestamp) : Vars :=
  {| master := master v; configVersion := configVersion v;
     masterOpTime := masterOpTime v; masterLatestOpTime := ts |}.

(** [replSetStatus.optimes] as far as [_getDurableOpTimeTimestamp] reads it. *)
Record Optimes : Type := mkOptimes {
  durableOpTime : option OpTimeValue;
  appliedOpTime : option OpTimeValue
}.

(** [_getLastOpTimeTimestamp(conn)], from the [optime] of the member's own
    entry in its [replSetGetStatus] reply ([Throw]: the command failed;
    [None]: no optime, as for an arbiter):
    [myOpTime.ts ? myOpTime.ts : myOpTime]. *)
Definition _getLastOpTimeTimestamp (reply : completion (option OpTimeValue))
    : completion (option Timestamp) :=
  myOpTime <- reply ;;
  Normal (timestampOf <$> myOpTime).

(** [_getDurableOpTimeTimestamp(conn)]:
    [replSetStatus.optimes[opTimeType].ts], the type chosen by whether the
    test runs without journaling. *)
Definition _getDurableOpTimeTimestamp (runningWithoutJournaling : bool)
    (reply : completion Optimes) : completion (option Timestamp) :=
  optimes <- reply ;;
  entry <- deref (if runningWithoutJournaling
                  then appliedOpTime optimes else durableOpTime optimes) ;;
  Normal (prop_ts entry).

(** What one secondary replies during a polling pass, in the order of the
    queries: the version of its [local.system.replset] document, [myState]
    of [replSetGetStatus], and the status the timestamp getter reads. *)
Record SlaveObs : Type := mkSlaveObs {
  versionReply : completion Z;
  stateReply : completion Z;
  optimeReply : completion (option OpTimeValue);
  optimesReply : completion Optimes
}.

(** What [awaitLastOpTimeWrittenFn] meets: the outcome of
    [self.getPrimary()] and the replies of that leader to each attempt of
    its inner wait. *)
Record RefreshObs : Type := mkRefreshObs {
  primaryFound : completion Node;
  oplogQueries : list (completion (option OpTimeValue))
}.

(** All replies of one polling pass: the members of [self.liveNodes.slaves],
    the leader's reply should its operation time be read again, and the
    replies [awaitLastOpTimeWrittenFn] gets should the pass raise. *)
Record PassObs : Type := mkPassObs {
  slaves : list SlaveObs;
  masterReply : completion (option OpTimeValue);
  refresh : RefreshObs
}.

(** The replies to the block that reads the leader, its configuration
    version and its operation time before polling starts. *)
Record StartObs : Type := mkStartObs {
  startPrimary : completion Node;
  startVersion : completion Z;
  startOpTime : completion (option OpTimeValue)
}.

(** The predicate of the inner wait of [awaitLastOpTimeWrittenFn], on the
    variable [masterLatestOpTime]: [false] when reading the operation time
    raised. *)
Definition oplogQueryPass (latest : option Timestamp)
    (reply : completion (option OpTimeValue)) : option Timestamp * completion bool :=
  match _getLastOpTimeTimestamp reply with
  | Normal ts => (ts, Normal true)
  | Throw => (latest, Normal false)
  end.

(** [awaitLastOpTimeWrittenFn()]: it assigns [masterLatestOpTime]; its
    [master] is a local variable. *)
Definition awaitLastOpTimeWrittenFn (latest : option Timestamp) (o : RefreshObs)
    : option Timestamp * completion unit :=
  match primaryFound o with
  | Normal _ => Poller.soonNoExcept oplogQueryPass latest (oplogQueries o)
  | Throw => (latest, Throw)
  end.

(** The timestamp getter the pass selects. *)
Definition getSecondaryTimestampFn (runningWithoutJournaling : bool)
    (secondaryOpTimeType : Z) (s : SlaveObs) : completion (option Timestamp) :=
  if secondaryOpTimeType =? LAST_DURABLE
  then _getDurableOpTimeTimestamp runningWithoutJournaling (optimesReply s)
  else _getLastOpTimeTimestamp (optimeReply s).

(** [masterLatestOpTime.t < ts.t ||
     (masterLatestOpTime.t == ts.t && masterLatestOpTime.i < ts.i)] *)
Definition secondaryIsNewer (latest ts : Timestamp) : bool :=
  (secs latest <? secs ts) || ((secs latest =? secs ts) && (inc latest <? inc ts)).

(** The [for] loop over [self.liveNodes.slaves] inside the [try] of the
    polling predicate. [Normal true] is falling out of the loop,
    [Normal false] one of its [return false], [Throw] an exception that
    reaches the [catch].

    In the branch for a greater configuration version the first statement
    is [master = this.getPrimary()]. The predicate is a [function]
    expression handed to [assert.soonNoExcept], and the file is in strict
    mode, so [this] is not the ReplSetTest object there: the call raises a
    TypeError and the assignments to [master], [configVersion] and
    [masterOpTime] that follow it never run. *)
Fixpoint checkSecondaries (runningWithoutJournaling : bool) (secondaryOpTimeType : Z)
    (reply : completion (option OpTimeValue)) (v : Vars) (l : list SlaveObs)
    : Vars * completion bool :=
  match l with
  | [] => (v, Normal true)
  | slave :: rest =>
      match versionReply slave with
      | Throw => (v, Throw)
      | Normal slaveConfigVersion =>
          if negb (configVersion v =? slaveConfigVersion) then
            if slaveConfigVersion >? configVersion v
            then (v, Throw)
            else (v, Normal false)
          else
            match stateReply slave with
            | Throw => (v, Throw)
            | Normal myState =>
                if myState =? ARBITER
                then checkSecondaries runningWithoutJournaling secondaryOpTimeType
                       reply v rest
                else
                  match getSecondaryTimestampFn runningWithoutJournaling
                          secondaryOpTimeType slave with
                  | Throw => (v, Throw)
                  | Normal ts' =>
                      match masterLatestOpTime v, ts' with
                      | Some latest, Some ts =>
                          if secondaryIsNewer latest ts then
                            match _getLastOpTimeTimestamp reply with
                            | Normal latest' => (setLatest v latest', Normal false)
                            | Throw => (v, Throw)
                            end
                          else if negb (timestamp_eqb latest ts)
                          then (v, Normal false)
                          else checkSecondaries runningWithoutJournaling
                                 secondaryOpTimeType reply v rest
                      | _, _ => (v, Throw)
                      end
                  end
            end
      end
  end.

(** The polling predicate: the loop, and in its [catch]
    [awaitLastOpTimeWrittenFn()] followed by [return false]. *)
Definition pass (runningWithoutJournaling : bool) (secondaryOpTimeType : Z)
    (v : Vars) (o : PassObs) : Vars * completion bool :=
  match checkSecondaries runningWithoutJournaling secondaryOpTimeType
          (masterReply o) v (slaves o) with
  | (v', Throw) =>
      match awaitLastOpTimeWrittenFn (masterLatestOpTime v') (refresh o) with
      | (latest, Normal _) => (setLatest v' latest, Normal false)
      | (latest, Throw) => (setLatest v' latest, Throw)
      end
  | done => done
  end.

(** The block that reads the leader, its configuration version and its
    operation time before polling starts. *)
Definition resolveMaster (o : StartObs) : completion (Node * Z * option Timestamp) :=
  m <- startPrimary o ;;
  c <- startVersion o ;;
  ot <- _getLastOpTimeTimestamp (startOpTime o) ;;
  Normal (m, c, ot).

(** Everything a call of [awaitReplication] is answered: the second
    [StartObs] is for the [catch] that repeats the block. *)
Record Obs : Type := mkObs {
  firstRefresh : RefreshObs;
  firstStart : StartObs;
  secondStart : StartObs;
  passes : list PassObs
}.

(** The variables when polling starts. *)
Definition start (o : Obs) : completion Vars :=
  match awaitLastOpTimeWrittenFn None (firstRefresh o) with
  | (_, Throw) => Throw
  | (latest, Normal _) =>
      r <- try_catch (resolveMaster (firstStart o))
                     (resolveMaster (secondStart o)) ;;
      let '(m, c, ot) := r in
      Normal {| master := m; configVersion := c; masterOpTime := ot;
                masterLatestOpTime := latest |}
  end.

(** [awaitReplication(timeout, secondaryOpTimeType)]: the variables at the
    end when the call returns, [Throw] when it raises. The polling passes
    listed are those that fit in the timeout. *)
Definition awaitReplication (runningWithoutJournaling : bool)
    (secondaryOpTimeType : option Z) (o : Obs) : completion Vars :=
  v <- start o ;;
  match Poller.soonNoExcept
          (pass runningWithoutJournaling (opTimeTypeOrDefault secondaryOpTimeType))
          v (passes o) with
  | (v', Normal _) => Normal v'
  | (_, Throw) => Throw
  end.

(** A secondary as a successful pass leaves it: its configuration version
    is the expected one, and it is an arbiter or its timestamp of the
    requested type is the target. *)
Definition synced (runningWithoutJournaling : bool) (secondaryOpTimeType : Z)
    (v : Vars) (s : SlaveObs) : Prop :=
  versionReply s = Normal (configVersion v)
  /\ (stateReply s = Normal ARBITER
      \/ exists myState ts,
           stateReply s = Normal myState /\ myState <> ARBITER
           /\ masterLatestOpTime v = Some ts
           /\ getSecondaryTimestampFn runningWithoutJournaling secondaryOpTimeType s
              = Normal (Some ts)).

(** A secondary that is not reported as an arbiter and whose timestamp of
    the requested type is not [target]. *)
Definition lagging (runningWithoutJournaling : bool) (secondaryOpTimeType : Z)
    (target : Timestamp) (s : SlaveObs) : Prop :=
  stateReply s <> Normal ARBITER
  /\ getSecondaryTimestampFn runningWithoutJournaling secondaryOpTimeType s
     <> Normal (Some target).

(** A reply of the leader that, when it can be read, gives [target]. *)
Definition steadyReply (target : Timestamp) (reply : completion (option OpTimeValue)) : Prop :=
  match _getLastOpTimeTimestamp reply with
  | Normal ts => ts = Some target
  | Throw => True
  end.

(** A pass during which the leader stays at [target]. *)
Definition leaderSteadyAt (target : Timestamp) (o : PassObs) : Prop :=
  steadyReply target (masterReply o)
  /\ Forall (steadyReply target) (oplogQueries (refresh o)).

(** The example of the specification: the leader at
    [{term: 5, ts: (100, 2)}], configuration version 1, and secondaries
    that report a given timestamp in term 5. *)
Definition exampleVars : Vars :=
  {| master := 0%nat; configVersion := 1;
     masterOpTime := Some (mkTimestamp 100 2);
     masterLatestOpTime := Some (mkTimestamp 100 2) |}.

Definition secondaryAt (version : Z) (ts : Timestamp) : SlaveObs :=
  {| versionReply := Normal version;
     stateReply := Normal 2;
     optimeReply := Normal (Some (OpTimeDoc ts 5));
     optimesReply := Normal {| durableOpTime := Some (OpTimeDoc ts 5);
                               appliedOpTime := Some (OpTimeDoc ts 5) |} |}.

Definition leaderAt (node : Node) (ot : OpTimeValue) (l : list SlaveObs) : PassObs :=
  {| slaves := l;
     masterReply := Normal (Some ot);
     refresh := {| primaryFound := Normal node; oplogQueries := [Normal (Some ot)] |} |}.

Definition laggingPass : PassObs :=
  leaderAt 0%nat (OpTimeDoc (mkTimestamp 100 2) 5)
    [secondaryAt 1 (mkTimestamp 100 2); secondaryAt 1 (mkTimestamp 100 1)].

Definition syncedPass : PassObs :=
  leaderAt 0%nat (OpTimeDoc (mkTimestamp 100 2) 5)
    [secondaryAt 1 (mkTimestamp 100 2); secondaryAt 1 (mkTimestamp 100 2)].

(** A pass after a reconfiguration: the secondary already holds version 2,
    and a lookup finds member 1 leading at [{term: 6, ts: (200, 1)}]. *)
Definition reconfiguredPass : PassObs :=
  leaderAt 1%nat (OpTimeDoc (mkTimestamp 200 1) 6) [secondaryAt 2 (mkTimestamp 200 1)].

(** An arbiter that holds the given configuration version; it reports
    no operation time. *)
Definition arbiterAt (version : Z) : SlaveObs :=
  {| versionReply := Normal version;
     stateReply := Normal ARBITER;
     optimeReply := Normal None;
     optimesReply := Normal {| durableOpTime := None; appliedOpTime := None |} |}.

(** The claim's "operation time of the requested kind", written out on
    the replies of a member: for [lastDurable] (2) the [ts] of the durable
    operation time among its [optimes], or of the applied one when the test
    runs without journaling; for [lastApplied] (1), and when no kind is
    requested, the timestamp of its own [optime]. *)
Definition requestsDurable (secondaryOpTimeType : option Z) : bool :=
  match secondaryOpTimeType with
  | Some kind => kind =? 2
  | None => false
  end.

Definition reportedTimestamp (runningWithoutJournaling : bool)
    (secondaryOpTimeType : option Z) (s : SlaveObs) : completion (option Timestamp) :=
  if requestsDurable secondaryOpTimeType then
    match optimesReply s with
    | Normal optimes =>
        match (if runningWithoutJournaling
               then appliedOpTime optimes else durableOpTime optimes) with
        | Some (OpTimeDoc ts _) => Normal (Some ts)
        | Some (BareTimestamp _) => Normal None
        | None => Throw
        end
    | Throw => Throw
    end
  else
    match optimeReply s with
    | Normal (Some (OpTimeDoc ts _)) => Normal (Some ts)
    | Normal (Some (BareTimestamp ts)) => Normal (Some ts)
    | Normal None => Normal None
    | Throw => Throw
    end.

(** A member of [liveNodes.slaves] that counts as synced: it reports the
    expected configuration version, and it is an arbiter or its operation
    time of the requested kind is the target. *)
Definition syncedAsRequested (runningWithoutJournaling : bool)
    (secondaryOpTimeType : option Z) (expectedVersion : Z) (latest : option Timestamp)
    (s : SlaveObs) : Prop :=
  versionReply s = Normal expectedVersion
  /\ (stateReply s = Normal ARBITER
      \/ exists myState target,
           stateReply s = Normal myState /\ myState <> ARBITER
           /\ latest = Some target
           /\ reportedTimestamp runningWithoutJournaling secondaryOpTimeType s
              = Normal (Some target)).

(** A member that is not reported as an arbiter and whose operation time
    of the requested kind is not [target]. *)
Definition laggingAsRequested (runningWithoutJournaling : bool)
    (secondaryOpTimeType : option Z) (target : Timestamp) (s : SlaveObs) : Prop :=
  stateReply s <> Normal ARBITER
  /\ reportedTimestamp runningWithoutJournaling secondaryOpTimeType s
     <> Normal (Some target).

(** The replies of the members that a leadership scan recorded in
    [liveNodes.slaves], which is what a polling pass goes through. *)
Definition viewSlaves (probes : list (Leadership.Probe Node)) (replyOf : Node -> SlaveObs)
    : list SlaveObs :=
  map replyOf (Leadership.slaves (Leadership._callIsMaster probes).1).

(** A set of three: member 0 leads, member 1 is at the target of the
    example, member 2 is a secondary still at [(100, 1)]. *)
Definition exampleReplyOf (node : Node) : SlaveObs :=
  if (node =? 1)%nat then secondaryAt 1 (mkTimestamp 100 2)
  else secondaryAt 1 (mkTimestamp 100 1).

(** A secondary whose durable operation time is [durable] while its own
    [optime] and its applied operation time are [applied]. *)
Definition secondaryDurableAt (version : Z) (applied durable : Timestamp) : SlaveObs :=
  {| versionReply := Normal version;
     stateReply := Normal 2;
     optimeReply := Normal (Some (OpTimeDoc applied 5));
     optimesReply := Normal {| durableOpTime := Some (OpTimeDoc durable 5);
                               appliedOpTime := Some (OpTimeDoc applied 5) |} |}.

End AwaitReplication.

(** ** awaitLastOpCommitted *)

Module AwaitLastOpCommitted.
Import OpTime.

Definition Node : Type := nat.

(** [{ts: Timestamp(0, 0), t: NumberLong(0)}] *)
Definition noOpTime : OpTimeValue := OpTimeDoc (mkTimestamp 0 0) 0.

(** [_getLastOpTime(conn)]: the [optime] of the member's own entry in its
    [replSetGetStatus] reply, [None] when the entry has none. *)
Definition _getLastOpTime (reply : completion (option OpTimeValue))
    : completion (option OpTimeValue) :=
  reply.

(** [_getReadConcernMajorityOpTime(conn)]: the reply's
    [readConcernMajorityOpTime] or, when it has none, the zero value. *)
Definition _getReadConcernMajorityOpTime (reply : completion (option OpTimeValue))
    : completion OpTimeValue :=
  field <- reply ;;
  Normal (default noOpTime field).

(** [_isEarlierOpTime] against the target variable, which is [undefined]
    when the leader reported no optime: reading [ot2.t] raises then. *)
Definition earlierThanTarget (rcmOpTime : OpTimeValue) (masterOpTime : option OpTimeValue)
    : completion bool :=
  target <- deref masterOpTime ;;
  _isEarlierOpTime rcmOpTime target.

(** What one member replies during a polling pass: [myState] of the first
    [replSetGetStatus], the majority-committed operation time of the second. *)
Record NodeObs : Type := mkNodeObs {
  stateReply : completion Z;
  rcmReply : completion (option OpTimeValue)
}.

(** The [for] loop over [rst.nodes] of the polling predicate. *)
Fixpoint checkNodes (masterOpTime : option OpTimeValue) (l : list NodeObs)
    : completion bool :=
  match l with
  | [] => Normal true
  | node :: rest =>
      myState <- stateReply node ;;
      if myState =? AwaitReplication.ARBITER
      then checkNodes masterOpTime rest
      else
        rcmOpTime <- _getReadConcernMajorityOpTime (rcmReply node) ;;
        if optime_eqb rcmOpTime noOpTime then Normal false
        else
          earlier <- earlierThanTarget rcmOpTime masterOpTime ;;
          if earlier then Normal false
          else checkNodes masterOpTime rest
  end.

(** The cluster at the time of one polling pass: what the members of
    [rst.nodes] reply, and what a lookup of the leader and of its latest
    operation time would give at that moment. The predicate issues no such
    lookup; the field records the cluster's side for statements about it. *)
Record PassObs : Type := mkPassObs {
  nodes : list NodeObs;
  leaderLookup : completion (Node * option OpTimeValue)
}.

(** The polling predicate: the target is the variable captured by the
    closure, which the predicate never assigns. *)
Definition pass (masterOpTime : option OpTimeValue) (o : PassObs)
    : option OpTimeValue * completion bool :=
  (masterOpTime, checkNodes masterOpTime (nodes o)).

(** Everything a call of [awaitLastOpCommitted] is answered. *)
Record Obs : Type := mkObs {
  primaryFound : completion Node;
  primaryOpTime : completion (option OpTimeValue);
  passes : list PassObs
}.

(** [awaitLastOpCommitted()]: the returned [masterOpTime], or [Throw]. *)
Definition awaitLastOpCommitted (o : Obs) : completion (option OpTimeValue) :=
  master <- primaryFound o ;;
  masterOpTime <- _getLastOpTime (primaryOpTime o) ;;
  match Poller.soonNoExcept pass masterOpTime (passes o) with
  | (_, Normal _) => Normal masterOpTime
  | (_, Throw) => Throw
  end.

(** A member as a successful pass leaves it: an arbiter, or a member whose
    majority-committed operation time is not the zero value and is not
    earlier than the target. *)
Definition committed (masterOpTime : option OpTimeValue) (node : NodeObs) : Prop :=
  stateReply node = Normal AwaitReplication.ARBITER
  \/ exists myState rcmOpTime target,
       stateReply node = Normal myState /\ myState <> AwaitReplication.ARBITER
       /\ _getReadConcernMajorityOpTime (rcmReply node) = Normal rcmOpTime
       /\ optime_eqb rcmOpTime noOpTime = false
       /\ masterOpTime = Some target
       /\ _isEarlierOpTime rcmOpTime target = Normal false.

(** A wait during which the leadership moves: member 0 leads at
    [{term: 5, ts: (100, 2)}] when the call starts and the members have
    committed up to [(100, 1)]; by the second pass member 1 leads at
    [{term: 6, ts: (200, 1)}], which every member has committed. *)
Definition memberAt (ot : OpTimeValue) : NodeObs :=
  {| stateReply := Normal 2; rcmReply := Normal (Some ot) |}.

Definition failover : Obs :=
  {| primaryFound := Normal 0%nat;
     primaryOpTime := Normal (Some (OpTimeDoc (mkTimestamp 100 2) 5));
     passes :=
       [ {| nodes := [memberAt (OpTimeDoc (mkTimestamp 100 1) 5);
                      memberAt (OpTimeDoc (mkTimestamp 100 1) 5)];
            leaderLookup := Normal (0%nat, Some (OpTimeDoc (mkTimestamp 100 2) 5)) |};
         {| nodes := [memberAt (OpTimeDoc (mkTimestamp 200 1) 6);
                      memberAt (OpTimeDoc (mkTimestamp 200 1) 6)];
            leaderLookup := Normal (1%nat, Some (OpTimeDoc (mkTimestamp 200 1) 6)) |} ] |}.

(** An operation time that carries a term: the document form. *)
Definition carriesTerm (ot : OpTimeValue) : Prop :=
  exists ts term, ot = OpTimeDoc ts term.

(** A member whose majority-committed operation time, when it reports one,
    carries a term. *)
Definition reportsTerms (node : NodeObs) : Prop :=
  forall ot, rcmReply node = Normal (Some ot) -> carriesTerm ot.

(** The claim's condition on a member, in the ordering of the
    specification: an arbiter, or a member whose majority-committed
    operation time is set (not the zero value) and not earlier than the
    target. *)
Definition committedAt (target : OpTimeValue) (node : NodeObs) : Prop :=
  stateReply node = Normal AwaitReplication.ARBITER
  \/ exists myState rcmOpTime,
       stateReply node = Normal myState /\ myState <> AwaitReplication.ARBITER
       /\ rcmReply node = Normal (Some rcmOpTime)
       /\ rcmOpTime <> noOpTime
       /\ specEarlier rcmOpTime target = false.

End AwaitLastOpCommitted.

(** ** ensureOplogsMatch *)

Module Oplog.
Import OpTime.

(** The [oplog.rs] collection of a member in natural order; of each entry
    only [ts] is read. *)
Definition Log : Type := list Timestamp.

(** How a run of [ensureOplogsMatch] can raise. *)
Inductive Failure : Type :=
| TypeError                    (* a property of [null] or [undefined] was read *)
| NoDocument (reader : nat)    (* [next()] on an exhausted cursor *)
| ReaderNotOpen (reader : nat)
| NonMatchingTs (reader : nat) (* the [assert.eq] inside the lockstep walk *)
| HasMoreOplog (reader : nat). (* the [assert.eq] after it *)

Inductive Outcome (A : Type) : Type :=
| Returned (a : A)
| Raised (f : Failure).
Arguments Returned {A} a.
Arguments Raised {A} f.

(** [OplogReader]: [mongo] is the index of the member, [cursor] the
    documents the open cursor has not yet returned. *)
Record OplogReader : Type := mkOplogReader {
  mongo : nat;
  log : Log;
  cursor : option (list Timestamp);
  lastDoc : option Timestamp
}.

(** [new OplogReader(mongo)] *)
Definition newOplogReader (i : nat) (l : Log) : OplogReader :=
  {| mongo := i; log := l; cursor := None; lastDoc := None |}.

(** [getFirstDoc()]: [find().sort({$natural: 1}).limit(-1).next()] *)
Definition getFirstDoc (r : OplogReader) : Outcome Timestamp :=
  match log r with
  | doc :: _ => Returned doc
  | [] => Raised (NoDocument (mongo r))
  end.

(** The order of [$gte] on timestamps. *)
Definition ts_geb (a b : Timestamp) : bool :=
  (secs b <? secs a) || ((secs b =? secs a) && (inc b <=? inc a)).

(** [query(ts)]: [{"ts": {"$gte": ts ? ts : new Timestamp()}}] *)
Definition query (ts : option Timestamp) (r : OplogReader) : OplogReader :=
  let from := default (mkTimestamp 0 0) ts in
  {| mongo := mongo r; log := log r;
     cursor := Some (filter (fun doc => ts_geb doc from = true) (log r));
     lastDoc := lastDoc r |}.

(** [hasNext()] *)
Definition hasNext (r : OplogReader) : Outcome bool :=
  match cursor r with
  | None => Raised (ReaderNotOpen (mongo r))
  | Some [] => Returned false
  | Some (_ :: _) => Returned true
  end.

(** [next()]: the document and the reader after the call. *)
Definition next (r : OplogReader) : Outcome (Timestamp * OplogReader) :=
  match cursor r with
  | None => Raised (ReaderNotOpen (mongo r))
  | Some [] => Raised (NoDocument (mongo r))
  | Some (doc :: rest) =>
      Returned (doc, {| mongo := mongo r; log := log r; cursor := Some rest;
                        lastDoc := Some doc |})
  end.

(** [currTS.t > largestTS.t ||
     (currTS.t == largestTS.t && currTS.i > largestTS.i)];
    [largestTS] is [null] until it is first assigned. *)
Definition isLarger (currTS : Timestamp) (largestTS : option Timestamp) : Outcome bool :=
  match largestTS with
  | None => Raised TypeError
  | Some l =>
      Returned ((secs currTS >? secs l) || ((secs currTS =? secs l) && (inc currTS >? inc l)))
  end.

(** The first loop: one reader per member, and the largest first timestamp. *)
Fixpoint openReaders (i : nat) (largestTS : option Timestamp) (logs : list Log)
    : Outcome (list OplogReader * option Timestamp) :=
  match logs with
  | [] => Returned ([], largestTS)
  | l :: rest =>
      let reader := newOplogReader i l in
      match getFirstDoc reader with
      | Raised f => Raised f
      | Returned currTS =>
          match isLarger currTS largestTS with
          | Raised f => Raised f
          | Returned larger =>
              match openReaders (S i) (if larger then Some currTS else largestTS) rest with
              | Raised f => Raised f
              | Returned (readers, largest) => Returned (reader :: readers, largest)
              end
          end
      end
  end.

(** The inner [for] of the walk: every other reader must return [ts]. *)
Fixpoint expectAll (ts : Timestamp) (others : list OplogReader)
    : Outcome (list OplogReader) :=
  match others with
  | [] => Returned []
  | r :: rest =>
      match next r with
      | Raised f => Raised f
      | Returned (doc, r') =>
          if timestamp_eqb ts doc
          then match expectAll ts rest with
               | Raised f => Raised f
               | Returned rest' => Returned (r' :: rest')
               end
          else Raised (NonMatchingTs (mongo r))
      end
  end.

(** [while (firstReader.hasNext())], by recursion on what the cursor of the
    first reader still holds. *)
Fixpoint walk (firstCursor : list Timestamp) (others : list OplogReader)
    : Outcome (list OplogReader) :=
  match firstCursor with
  | [] => Returned others
  | ts :: rest =>
      match expectAll ts others with
      | Raised f => Raised f
      | Returned others' => walk rest others'
      end
  end.

(** The last loop: no other reader may have more. *)
Fixpoint expectNoMore (others : list OplogReader) : Outcome unit :=
  match others with
  | [] => Returned ()
  | r :: rest =>
      match hasNext r with
      | Raised f => Raised f
      | Returned true => Raised (HasMoreOplog (mongo r))
      | Returned false => expectNoMore rest
      end
  end.

(** [ensureOplogsMatch()] on the oplogs of [this.nodes]. *)
Definition ensureOplogsMatch (logs : list Log) : Outcome unit :=
  if (1 <? length logs)%nat then
    match openReaders 0 None logs with
    | Raised f => Raised f
    | Returned (readers, largestTS) =>
        match map (query largestTS) readers with
        | [] => Raised TypeError
        | firstReader :: others =>
            match walk (default [] (cursor firstReader)) others with
            | Raised f => Raised f
            | Returned others' => expectNoMore others'
            end
        end
    end
  else Returned ().

End Oplog.

(** ** dumpCollectionDiff *)

Module CollDiff.

(** A document: its primary key and the rest of its content. *)
Record Doc : Type := mkDoc { _id : Z; content : string }.

#[global] Instance Doc_eq_dec : EqDecision Doc.
Proof. solve_decision. Defined.

(** Modelled from the spec: the shell built-ins [bsonBinaryEqual] and
    [bsonWoCompare] are not part of these sources. In section 4.5 the first
    decides whether two documents have the same content and the second
    orders two primary keys.

    [bsonBinaryEqual(a, b)] *)
Definition bsonBinaryEqual (a b : option Doc) : bool := bool_decide (a = b).

(** [bsonWoCompare({wrapper: a._id}, {wrapper: b._id})]: negative, zero or
    positive; reading [_id] of [undefined] raises. *)
Definition bsonWoCompare (a b : option Doc) : completion Z :=
  x <- deref a ;;
  y <- deref b ;;
  Normal (match _id x ?= _id y with Lt => -1 | Eq => 0 | Gt => 1 end).

(** [docs[index]]: [undefined] outside the array. *)
Definition at_index (docs : list Doc) (index : Z) : option Doc :=
  if index <? 0 then None else docs !! Z.to_nat index.

(** What the function produces: the two arrays it prints at the end and,
    in the order printed, the pairs announced as 'Mismatching documents:'. *)
Record Report : Type := mkReport {
  missingOnPrimary : list string;
  missingOnSecondary : list string;
  mismatching : list (string * string)
}.

Definition noReport : Report :=
  {| missingOnPrimary := []; missingOnSecondary := []; mismatching := [] |}.

Definition pushMissingOnPrimary (line : string) (r : Report) : Report :=
  {| missingOnPrimary := missingOnPrimary r ++ [line];
     missingOnSecondary := missingOnSecondary r; mismatching := mismatching r |}.

Definition pushMissingOnSecondary (line : string) (r : Report) : Report :=
  {| missingOnPrimary := missingOnPrimary r;
     missingOnSecondary := missingOnSecondary r ++ [line];
     mismatching := mismatching r |}.

Definition printMismatching (pair : string * string) (r : Report) : Report :=
  {| missingOnPrimary := missingOnPrimary r;
     missingOnSecondary := missingOnSecondary r;
     mismatching := mismatching r ++ [pair] |}.

(** The variables of the [while] loop. *)
Record LoopState : Type := mkLoopState {
  primaryIndex : Z;
  secondaryIndex : Z;
  report : Report
}.

Section Dump.
(** [tojsononeline], the shell's one-line rendering. *)
Variable tojsononeline : option Doc -> string.

Variables primaryDocs secondaryDocs : list Doc.

(** [primaryIndex >= 0 || secondaryIndex >= 0] *)
Definition running (s : LoopState) : bool :=
  (0 <=? primaryIndex s) || (0 <=? secondaryIndex s).

(** The body of the [while] loop. *)
Definition iteration (s : LoopState) : completion LoopState :=
  let primaryDoc := at_index primaryDocs (primaryIndex s) in
  let secondaryDoc := at_index secondaryDocs (secondaryIndex s) in
  if primaryIndex s <? 0 then
    Normal {| primaryIndex := primaryIndex s;
              secondaryIndex := secondaryIndex s - 1;
              report := pushMissingOnPrimary (tojsononeline secondaryDoc) (report s) |}
  else if secondaryIndex s <? 0 then
    Normal {| primaryIndex := primaryIndex s - 1;
              secondaryIndex := secondaryIndex s;
              report := pushMissingOnSecondary (tojsononeline primaryDoc) (report s) |}
  else if negb (bsonBinaryEqual primaryDoc secondaryDoc) then
    let printed :=
      printMismatching (tojsononeline primaryDoc, tojsononeline secondaryDoc) (report s) in
    ordering <- bsonWoCompare primaryDoc secondaryDoc ;;
    if ordering =? 0 then
      Normal {| primaryIndex := primaryIndex s - 1;
                secondaryIndex := secondaryIndex s - 1;
                report := printed |}
    else if ordering <? 0 then
      Normal {| primaryIndex := primaryIndex s;
                secondaryIndex := secondaryIndex s - 1;
                report := pushMissingOnPrimary (tojsononeline secondaryDoc) printed |}
    else if ordering >? 0 then
      Normal {| primaryIndex := primaryIndex s - 1;
                secondaryIndex := secondaryIndex s;
                report := pushMissingOnSecondary (tojsononeline primaryDoc) printed |}
    else
      Normal {| primaryIndex := primaryIndex s;
                secondaryIndex := secondaryIndex s;
                report := printed |}
  else
    Normal {| primaryIndex := primaryIndex s - 1;
              secondaryIndex := secondaryIndex s - 1;
              report := report s |}.

(** The [while] loop, [None] when the fuel runs out before it ends. *)
Fixpoint loop (fuel : nat) (s : LoopState) : option (completion LoopState) :=
  if running s then
    match fuel with
    | O => None
    | S fuel' =>
        match iteration s with
        | Normal s' => loop fuel' s'
        | Throw => Some Throw
        end
    end
  else Some (Normal s).

(** [dumpCollectionDiff(primary, secondary, dbName, collName)] on the two
    arrays fetched with [find().sort({_id: 1}).toArray()]. *)
Definition dumpCollectionDiff (fuel : nat) : option (completion Report) :=
  match loop fuel {| primaryIndex := Z.of_nat (length primaryDocs) - 1;
                     secondaryIndex := Z.of_nat (length secondaryDocs) - 1;
                     report := noReport |} with
  | Some (Normal s) => Some (Normal (report s))
  | Some Throw => Some Throw
  | None => None
  end.

End Dump.

(** The walk as a recursion on the two arrays read from their tails: the
    heads of the arguments are the documents at the current indices. *)
Fixpoint mergeFromTail (tojsononeline : option Doc -> string)
    (ps : list Doc) : list Doc -> Report -> Report :=
  fix inner (ss : list Doc) (r : Report) : Report :=
    match ps, ss with
    | [], [] => r
    | [], s :: ss' => inner ss' (pushMissingOnPrimary (tojsononeline (Some s)) r)
    | p :: ps', [] =>
        mergeFromTail tojsononeline ps' []
          (pushMissingOnSecondary (tojsononeline (Some p)) r)
    | p :: ps', s :: ss' =>
        if bool_decide (p = s) then mergeFromTail tojsononeline ps' ss' r
        else
          let printed :=
            printMismatching (tojsononeline (Some p), tojsononeline (Some s)) r in
          match _id p ?= _id s with
          | Eq => mergeFromTail tojsononeline ps' ss' printed
          | Lt => inner ss' (pushMissingOnPrimary (tojsononeline (Some s)) printed)
          | Gt =>
              mergeFromTail tojsononeline ps' ss
                (pushMissingOnSecondary (tojsononeline (Some p)) printed)
          end
    end.

(** The three-way merge in the words of the specification: a mismatched
    pair is recorded only for equal keys with differing content. *)
Fixpoint specMerge (tojsononeline : option Doc -> string)
    (ps : list Doc) : list Doc -> Report -> Report :=
  fix inner (ss : list Doc) (r : Report) : Report :=
    match ps, ss with
    | [], [] => r
    | [], s :: ss' => inner ss' (pushMissingOnPrimary (tojsononeline (Some s)) r)
    | p :: ps', [] =>
        specMerge tojsononeline ps' []
          (pushMissingOnSecondary (tojsononeline (Some p)) r)
    | p :: ps', s :: ss' =>
        match _id p ?= _id s with
        | Eq =>
            specMerge tojsononeline ps' ss'
              (if bool_decide (p = s) then r
               else printMismatching (tojsononeline (Some p), tojsononeline (Some s)) r)
        | Lt => inner ss' (pushMissingOnPrimary (tojsononeline (Some s)) r)
        | Gt =>
            specMerge tojsononeline ps' ss
              (pushMissingOnSecondary (tojsononeline (Some p)) r)
        end
    end.

(** Strictly increasing primary keys, as [sort({_id: 1})] returns the
    documents of a collection. *)
Fixpoint sortedById (docs : list Doc) : Prop :=
  match docs with
  | [] => True
  | d :: rest => Forall (fun e => _id d < _id e) rest /\ sortedById rest
  end.

(** A rendering for the examples: the content of the document. *)
Definition renderContent (d : option Doc) : string :=
  match d with
  | Some doc => content doc
  | None => "undefined"
  end.

End CollDiff.

(** ** checkDBHashesForReplSet *)

Module DbHash.

(** A successful [dbhash] reply: the hash of each collection and the hash
    of the database. *)
Record DbHashReply : Type := mkDbHashReply {
  collections : gmap string string;
  md5 : string
}.

(** The fields of a [collStats] reply that are compared. *)
Record CollStats : Type := mkCollStats { capped : bool; nindexes : Z; ns : string }.

(** An entry of [getCollectionInfos()]: the name and the rest of it. *)
Record CollInfo : Type := mkCollInfo { name : string; attributes : string }.

#[global] Instance CollInfo_eq_dec : EqDecision CollInfo.
Proof. solve_decision. Defined.

(** A connection to a member, for one database: [isCapped()] of a
    collection, [getCollectionInfos()], and [collStats] of a collection
    ([Throw] when the command fails, which [assert.commandWorked] raises). *)
Record Conn : Type := mkConn {
  isCapped : string -> bool;
  getCollectionInfos : list CollInfo;
  collStats : string -> completion CollStats
}.

(** One entry of [dbHashes.slaves]: the reply, and the member of
    [rst.liveNodes.slaves] with the reply's host, if any. *)
Record SecondaryObs : Type := mkSecondaryObs {
  secondaryDBHash : completion DbHashReply;
  secondary : option Conn
}.

(** How [primary.getDB(dbName).getCollectionInfos()] ends. *)
Inductive PrimaryInfos : Type :=
| Infos (l : list CollInfo)
| InvalidViewDefinition
| OtherError.

(** One database of [combinedDBs] with what the members reply about it. *)
Record DbObs : Type := mkDbObs {
  dbName : string;
  primaryDBHash : completion DbHashReply;
  primaryCollInfo : PrimaryInfos;
  primary : Conn;
  slaves : list SecondaryObs
}.

(** [Object.keys(reply.collections)] *)
Definition keys (m : gmap string string) : list string := (map_to_list m).*1.

(** [if (cond) { ...; success = false; }] *)
Definition failIf (cond success : bool) : bool := if cond then false else success.

(** [primaryCollections.filter(collName => !...isCapped())] *)
Definition nonCapped (conn : Conn) (names : list string) : list string :=
  filter (fun collName => isCapped conn collName = false) names.

(** The [forEach] over [nonCappedCollNames]. *)
Definition compareHashes (p s : DbHashReply) (names : list string) (success : bool) : bool :=
  fold_left
    (fun ok collName =>
       failIf (negb (bool_decide (collections p !! collName = collections s !! collName))) ok)
    names success.

(** The nested [forEach] over the collection infos of both members. *)
Definition compareInfos (primaryInfos secondaryInfos : list CollInfo) (success : bool) : bool :=
  fold_left
    (fun ok secondaryInfo =>
       fold_left
         (fun ok' primaryInfo =>
            if String.eqb (name secondaryInfo) (name primaryInfo)
            then failIf (negb (bool_decide (secondaryInfo = primaryInfo))) ok'
            else ok')
         primaryInfos ok)
    secondaryInfos success.

Definition statsDiffer (a b : CollStats) : bool :=
  negb (Bool.eqb (capped a) (capped b)) || negb (nindexes a =? nindexes b)
  || negb (String.eqb (ns a) (ns b)).

(** The [forEach] over [primaryCollections] that compares [collStats]. *)
Fixpoint compareStats (p s : Conn) (names : list string) (success : bool) : completion bool :=
  match names with
  | [] => Normal success
  | collName :: rest =>
      primaryCollStats <- collStats p collName ;;
      secondaryCollStats <- collStats s collName ;;
      compareStats p s rest (failIf (statsDiffer primaryCollStats secondaryCollStats) success)
  end.

(** The body of [dbHashes.slaves.forEach]: the value of [success] after
    it. The dumps that accompany a failure only print. *)
Definition checkSecondary (primaryReply : DbHashReply) (primaryConn : Conn)
    (primaryInfos : list CollInfo) (success : bool) (o : SecondaryObs) : completion bool :=
  secondaryReply <- secondaryDBHash o ;;
  secondaryConn <- deref (secondary o) ;;
  let primaryCollections := keys (collections primaryReply) in
  let secondaryCollections := keys (collections secondaryReply) in
  let s1 := failIf (negb (length primaryCollections =? length secondaryCollections)%nat)
              success in
  let nonCappedCollNames := nonCapped primaryConn primaryCollections in
  let s2 := compareHashes primaryReply secondaryReply nonCappedCollNames s1 in
  let s3 := compareInfos primaryInfos (getCollectionInfos secondaryConn) s2 in
  s4 <- compareStats primaryConn secondaryConn primaryCollections s3 ;;
  Normal (if (length nonCappedCollNames =? length primaryCollections)%nat
          then failIf (negb (String.eqb (md5 primaryReply) (md5 secondaryReply))) s4
          else s4).

Fixpoint checkSecondaries (primaryReply : DbHashReply) (primaryConn : Conn)
    (primaryInfos : list CollInfo) (success : bool) (l : list SecondaryObs)
    : completion bool :=
  match l with
  | [] => Normal success
  | o :: rest =>
      success' <- checkSecondary primaryReply primaryConn primaryInfos success o ;;
      checkSecondaries primaryReply primaryConn primaryInfos success' rest
  end.

(** The [for] loop over [combinedDBs]. *)
Fixpoint checkDBs (skipValidationOnInvalidViewDefinitions : bool)
    (dbBlacklist : list string) (success : bool) (dbs : list DbObs) : completion bool :=
  match dbs with
  | [] => Normal success
  | db :: rest =>
      if bool_decide (dbName db ∈ dbBlacklist)
      then checkDBs skipValidationOnInvalidViewDefinitions dbBlacklist success rest
      else
        primaryReply <- primaryDBHash db ;;
        match primaryCollInfo db with
        | Infos primaryInfos =>
            success' <- checkSecondaries primaryReply (primary db) primaryInfos
                          success (slaves db) ;;
            checkDBs skipValidationOnInvalidViewDefinitions dbBlacklist success' rest
        | InvalidViewDefinition =>
            if skipValidationOnInvalidViewDefinitions
            then checkDBs skipValidationOnInvalidViewDefinitions dbBlacklist success rest
            else Throw
        | OtherError => Throw
        end
  end.

(** [checkDBHashesForReplSet(rst, dbBlacklist, msgPrefix)]: it returns when
    no command failed and the final [assert(success, ...)] holds. *)
Definition checkDBHashesForReplSet (skipValidationOnInvalidViewDefinitions : bool)
    (dbBlacklist : list string) (dbs : list DbObs) : completion unit :=
  success <- checkDBs skipValidationOnInvalidViewDefinitions
               (dbBlacklist ++ ["local"%string]) true dbs ;;
  if success then Normal () else Throw.

(** What a successful comparison with one secondary has established:
    as many collections on both sides, equal hashes for the collections
    that are not capped on the primary, and equal database hashes when
    no collection of the primary is capped. *)
Definition hashesAgree (primaryReply : DbHashReply) (primaryConn : Conn)
    (o : SecondaryObs) : Prop :=
  exists secondaryReply,
    secondaryDBHash o = Normal secondaryReply
    /\ length (keys (collections primaryReply)) = length (keys (collections secondaryReply))
    /\ Forall (fun c => collections primaryReply !! c = collections secondaryReply !! c)
         (nonCapped primaryConn (keys (collections primaryReply)))
    /\ (Forall (fun c => isCapped primaryConn c = false) (keys (collections primaryReply)) ->
        md5 primaryReply = md5 secondaryReply).

(** A database "test" with the collection "users" and the capped
    collection "log", and a secondary that agrees with the primary on
    everything but, possibly, its hash of "log" and its database hash. *)
Definition exampleConn : Conn :=
  {| isCapped := fun c => String.eqb c "log";
     getCollectionInfos := [mkCollInfo "users" "{}"; mkCollInfo "log" "{capped: true}"];
     collStats := fun c =>
       Normal {| capped := String.eqb c "log"; nindexes := 1; ns := "test." +:+ c |} |}.

Definition exampleHashes : gmap string string :=
  {[ "users"%string := "5f1a"%string; "log"%string := "77c0"%string ]}.

Definition exampleDb (secondaryLogHash secondaryMd5 : string) : DbObs :=
  {| dbName := "test";
     primaryDBHash := Normal {| collections := exampleHashes; md5 := "a3d9" |};
     primaryCollInfo := Infos (getCollectionInfos exampleConn);
     primary := exampleConn;
     slaves :=
       [ {| secondaryDBHash :=
              Normal {| collections := <["log"%string := secondaryLogHash]> exampleHashes;
                        md5 := secondaryMd5 |};
            secondary := Some exampleConn |} ] |}.

End DbHash.

(** ** Waiting for a leader and for the secondaries *)

Module LeaderWaits.
Import Leadership.

(** How a wait on [assert.soon] ends: the predicate returned true, the
    predicate raised, or the timeout elapsed. *)
Inductive SoonOutcome : Type :=
| Satisfied
| PredicateRaised
| TimedOut.

(** Modelled from the spec: [assert.soon] lives in the shell's assertion
    library, which is not part of these sources. It is the retry primitive
    of section 4.2 without the rule for transient errors: the predicate is
    invoked until it returns true or the timeout elapses, and a predicate
    that raises ends the wait at once with its exception. *)
Fixpoint soon {S O : Type} (pass : S -> O -> S * completion bool)
    (s : S) (attempts : list O) : S * SoonOutcome :=
  match attempts with
  | [] => (s, TimedOut)
  | o :: rest =>
      let '(s', r) := pass s o in
      match r with
      | Normal true => (s', Satisfied)
      | Normal false => soon pass s' rest
      | Throw => (s', PredicateRaised)
      end
  end.

Section Waits.
Context {Node : Type} `{EqDecision Node}.

(** What [runCommand({ismaster: 1})] gives on each member during one
    execution of [_callIsMaster]: the value of [n.ismaster == true], or
    [Throw]. *)
Definition Scan : Type := Node -> completion bool.

(** The [forEach] over [self.nodes] meets every member with its reply. *)
Definition probesOf (nodes : list Node) (scan : Scan) : list (Probe Node) :=
  map (fun node => (node, scan node)) nodes.

(** The fields of an [ismaster] reply that [awaitSecondaryNodes] reads;
    [arbiterOnly] may be absent. *)
Record RoleReply : Type := mkRoleReply {
  secondary : bool;
  arbiterOnly : option bool
}.

(** The members that answer a scan without claiming leadership. *)
Definition responders (probes : list (Probe Node)) : list Node :=
  omap (fun p : Probe Node => match p.2 with Normal false => Some p.1 | _ => None end) probes.

(** A scan in which exactly one member claims leadership. *)
Definition soleLeader (nodes : list Node) (scan : Scan) (n : Node) : Prop :=
  claimants (probesOf nodes scan) = [n].

(** A scan that returns no leader: no member claims leadership, or more
    than one does. *)
Definition noSoleLeader (nodes : list Node) (scan : Scan) : Prop :=
  forall n, claimants (probesOf nodes scan) <> [n].

(** A member that reports itself secondary or arbiter. *)
Definition roleKnown (ismaster : Node -> completion RoleReply) (node : Node) : Prop :=
  exists reply, ismaster node = Normal reply
                /\ secondary reply || default false (arbiterOnly reply) = true.

(** The predicate of [getPrimary]: [primary = _callIsMaster(); return
    primary]. The variables are [self.liveNodes] and [primary]. *)
Definition findPrimaryPass (nodes : list Node) (st : LiveNodes Node * option Node)
    (scan : Scan) : (LiveNodes Node * option Node) * completion bool :=
  let '(liveNodes, primary) := _callIsMaster (probesOf nodes scan) in
  ((liveNodes, primary), Normal (bool_decide (is_Some primary))).

(** [getPrimary(timeout)]: [self.liveNodes] afterwards and the returned
    [primary]. The scans listed are those that fit in the timeout. *)
Definition getPrimary (nodes : list Node) (liveNodes : LiveNodes Node)
    (scans : list Scan) : LiveNodes Node * completion (option Node) :=
  match Poller.soonNoExcept (findPrimaryPass nodes) (liveNodes, None) scans with
  | ((liveNodes', primary), Normal _) => (liveNodes', Normal primary)
  | ((liveNodes', _), Throw) => (liveNodes', Throw)
  end.

(** The predicate of [waitForMaster]: [return (master = self.getPrimary())].
    The variables are [self.liveNodes] and [master]; each attempt meets the
    scans of its own call of [getPrimary]. *)
Definition waitForMasterPass (nodes : list Node) (st : LiveNodes Node * option Node)
    (scans : list Scan) : (LiveNodes Node * option Node) * completion bool :=
  match getPrimary nodes st.1 scans with
  | (liveNodes', Normal primary) =>
      ((liveNodes', primary), Normal (bool_decide (is_Some primary)))
  | (liveNodes', Throw) => ((liveNodes', st.2), Throw)
  end.

(** [waitForMaster(timeout)] *)
Definition waitForMaster (nodes : list Node) (liveNodes : LiveNodes Node)
    (attempts : list (list Scan)) : LiveNodes Node * completion (option Node) :=
  match Poller.soonNoExcept (waitForMasterPass nodes) (liveNodes, None) attempts with
  | ((liveNodes', master), Normal _) => (liveNodes', Normal master)
  | ((liveNodes', _), Throw) => (liveNodes', Throw)
  end.

(** The predicate of [awaitNoPrimary]: [_callIsMaster() == false]. *)
Definition noPrimaryPass (nodes : list Node) (liveNodes : LiveNodes Node) (scan : Scan)
    : LiveNodes Node * completion bool :=
  let '(liveNodes', primary) := _callIsMaster (probesOf nodes scan) in
  (liveNodes', Normal (bool_decide (primary = None))).

(** [awaitNoPrimary(msg, timeout)] *)
Definition awaitNoPrimary (nodes : list Node) (liveNodes : LiveNodes Node)
    (scans : list Scan) : LiveNodes Node * completion unit :=
  Poller.soonNoExcept (noPrimaryPass nodes) liveNodes scans.

(** [getSecondaries(timeout)]: the members of [this.nodes] other than the
    leader found. *)
Definition getSecondaries (nodes : list Node) (liveNodes : LiveNodes Node)
    (scans : list Scan) : LiveNodes Node * completion (list Node) :=
  match getPrimary nodes liveNodes scans with
  | (liveNodes', Normal master) =>
      (liveNodes', Normal (filter (fun node => Some node <> master) nodes))
  | (liveNodes', Throw) => (liveNodes', Throw)
  end.

(** [getSecondary(timeout)]: [getSecondaries(timeout)[0]], [undefined] when
    there is none. *)
Definition getSecondary (nodes : list Node) (liveNodes : LiveNodes Node)
    (scans : list Scan) : LiveNodes Node * completion (option Node) :=
  match getSecondaries nodes liveNodes scans with
  | (liveNodes', Normal secs) => (liveNodes', Normal (head secs))
  | (liveNodes', Throw) => (liveNodes', Throw)
  end.

(** The member [status()] sends [replSetGetStatus] to: the leader the scan
    returns or else [liveNodes.slaves[0]]; with neither, reading [getDB] of
    [undefined] raises. *)
Definition statusTarget (nodes : list Node) (scan : Scan)
    : LiveNodes Node * completion Node :=
  let '(liveNodes, master) := _callIsMaster (probesOf nodes scan) in
  (liveNodes, deref (match master with
                     | Some m => Some m
                     | None => head (slaves liveNodes)
                     end)).

(** The [for] loop of the predicate of [awaitSecondaryNodes]: it asks every
    member of [liveNodes.slaves], also once [ready] is false. *)
Fixpoint allReady (ismaster : Node -> completion RoleReply) (ready : bool)
    (l : list Node) : completion bool :=
  match l with
  | [] => Normal ready
  | node :: rest =>
      isMaster <- ismaster node ;;
      let arbiter := default false (arbiterOnly isMaster) in
      allReady ismaster (ready && (secondary isMaster || arbiter)) rest
  end.

(** What one attempt of [awaitSecondaryNodes] meets: the scans of its call
    of [getPrimary], and the [ismaster] replies of the members. *)
Record ReadyObs : Type := mkReadyObs {
  primaryScans : list Scan;
  roleOf : Node -> completion RoleReply
}.

(** The predicate of [awaitSecondaryNodes]. *)
Definition secondariesReadyPass (nodes : list Node) (liveNodes : LiveNodes Node)
    (o : ReadyObs) : LiveNodes Node * completion bool :=
  match getPrimary nodes liveNodes (primaryScans o) with
  | (liveNodes', Normal _) =>
      (liveNodes', allReady (roleOf o) true (slaves liveNodes'))
  | (liveNodes', Throw) => (liveNodes', Throw)
  end.

(** [awaitSecondaryNodes(timeout)] *)
Definition awaitSecondaryNodes (nodes : list Node) (liveNodes : LiveNodes Node)
    (attempts : list ReadyObs) : LiveNodes Node * completion unit :=
  Poller.soonNoExcept (secondariesReadyPass nodes) liveNodes attempts.

End Waits.

(** [ReplSetTest.State.PRIMARY] *)
Definition PRIMARY : Z := 1.

(** The inner [for] of the predicate of [awaitNodesAgreeOnPrimary], over the
    [state] of the members one member lists, from index [j] on: [None] is
    its [return false] for a second leader, otherwise [nodesPrimary]. *)
Fixpoint findNodesPrimary (j nodesPrimary : Z) (states : list Z) : option Z :=
  match states with
  | [] => Some nodesPrimary
  | state :: rest =>
      if state =? PRIMARY then
        if negb (nodesPrimary =? -1) then None
        else findNodesPrimary (j + 1) j rest
      else findNodesPrimary (j + 1) nodesPrimary rest
  end.

(** The outer [for] over [self.nodes]: each member's [replSetGetStatus]
    reply as the list of the states of its [members] ([Throw]: the command
    raised, or the reply has no [members]). *)
Fixpoint agreeOnPrimary (primary : Z) (statuses : list (completion (list Z)))
    : completion bool :=
  match statuses with
  | [] => Normal true
  | status :: rest =>
      states <- status ;;
      match findNodesPrimary 0 (-1) states with
      | None => Normal false
      | Some nodesPrimary =>
          if nodesPrimary <? 0 then Normal false
          else if primary <? 0 then agreeOnPrimary nodesPrimary rest
          else if negb (primary =? nodesPrimary) then Normal false
          else agreeOnPrimary primary rest
      end
  end.

(** The predicate of [awaitNodesAgreeOnPrimary]. *)
Definition nodesAgreePass (u : unit) (statuses : list (completion (list Z)))
    : unit * completion bool :=
  (u, agreeOnPrimary (-1) statuses).

(** [awaitNodesAgreeOnPrimary(timeout)] *)
Definition awaitNodesAgreeOnPrimary (attempts : list (list (completion (list Z))))
    : completion unit :=
  (Poller.soonNoExcept nodesAgreePass () attempts).2.

(** The positions, counted from [j], at which a member lists a leader. *)
Fixpoint primaryPositionsFrom (j : Z) (states : list Z) : list Z :=
  match states with
  | [] => []
  | state :: rest =>
      if state =? PRIMARY then j :: primaryPositionsFrom (j + 1) rest
      else primaryPositionsFrom (j + 1) rest
  end.

Definition primaryPositions (states : list Z) : list Z := primaryPositionsFrom 0 states.

(** A member whose reply lists exactly one leader, at position [p]. *)
Definition seesPrimaryAt (p : Z) (status : completion (list Z)) : Prop :=
  exists states, status = Normal states /\ primaryPositions states = [p].

End LeaderWaits.

(** ** Members of the set: identifiers, removal, configuration *)

Module Membership.
Import Timeouts.

(** A connection object as far as [getNodeId] reads it: its identity, its
    [runId] (the identity of an ObjectId) and the [nodeId] attribute that
    [start] sets. *)
Record Conn : Type := mkConn {
  connId : nat;
  runId : option nat;
  nodeId : option Z
}.

(** What [getNodeId] is given: a number, a connection or an ObjectId. *)
Inductive NodeRef : Type :=
| ByNumber (n : Z)
| ByConn (c : Conn)
| ByObjectId (oid : nat).

(** [getNodeId(node)]: [None] is [undefined]. A number has [toFixed], and
    [parseInt] returns an integer as it is; [this.nodes[i] == node] on two
    objects is their identity. *)
Definition getNodeId (nodes : list Conn) (node : NodeRef) : option Z :=
  match node with
  | ByNumber n => Some n
  | ByConn c =>
      match list_find (fun x => connId x = connId c) nodes with
      | Some (i, _) => Some (Z.of_nat i)
      | None => nodeId c
      end
  | ByObjectId oid =>
      match list_find (fun x => runId x = Some oid) nodes with
      | Some (i, _) => Some (Z.of_nat i)
      | None => None
      end
  end.

(** [array.splice(start, 1)] of the language: an [undefined] start counts
    as 0, a negative one from the end, and one past the end removes
    nothing. *)
Definition splice1 {A : Type} (start : option Z) (l : list A) : list A :=
  let len := Z.of_nat (length l) in
  let relativeStart := default 0 start in
  let actualStart :=
    if relativeStart <? 0 then Z.max (len + relativeStart) 0
    else Z.min relativeStart len in
  delete (Z.to_nat actualStart) l.

(** [remove(nodeId)], without bridges: [this.nodes] and [this.ports]
    afterwards. *)
Definition remove {Port : Type} (nodes : list Conn) (ports : list Port) (node : NodeRef)
    : list Conn * list Port :=
  let nodeId := getNodeId nodes node in
  (splice1 nodeId nodes, splice1 nodeId ports).

(** [this.host + ":" + this.ports[i]] for a numeric port. *)
Definition hostPort (host : string) (port : N) : string :=
  host +:+ ":" +:+ pretty port.

(** [nodeList()] *)
Definition nodeList (host : string) (ports : list N) : list string :=
  map (hostPort host) ports.

(** [getURL()]: [this.name + "/" + hosts.join(",")] *)
Definition getURL (name host : string) (ports : list N) : string :=
  name +:+ "/" +:+ String.concat "," (map (hostPort host) ports).

(** An entry of [this.nodeOptions]: its [arbiter] flag and its [rsConfig],
    if it has one. *)
Record NodeOptions : Type := mkNodeOptions {
  arbiter : JsValue;
  rsConfig : option (gmap string JsValue)
}.

(** The configuration document built by [getReplSetConfig]. *)
Record ReplSetConfig : Type := mkReplSetConfig {
  cfg_id : string;
  protocolVersion : option JsValue;
  members : list (gmap string JsValue);
  settings : option JsValue
}.

Section Config.
(** [Object.extend(dst, src)] of the shell's type extensions, which are
    not part of these sources: the result of extending [dst] by [src]. *)
Variable extend : gmap string JsValue -> gmap string JsValue -> gmap string JsValue.

(** The body of the loop of [getReplSetConfig] for position [i]. *)
Definition member (host : string) (nodeOptions : nat -> option NodeOptions)
    (i : nat) (port : N) : gmap string JsValue :=
  let base : gmap string JsValue :=
    <["host"%string := Str (hostPort host port)]>
      (<["_id"%string := Number (Z.of_nat i)]> ∅) in
  match nodeOptions i with
  | Some nodeOpts =>
      let withArbiter :=
        if truthy (arbiter nodeOpts)
        then <["arbiterOnly"%string := Boolean true]> base else base in
      match rsConfig nodeOpts with
      | Some extra => extend withArbiter extra
      | None => withArbiter
      end
  | None => base
  end.

(** [getReplSetConfig()]: [nodeOptions i] is [this.nodeOptions["n" + i]],
    [legacy] is [jsTestOptions().useLegacyReplicationProtocol], and
    [configSettings] the closure variable [_configSettings]. *)
Definition getReplSetConfig (name host : string) (ports : list N)
    (instanceProtocolVersion : JsValue) (nodeOptions : nat -> option NodeOptions)
    (legacy : bool) (configSettings : JsValue) : ReplSetConfig :=
  {| cfg_id := name;
     protocolVersion :=
       if legacy then Some (Number 0)
       else match instanceProtocolVersion with
            | Undefined | Null => None
            | v => Some v
            end;
     members := imap (member host nodeOptions) ports;
     settings := if truthy configSettings then Some configSettings else None |}.

End Config.

(** An [extend] that copies every property of [src] onto [dst]. *)
Definition copiesProperties
    (extend : gmap string JsValue -> gmap string JsValue -> gmap string JsValue) : Prop :=
  forall dst src k,
    extend dst src !! k = match src !! k with Some v => Some v | None => dst !! k end.

(** The [rsConfig] of position [i], empty when the position has no options
    or no [rsConfig]. *)
Definition rsConfigAt (nodeOptions : nat -> option NodeOptions) (i : nat)
    : gmap string JsValue :=
  default ∅ (nodeOptions i ≫= rsConfig).

End Membership.

(** ** _waitForIndicator, and the waiting and signal arguments of start, stop and restart *)

Module Indicator.
Import Leadership Timeouts LeaderWaits.

(** An entry of [status.members] as the predicate reads it: its [name] and
    the value of the indicator ([state] or [health]), [None] when the entry
    has no such field. *)
Record Member : Type := mkMember { memberName : string; indicator : option Z }.

(** The [states] argument: one state, or an array of them. *)
Inductive StatesArg : Type :=
| OneState (state : Z)
| StateArray (states : list JsValue).

(** [if (!states.length) states = [states]]: a number has no [length]; the
    [length] of an empty array is 0, so an empty array is wrapped as well
    and becomes the one state [[]], an object. *)
Definition statesOf (states : StatesArg) : list JsValue :=
  match states with
  | OneState state => [Number state]
  | StateArray [] => [Object_]
  | StateArray (st :: rest) => st :: rest
  end.

(** The loop over [states] for one entry of [status.members]: [Throw] is
    the [Error] raised for a state whose [typeof] is not ["number"]. *)
Fixpoint matchStates (value : option Z) (states : list JsValue) : completion bool :=
  match states with
  | [] => Normal false
  | Number state :: rest =>
      if bool_decide (value = Some state) then Normal true else matchStates value rest
  | _ :: _ => Throw
  end.

Section Wait.
Context {Node : Type} `{EqDecision Node}.

(** [node.host] and [node.name] of a connection, [None] when it has no
    such property. *)
Variables hostOf nameOf : Node -> option string.

(** The [node] argument: an index into [self.nodes], or a connection. *)
Inductive NodeArg : Type :=
| ByIndex (i : Z)
| ByConn (conn : Node).

(** [if (!node.getDB) node = self.nodes[node]] *)
Definition resolve (nodes : list Node) (node : NodeArg) : option Node :=
  match node with
  | ByIndex i => if i <? 0 then None else nodes !! Z.to_nat i
  | ByConn conn => Some conn
  end.

(** [status.members[i].name == node.host || status.members[i].name == node.name] *)
Definition named (node : Node) (m : Member) : bool :=
  bool_decide (hostOf node = Some (memberName m))
  || bool_decide (nameOf node = Some (memberName m)).

(** The loop over [status.members]; [node] is [undefined] when
    [self.nodes] has no such index, and reading [node.host] raises. *)
Fixpoint scanMembers (node : option Node) (states : list JsValue) (members : list Member)
    : completion bool :=
  match members with
  | [] => Normal false
  | m :: rest =>
      n <- deref node ;;
      if named n m then
        found <- matchStates (indicator m) states ;;
        if found then Normal true else scanMembers node states rest
      else scanMembers node states rest
  end.

(** What one attempt meets: the replies to the [ismaster] scan, and the
    reply of a member to [replSetGetStatus] as its [members] ([Throw]: the
    command or the authentication raised; [None]: no [members]). *)
Record StatusObs : Type := mkStatusObs {
  scan : Scan (Node := Node);
  statusOf : Node -> completion (option (list Member))
}.

(** The predicate handed to [assert.soon]. *)
Definition indicatorPass (nodes : list Node) (node : option Node) (states : list JsValue)
    (liveNodes : LiveNodes Node) (o : StatusObs) : LiveNodes Node * completion bool :=
  let '(liveNodes', master) := _callIsMaster (probesOf nodes (scan o)) in
  match (match master with
         | Some m => Some m
         | None => head (slaves liveNodes')
         end) with
  | None => (liveNodes', Normal false)
  | Some conn =>
      match statusOf o conn with
      | Throw => (liveNodes', Normal false)
      | Normal None => (liveNodes', Normal false)
      | Normal (Some members) => (liveNodes', scanMembers node states members)
      end
  end.

(** [_waitForIndicator(node, states, ind, timeout)] for a single node. *)
Definition _waitForIndicator (nodes : list Node) (node : NodeArg) (states : StatesArg)
    (liveNodes : LiveNodes Node) (attempts : list StatusObs)
    : LiveNodes Node * SoonOutcome :=
  soon (indicatorPass nodes (resolve nodes node) (statesOf states)) liveNodes attempts.

(** An attempt in which the member asked for its status lists an entry
    named as the node. *)
Definition listsNode (nodes : list Node) (node : Node) (o : StatusObs) : Prop :=
  exists conn members,
    (statusTarget nodes (scan o)).2 = Normal conn
    /\ statusOf o conn = Normal (Some members)
    /\ Exists (fun m => named node m = true) members.

End Wait.

(** The last lines of [start]: [wait = wait || false], then a value without
    [toFixed] becomes 0 when truthy and -1 otherwise. *)
Definition normalizeWait (wait : JsValue) : Z :=
  match js_or wait (Boolean false) with
  | Number z => z
  | w => if truthy w then 0 else -1
  end.

(** [if (wait >= 0) _waitForHealth(this.nodes[n], Health.UP, wait)] *)
Definition waitsForHealth (wait : JsValue) : bool := 0 <=? normalizeWait wait.

(** The timeout [assert.soon] is given in that call. *)
Definition healthTimeout (self : gmap string JsValue) (wait : JsValue) : JsValue :=
  effectiveTimeout self WaitForHealth (Number (normalizeWait wait)).

(** The [signal] argument of [stop] and [restart]: omitted, a boolean (a
    wait flag in its place) or a signal number. *)
Inductive SignalArg : Type :=
| NoSignal
| Flag (b : bool)
| Signal (k : Z).

Definition signalValue (signal : SignalArg) : JsValue :=
  match signal with
  | NoSignal => Undefined
  | Flag b => Boolean b
  | Signal k => Number k
  end.

(** [signal == b] for a boolean [b]: the language compares a number with
    the boolean as a number, 1 for [true] and 0 for [false]. *)
Definition looseEqBool (signal : SignalArg) (b : bool) : bool :=
  match signal with
  | NoSignal => false
  | Flag b' => Bool.eqb b' b
  | Signal k => k =? (if b then 1 else 0)
  end.

(** [if (signal == true || signal == false)] *)
Definition takenForFlag (signal : SignalArg) : bool :=
  looseEqBool signal true || looseEqBool signal false.

(** [stop]: the signal it hands to [MongoRunner.stopMongod]. *)
Definition stopSignal (signal : SignalArg) : SignalArg :=
  if takenForFlag signal then NoSignal else signal.

(** [restart(n, options, signal, wait)]: the signal it hands to [stop] and
    the [wait] it hands to [start]. *)
Definition restartArgs (signal : SignalArg) (wait : JsValue) : SignalArg * JsValue :=
  if takenForFlag signal then (NoSignal, signalValue signal) else (signal, wait).

End Indicator.

(** ** checkReplicatedDataHashes: the flush database, the collections to dump, the lock *)

Module DataHashes.

(** [arraySymmetricDifference(a, b)]; [indexOf] compares with [===]. *)
Definition arraySymmetricDifference {A : Type} `{EqDecision A} (a b : list A) : list A :=
  let inAOnly := filter (fun elem => elem ∉ b) a in
  let inBOnly := filter (fun elem => elem ∉ a) b in
  inAOnly ++ inBOnly.

(** [generateUniqueDbName(dbNames, prefix)]: [draws] are the values that
    [Random.randInt(100000)] returns, in the order of the calls; [None]
    when the loop has not ended after them. *)
Fixpoint generateUniqueDbName (dbNames : gset string) (prefix : string) (draws : list N)
    : option string :=
  match draws with
  | [] => None
  | draw :: rest =>
      let uniqueDbName := prefix +:+ pretty draw in
      if bool_decide (uniqueDbName ∈ dbNames)
      then generateUniqueDbName dbNames prefix rest
      else Some uniqueDbName
  end.

(** What the guarded part of [checkDBHashes] does, in order. *)
Inductive Event : Type :=
| SendFsyncLock
| RunAwaitReplication
| RunCheckDBHashes
| SendFsyncUnlock
| PrintUnlockFailure.

#[global] Instance Event_eq_dec : EqDecision Event.
Proof. solve_decision. Defined.

(** The exceptions that can leave it. *)
Inductive Exn : Type :=
| LockFailed
| AwaitReplicationRaised
| CheckDBHashesRaised
| UnlockRaised
| UnlockFailed.

Inductive Result (A : Type) : Type :=
| Ok (a : A)
| Raise (e : Exn).
Arguments Ok {A} a.
Arguments Raise {A} e.

(** The variables: what has been done so far, and [activeException]. *)
Record State : Type := mkState { trace : list Event; activeException : bool }.

Definition Prog (A : Type) : Type := State -> State * Result A.

Definition ret {A : Type} (a : A) : Prog A := fun st => (st, Ok a).

Definition raise {A : Type} (e : Exn) : Prog A := fun st => (st, Raise e).

Definition seq {A B : Type} (p : Prog A) (k : A -> Prog B) : Prog B :=
  fun st =>
    match p st with
    | (st', Ok a) => k a st'
    | (st', Raise e) => (st', Raise e)
    end.

Definition emit (ev : Event) : Prog unit :=
  fun st => ({| trace := trace st ++ [ev]; activeException := activeException st |}, Ok ()).

Definition setActiveException (b : bool) : Prog unit :=
  fun st => ({| trace := trace st; activeException := b |}, Ok ()).

Definition getActiveException : Prog bool := fun st => (st, Ok (activeException st)).

(** A call of a modelled function: its exception becomes [e]. *)
Definition call {A : Type} (c : completion A) (e : Exn) : Prog unit :=
  match c with
  | Normal _ => ret ()
  | Throw => raise e
  end.

(** [try { body } catch (e) { handler } finally { finalizer }] of the
    language: the finalizer always runs, and an exception of the finalizer
    replaces the completion of the rest. *)
Definition try_catch_finally {A : Type} (body : Prog A) (handler : Exn -> Prog A)
    (finalizer : Prog unit) : Prog A :=
  fun st =>
    let '(st1, r1) := body st in
    let '(st2, r2) := match r1 with
                      | Ok a => (st1, Ok a)
                      | Raise e => handler e st1
                      end in
    match finalizer st2 with
    | (st3, Ok _) => (st3, r2)
    | (st3, Raise e) => (st3, Raise e)
    end.

(** The [try] statement of [checkDBHashes]. [lockWorked] is whether
    [assert.commandWorked] accepts the reply to [{fsync: 1, lock: 1}];
    [unlockReply] is [res.ok] of the reply to [{fsyncUnlock: 1}], or
    [Throw] when sending the command raised. *)
Definition lockedCheck {A : Type} (lockWorked : bool) (awaitReplication : completion A)
    (checkDBHashesForReplSet : completion unit) (unlockReply : completion bool)
    : Prog unit :=
  try_catch_finally
    (seq (emit SendFsyncLock) (fun _ =>
     seq (if lockWorked then ret () else raise LockFailed) (fun _ =>
     seq (emit RunAwaitReplication) (fun _ =>
     seq (call awaitReplication AwaitReplicationRaised) (fun _ =>
     seq (emit RunCheckDBHashes) (fun _ =>
     call checkDBHashesForReplSet CheckDBHashesRaised))))))
    (fun e => seq (setActiveException true) (fun _ => raise e))
    (seq (emit SendFsyncUnlock) (fun _ =>
     match unlockReply with
     | Throw => raise UnlockRaised
     | Normal ok =>
         if ok then ret ()
         else seq getActiveException (fun active =>
              if active then emit PrintUnlockFailure else raise UnlockFailed)
     end)).

(** The guarded part of [checkDBHashes] on the replies of the members:
    [rst.awaitReplication(60 * 1000 * 5)] names no operation-time type. *)
Definition checkDBHashesGuarded (lockWorked : bool) (runningWithoutJournaling : bool)
    (replication : AwaitReplication.Obs) (skipValidationOnInvalidViewDefinitions : bool)
    (dbBlacklist : list string) (dbs : list DbHash.DbObs) (unlockReply : completion bool)
    : State * Result unit :=
  lockedCheck lockWorked
    (AwaitReplication.awaitReplication runningWithoutJournaling None replication)
    (DbHash.checkDBHashesForReplSet skipValidationOnInvalidViewDefinitions dbBlacklist dbs)
    unlockReply
    {| trace := []; activeException := false |}.

End DataHashes.

(** ** dumpCollectionDiff: what a report accounts for *)

Module CollDiffReport.
Import CollDiff.

(** Strictly decreasing primary keys: a sorted array read from its tail. *)
Fixpoint descendingById (docs : list Doc) : Prop :=
  match docs with
  | [] => True
  | d :: rest => Forall (fun e => _id e < _id d) rest /\ descendingById rest
  end.

(** The documents of [docs] whose primary key no document of [others] has. *)
Definition absentFrom (others docs : list Doc) : list Doc :=
  filter (fun d => _id d ∉ (_id <$> others)) docs.

End CollDiffReport.

(** ** checkDBHashesForReplSet: the databases examined and the metadata compared *)

Module DbHashChecks.
Import DbHash.

(** The databases of [combinedDBs] that the loop examines. *)
Definition examined (dbBlacklist : list string) (dbs : list DbObs) : list DbObs :=
  filter (fun db => dbName db ∉ dbBlacklist ++ ["local"%string]) dbs.

(** Two members report the same [capped], [nindexes] and [ns] for a
    collection. *)
Definition sameStats (primaryConn secondaryConn : Conn) (collName : string) : Prop :=
  exists primaryCollStats secondaryCollStats,
    collStats primaryConn collName = Normal primaryCollStats
    /\ collStats secondaryConn collName = Normal secondaryCollStats
    /\ capped primaryCollStats = capped secondaryCollStats
    /\ nindexes primaryCollStats = nindexes secondaryCollStats
    /\ ns primaryCollStats = ns secondaryCollStats.

End DbHashChecks.

(** ** awaitReplication: what the polling reads and what it leaves alone *)

Module AwaitReplicationReads.
Import OpTime AwaitReplication.

(** Two replies of a secondary that differ at most in the [durableOpTime]
    of their [optimes]. *)
Definition sameButDurable (s s' : SlaveObs) : Prop :=
  versionReply s = versionReply s'
  /\ stateReply s = stateReply s'
  /\ optimeReply s = optimeReply s'
  /\ match optimesReply s, optimesReply s' with
     | Normal optimes, Normal optimes' => appliedOpTime optimes = appliedOpTime optimes'
     | Throw, Throw => True
     | _, _ => False
     end.

(** The entry of [optimes] that [_getDurableOpTimeTimestamp] selects. *)
Definition selectedOpTime (runningWithoutJournaling : bool) (optimes : Optimes)
    : option OpTimeValue :=
  if runningWithoutJournaling then appliedOpTime optimes else durableOpTime optimes.

End AwaitReplicationReads.

(** ** ReplSetTest.awaitRSClientHosts *)

Module ClientHosts.


(** A property of [hostOk], in the order in which [for ... in] visits
    them: [tags], or a property with a boolean value. *)
Inductive Expectation : Type :=
| Tags (expected : gmap string string)
| Flag (prop : string) (expected : bool).

(** [if (hostOk == undefined) hostOk = {ok: true}] *)
Definition hostOkOrDefault (hostOk : option (list Expectation)) : list Expectation :=
  default [Flag "ok" true] hostOk.







End ClientHosts.

(** * Properties *)

(** ** Operation times *)

Module OpTimeTheory.
Import OpTime.

Lemma timestamp_eqb_eq (a b : Timestamp) : timestamp_eqb a b = true <-> a = b.
Proof.
  unfold timestamp_eqb. rewrite andb_true_iff, !Z.eqb_eq.
  destruct a, b; simpl. split; [intros [-> ->]; reflexivity | intros [= -> ->]; auto].
Qed.

Lemma isEarlierTimestamp_defined (a b : Timestamp) :
  _isEarlierTimestamp (Some a) (Some b) = Normal (timestampLower a b).
Proof.
  unfold _isEarlierTimestamp, timestampLower, getTime, getInc; simpl.
  f_equal.
  destruct (Z.eqb_spec (secs a) (secs b)) as [->|Hne].
  - rewrite Z.ltb_irrefl. reflexivity.
  - rewrite orb_false_r. reflexivity.
Qed.

(** On two documents with a term the code follows the rule of the
    specification, and never raises. *)
Lemma isEarlierOpTime_docs (ta tb : Timestamp) (ea eb : Z) :
  _isEarlierOpTime (OpTimeDoc ta ea) (OpTimeDoc tb eb)
  = Normal (specEarlier (OpTimeDoc ta ea) (OpTimeDoc tb eb)).
Proof.
  unfold _isEarlierOpTime, specEarlier; simpl.
  destruct (negb (ea =? -1) && negb (eb =? -1) && negb (ea =? eb)); [reflexivity|].
  apply isEarlierTimestamp_defined.
Qed.

(** A bare Timestamp is given the term -1 only when its seconds are 0. *)
Lemma withTerm_bare (ts : Timestamp) :
  withTerm (BareTimestamp ts)
  = if secs ts =? 0 then {| n_ts := Some ts; n_t := -1 |}
    else {| n_ts := None; n_t := secs ts |}.
Proof. unfold withTerm; simpl. destruct (secs ts =? 0); reflexivity. Qed.

(** Two bare Timestamps of the same, non-zero second: the seconds are taken
    for equal terms, and the timestamps compared are [undefined]. *)
Lemma isEarlierOpTime_bare_same_second (s i1 i2 : Z) :
  s <> 0 ->
  _isEarlierOpTime (BareTimestamp (mkTimestamp s i1)) (BareTimestamp (mkTimestamp s i2))
  = Throw.
Proof.
  intros H0. unfold _isEarlierOpTime. rewrite !withTerm_bare; simpl.
  destruct (Z.eqb_spec s 0); [contradiction|]. simpl.
  rewrite Z.eqb_refl, andb_false_r. reflexivity.
Qed.

(** A bare Timestamp against a document: its seconds are compared with the
    term of the document. *)
Lemma isEarlierOpTime_bare_against_doc (s i e : Z) (tb : Timestamp) :
  s <> 0 -> s <> -1 -> e <> -1 -> s <> e ->
  _isEarlierOpTime (BareTimestamp (mkTimestamp s i)) (OpTimeDoc tb e) = Normal (s <? e).
Proof.
  intros H0 H1 H2 H3. unfold _isEarlierOpTime. rewrite withTerm_bare; simpl.
  destruct (Z.eqb_spec s 0); [contradiction|]. simpl.
  destruct (Z.eqb_spec s (-1)); [contradiction|].
  destruct (Z.eqb_spec e (-1)); [contradiction|].
  destruct (Z.eqb_spec s e); [contradiction|]. reflexivity.
Qed.

(** C1, where the code departs from the claim. For values without a term
    field the claim compares timestamps: [Timestamp(100, 1)] is earlier
    than [Timestamp(100, 2)], and [Timestamp(10, 1)] is not earlier than
    [{ts: Timestamp(5, 0), t: 50}]. The code raises on the first pair and
    answers [true] on the second, because the test [ot.t] that should
    detect a missing term reads the seconds of a bare Timestamp. *)
Theorem isEarlierOpTime_without_term_field :
  specEarlier (BareTimestamp (mkTimestamp 100 1)) (BareTimestamp (mkTimestamp 100 2)) = true
  /\ _isEarlierOpTime (BareTimestamp (mkTimestamp 100 1))
                      (BareTimestamp (mkTimestamp 100 2)) = Throw
  /\ specEarlier (BareTimestamp (mkTimestamp 10 1)) (OpTimeDoc (mkTimestamp 5 0) 50) = false
  /\ _isEarlierOpTime (BareTimestamp (mkTimestamp 10 1))
                      (OpTimeDoc (mkTimestamp 5 0) 50) = Normal true.
Proof. repeat split; reflexivity. Qed.

Lemma timestampLower_iff (a b : Timestamp) : timestampLower a b = true <-> lowerP a b.
Proof.
  unfold timestampLower, lowerP.
  rewrite orb_true_iff, andb_true_iff, !Z.ltb_lt, Z.eqb_eq. tauto.
Qed.

Lemma specEarlier_iff (ta : Timestamp) (ea : Z) (tb : Timestamp) (eb : Z) :
  specEarlier (OpTimeDoc ta ea) (OpTimeDoc tb eb) = true <-> earlierP ta ea tb eb.
Proof.
  unfold specEarlier, earlierP; simpl.
  destruct (Z.eqb_spec ea (-1)), (Z.eqb_spec eb (-1)), (Z.eqb_spec ea eb); simpl;
    rewrite ?timestampLower_iff, ?Z.ltb_lt; try tauto; try lia.
  all: intuition lia.
Qed.

Lemma earlierP_asym (ta : Timestamp) (ea : Z) (tb : Timestamp) (eb : Z) :
  earlierP ta ea tb eb -> ~ earlierP tb eb ta ea.
Proof. unfold earlierP, lowerP. lia. Qed.

Lemma compare_docs (ta : Timestamp) (ea : Z) (tb : Timestamp) (eb : Z) :
  compare (OpTimeDoc ta ea) (OpTimeDoc tb eb)
  = Normal (if specEarlier (OpTimeDoc ta ea) (OpTimeDoc tb eb) then Lt
            else if specEarlier (OpTimeDoc tb eb) (OpTimeDoc ta ea) then Gt else Eq).
Proof. unfold compare. rewrite !isEarlierOpTime_docs. reflexivity. Qed.

Lemma notLater_iff (ta : Timestamp) (ea : Z) (tb : Timestamp) (eb : Z) :
  notLater (OpTimeDoc ta ea) (OpTimeDoc tb eb) <-> ~ earlierP tb eb ta ea.
Proof.
  unfold notLater. rewrite compare_docs, <- specEarlier_iff.
  destruct (specEarlier (OpTimeDoc ta ea) (OpTimeDoc tb eb)) eqn:Hab,
           (specEarlier (OpTimeDoc tb eb) (OpTimeDoc ta ea)) eqn:Hba.
  - apply specEarlier_iff in Hab, Hba. destruct (earlierP_asym _ _ _ _ Hab Hba).
  - split; [congruence | auto].
  - split; [intros [?|?]; congruence | intros H; exfalso; apply H; reflexivity].
  - split; [congruence | auto].
Qed.

Lemma notLater_set (ta : Timestamp) (ea : Z) (tb : Timestamp) (eb : Z) :
  ea <> -1 -> eb <> -1 ->
  notLater (OpTimeDoc ta ea) (OpTimeDoc tb eb) <-> ea < eb \/ (ea = eb /\ ~ lowerP tb ta).
Proof.
  intros Ha Hb. rewrite notLater_iff. unfold earlierP.
  destruct (Z.lt_trichotomy ea eb) as [Hlt | [Heq | Hgt]].
  - split; [intros _; left; exact Hlt | intros _ [?|[? _]]; lia].
  - split.
    + intros H. right. split; [exact Heq|].
      intros Hl. apply H. right. split; [lia | exact Hl].
    + intros [?|[_ Hn]] [?|[_ Hl]]; try lia. exact (Hn Hl).
  - split; [intros H; exfalso; apply H; left; lia | intros [?|[? _]]; lia].
Qed.

Lemma notLater_by_timestamp (ta : Timestamp) (ea : Z) (tb : Timestamp) (eb : Z) :
  byTimestamp ea eb ->
  notLater (OpTimeDoc ta ea) (OpTimeDoc tb eb) <-> ~ lowerP tb ta.
Proof.
  unfold byTimestamp. intros H. rewrite notLater_iff. unfold earlierP. split.
  - intros Hn Hl. apply Hn. right. split; [lia | exact Hl].
  - intros Hn [?|[_ Hl]]; [lia | exact (Hn Hl)].
Qed.

Lemma not_lower_trans (a b c : Timestamp) : ~ lowerP b a -> ~ lowerP c b -> ~ lowerP c a.
Proof. unfold lowerP. lia. Qed.

Lemma notLater_trans (ta tb tc : Timestamp) (ea eb ec : Z) :
  coherentTerms ea eb ec ->
  notLater (OpTimeDoc ta ea) (OpTimeDoc tb eb) ->
  notLater (OpTimeDoc tb eb) (OpTimeDoc tc ec) ->
  notLater (OpTimeDoc ta ea) (OpTimeDoc tc ec).
Proof.
  intros [(Ha & Hb & Hc) | (Hab & Hbc & Hac)].
  - rewrite !notLater_set by assumption.
    intros [?|[-> ?]] [?|[-> ?]]; try (left; lia).
    right. split; [reflexivity|]. eauto using not_lower_trans.
  - rewrite !notLater_by_timestamp by assumption. apply not_lower_trans.
Qed.

Lemma notLater_total (ta tb : Timestamp) (ea eb : Z) :
  notLater (OpTimeDoc ta ea) (OpTimeDoc tb eb) \/ notLater (OpTimeDoc tb eb) (OpTimeDoc ta ea).
Proof.
  rewrite !notLater_iff.
  destruct (specEarlier (OpTimeDoc ta ea) (OpTimeDoc tb eb)) eqn:Hab.
  - left. apply earlierP_asym, specEarlier_iff, Hab.
  - right. rewrite <- specEarlier_iff, Hab. discriminate.
Qed.

Lemma compare_refl (ta : Timestamp) (ea : Z) :
  compare (OpTimeDoc ta ea) (OpTimeDoc ta ea) = Normal Eq.
Proof.
  rewrite compare_docs.
  destruct (specEarlier (OpTimeDoc ta ea) (OpTimeDoc ta ea)) eqn:H; [|reflexivity].
  apply specEarlier_iff in H. destruct (earlierP_asym _ _ _ _ H H).
Qed.

Lemma compare_Eq_same_term (ta tb : Timestamp) (e : Z) :
  compare (OpTimeDoc ta e) (OpTimeDoc tb e) = Normal Eq -> ta = tb.
Proof.
  rewrite compare_docs.
  destruct (specEarlier (OpTimeDoc ta e) (OpTimeDoc tb e)) eqn:Hab; [discriminate|].
  destruct (specEarlier (OpTimeDoc tb e) (OpTimeDoc ta e)) eqn:Hba; [discriminate|].
  intros _.
  assert (Hn1 : ~ earlierP ta e tb e) by (rewrite <- specEarlier_iff, Hab; discriminate).
  assert (Hn2 : ~ earlierP tb e ta e) by (rewrite <- specEarlier_iff, Hba; discriminate).
  destruct ta as [sa ia], tb as [sb ib].
  unfold earlierP, lowerP in Hn1, Hn2; simpl in *.
  assert (sa = sb) by lia. assert (ia = ib) by lia. congruence.
Qed.

(** C9 as stated fails: with a set term on either side of an unset one,
    [a] is not later than [b] and [b] is not later than [c], yet [a] is
    later than [c]. *)
Lemma compare_not_transitive :
  notLater (OpTimeDoc (mkTimestamp 1 0) 2) (OpTimeDoc (mkTimestamp 2 0) (-1))
  /\ notLater (OpTimeDoc (mkTimestamp 2 0) (-1)) (OpTimeDoc (mkTimestamp 3 0) 1)
  /\ ~ notLater (OpTimeDoc (mkTimestamp 1 0) 2) (OpTimeDoc (mkTimestamp 3 0) 1).
Proof.
  split; [left; reflexivity|]. split; [left; reflexivity|].
  intros [H|H]; vm_compute in H; discriminate.
Qed.

(** C9, amended: on operation times that carry a term, the comparison
    derived from [_isEarlierOpTime] is reflexive, total, antisymmetric on
    equal terms, and transitive over any three operation times whose terms
    are all set or pairwise send the comparison to the timestamps (one of
    the two unset, or both equal). *)
Theorem compare_total_preorder_on_coherent_terms (ta tb tc : Timestamp) (ea eb ec : Z) :
  compare (OpTimeDoc ta ea) (OpTimeDoc ta ea) = Normal Eq
  /\ (notLater (OpTimeDoc ta ea) (OpTimeDoc tb eb)
      \/ notLater (OpTimeDoc tb eb) (OpTimeDoc ta ea))
  /\ (compare (OpTimeDoc ta ea) (OpTimeDoc tb eb) = Normal Eq -> ea = eb ->
      OpTimeDoc ta ea = OpTimeDoc tb eb)
  /\ (coherentTerms ea eb ec ->
      notLater (OpTimeDoc ta ea) (OpTimeDoc tb eb) ->
      notLater (OpTimeDoc tb eb) (OpTimeDoc tc ec) ->
      notLater (OpTimeDoc ta ea) (OpTimeDoc tc ec)).
Proof.
  split; [apply compare_refl|]. split; [apply notLater_total|]. split.
  - intros H ->. f_equal. exact (compare_Eq_same_term _ _ _ H).
  - apply notLater_trans.
Qed.

Lemma compare_total_preorder_on_coherent_terms_witness :
  coherentTerms 5 5 6
  /\ notLater (OpTimeDoc (mkTimestamp 100 1) 5) (OpTimeDoc (mkTimestamp 100 2) 5)
  /\ notLater (OpTimeDoc (mkTimestamp 100 2) 5) (OpTimeDoc (mkTimestamp 90 0) 6)
  /\ notLater (OpTimeDoc (mkTimestamp 100 1) 5) (OpTimeDoc (mkTimestamp 90 0) 6)
  /\ compare (OpTimeDoc (mkTimestamp 100 2) 5) (OpTimeDoc (mkTimestamp 100 2) 5) = Normal Eq
  /\ OpTimeDoc (mkTimestamp 100 2) 5 = OpTimeDoc (mkTimestamp 100 2) 5.
Proof.
  assert (Hc : coherentTerms 5 5 6) by (left; lia).
  assert (Hab : notLater (OpTimeDoc (mkTimestamp 100 1) 5) (OpTimeDoc (mkTimestamp 100 2) 5))
    by (left; reflexivity).
  assert (Hbc : notLater (OpTimeDoc (mkTimestamp 100 2) 5) (OpTimeDoc (mkTimestamp 90 0) 6))
    by (left; reflexivity).
  split; [exact Hc|]. split; [exact Hab|]. split; [exact Hbc|]. split.
  - exact (proj2 (proj2 (proj2 (compare_total_preorder_on_coherent_terms
             (mkTimestamp 100 1) (mkTimestamp 100 2) (mkTimestamp 90 0) 5 5 6))) Hc Hab Hbc).
  - split; [reflexivity|].
    exact (proj1 (proj2 (proj2 (compare_total_preorder_on_coherent_terms
             (mkTimestamp 100 2) (mkTimestamp 100 2) (mkTimestamp 90 0) 5 5 6)))
             eq_refl eq_refl).
Defined.

End OpTimeTheory.

(** ** Leadership scan *)

Module LeadershipTheory.
Import Leadership.

Section Scan.
Context {Node : Type}.
Implicit Types (probes : list (Probe Node)) (st : ScanState Node).

Lemma claimants_cons (p : Probe Node) probes :
  claimants (p :: probes)
  = match p.2 with Normal true => p.1 :: claimants probes | _ => claimants probes end.
Proof. unfold claimants; simpl. destruct p as [n [[|]|]]; reflexivity. Qed.

(** The leader slot keeps the first member that claimed leadership. *)
Lemma fold_visit_master probes st :
  master (liveNodes (fold_left visit probes st))
  = match master (liveNodes st) with
    | Some m => Some m
    | None => head (claimants probes)
    end.
Proof.
  revert st. induction probes as [|p probes IH]; intros st.
  - simpl. destruct (master (liveNodes st)); reflexivity.
  - rewrite claimants_cons. cbn [fold_left]. rewrite IH. unfold visit.
    destruct p as [n [[|]|]]; simpl;
      destruct (master (liveNodes st)) eqn:Hm; simpl; rewrite ?Hm; reflexivity.
Qed.

(** The flag is raised exactly by a claim made while the slot is taken. *)
Lemma fold_visit_twoPrimaries probes st :
  twoPrimaries (fold_left visit probes st)
  = twoPrimaries st
    || match master (liveNodes st) with
       | Some _ => bool_decide (1 <= length (claimants probes))%nat
       | None => bool_decide (2 <= length (claimants probes))%nat
       end.
Proof.
  revert st. induction probes as [|p probes IH]; intros st.
  - simpl. destruct (master (liveNodes st)); rewrite orb_false_r; reflexivity.
  - rewrite claimants_cons. cbn [fold_left]. rewrite IH. unfold visit.
    destruct p as [n [[|]|]]; simpl;
      destruct (master (liveNodes st)) eqn:Hm; simpl; rewrite ?Hm; try reflexivity.
    + rewrite orb_true_r. reflexivity.
    + f_equal. apply bool_decide_ext. lia.
Qed.

Lemma scan_master probes : master (liveNodes (scan probes)) = head (claimants probes).
Proof. unfold scan. rewrite fold_visit_master. reflexivity. Qed.

Lemma scan_twoPrimaries probes :
  twoPrimaries (scan probes) = bool_decide (2 <= length (claimants probes))%nat.
Proof. unfold scan. rewrite fold_visit_twoPrimaries. reflexivity. Qed.

(** What [_callIsMaster] returns, by the number of members that claim to
    lead. *)
Lemma callIsMaster_returns probes :
  (_callIsMaster probes).2
  = match claimants probes with
    | [n] => Some n
    | _ => None
    end.
Proof.
  unfold _callIsMaster; simpl. rewrite scan_twoPrimaries, scan_master.
  destruct (claimants probes) as [|n [|m l]]; simpl; try reflexivity.
Qed.

(** The scan itself leaves the first claimant in [liveNodes.master], also
    when it returns [false]. *)
Lemma callIsMaster_liveNodes_master probes :
  master (_callIsMaster probes).1 = head (claimants probes).
Proof. unfold _callIsMaster; simpl. apply scan_master. Qed.

(** C8, amended: when more than one member reports itself leader in a
    scan, [_callIsMaster] returns no leader, while the leader field of the
    view it rebuilt, [liveNodes.master], is not cleared: it holds the first
    of them in the order of the scan. Whenever the scan returns a leader,
    that member is the only one that reported itself leader, and it is the
    leader of the view. *)
Theorem callIsMaster_ambiguous_result_and_view probes :
  ((2 <= length (claimants probes))%nat ->
   (_callIsMaster probes).2 = None
   /\ master (_callIsMaster probes).1 = head (claimants probes)
   /\ exists first, master (_callIsMaster probes).1 = Some first)
  /\ (forall n, (_callIsMaster probes).2 = Some n ->
                claimants probes = [n] /\ master (_callIsMaster probes).1 = Some n).
Proof.
  rewrite callIsMaster_returns, callIsMaster_liveNodes_master. split.
  - destruct (claimants probes) as [|n [|m l]]; simpl; [lia | lia |].
    intros _. split; [reflexivity|]. split; [reflexivity | eauto].
  - intros n. destruct (claimants probes) as [|k [|m l]]; try discriminate.
    intros [= ->]. split; reflexivity.
Qed.

End Scan.

Lemma callIsMaster_ambiguous_result_and_view_witness :
  (2 <= length (claimants [(1%nat, Normal true); (2%nat, Normal false);
                           (3%nat, Throw); (4%nat, Normal true)]))%nat
  /\ (_callIsMaster [(1%nat, Normal true); (2%nat, Normal false);
                     (3%nat, Throw); (4%nat, Normal true)]).2 = None
  /\ master (_callIsMaster [(1%nat, Normal true); (2%nat, Normal false);
                            (3%nat, Throw); (4%nat, Normal true)]).1 = Some 1%nat
  /\ (_callIsMaster [(1%nat, Normal false); (2%nat, Normal true)]).2 = Some 2%nat
  /\ claimants [(1%nat, Normal false); (2%nat, Normal true)] = [2%nat]
  /\ master (_callIsMaster [(1%nat, Normal false); (2%nat, Normal true)]).1 = Some 2%nat.
Proof.
  assert (H : (2 <= length (claimants [(1%nat, Normal true); (2%nat, Normal false);
                                        (3%nat, Throw); (4%nat, Normal true)]))%nat)
    by (simpl; lia).
  split; [exact H|].
  destruct (proj1 (callIsMaster_ambiguous_result_and_view _) H) as (Hnone & Hfirst & _).
  split; [exact Hnone|]. split; [exact Hfirst|].
  split; [reflexivity|].
  exact (proj2 (callIsMaster_ambiguous_result_and_view
                  [(1%nat, Normal false); (2%nat, Normal true)]) 2%nat eq_refl).
Defined.

(** C8 as stated fails: with two members that report themselves leader
    the scan returns no leader, but the view it leaves has a leader, the
    first of the two. *)
Lemma callIsMaster_view_keeps_first_claimant :
  _callIsMaster [(1%nat, Normal true); (2%nat, Normal true)]
  = ({| master := Some 1%nat; slaves := [] |}, None)
  /\ master (_callIsMaster [(1%nat, Normal true); (2%nat, Normal true)]).1 <> None.
Proof. split; [reflexivity | discriminate]. Qed.

End LeadershipTheory.

(** ** Default timeouts *)

Module TimeoutsTheory.
Import Timeouts.

Lemma kDefaultTimeoutMs_constructed (data : string -> JsValue) :
  get (instance data) "kDefaultTimeoutMs" = Number 300000.
Proof. reflexivity. Qed.

Lemma kDefaultTimeoutMS_never_assigned (data : string -> JsValue) :
  get (instance data) "kDefaultTimeoutMS" = Undefined.
Proof. reflexivity. Qed.

Lemma defaulted_falsy (self : gmap string JsValue) (timeout : JsValue) :
  truthy timeout = false -> defaulted self timeout = get self "kDefaultTimeoutMS".
Proof. unfold defaulted, js_or. intros ->. reflexivity. Qed.

(** C10: on a constructed instance, whose [kDefaultTimeoutMs] is five
    minutes, every wait called without a timeout works with [undefined]:
    the defaulting expression reads [kDefaultTimeoutMS], which is never
    assigned. *)
Theorem omitted_timeout_resolves_to_undefined (data : string -> JsValue) (op : WaitOp) :
  get (instance data) "kDefaultTimeoutMs" = Number (5 * 60 * 1000)
  /\ get (instance data) "kDefaultTimeoutMS" = Undefined
  /\ effectiveTimeout (instance data) op Undefined = Undefined
  /\ effectiveTimeout (instance data) op Undefined <> Number (5 * 60 * 1000).
Proof.
  split; [apply kDefaultTimeoutMs_constructed|].
  split; [apply kDefaultTimeoutMS_never_assigned|].
  assert (H : effectiveTimeout (instance data) op Undefined = Undefined).
  { destruct op; unfold effectiveTimeout;
      rewrite ?defaulted_falsy, ?kDefaultTimeoutMS_never_assigned;
      reflexivity. }
  split; [exact H|]. rewrite H. discriminate.
Qed.

End TimeoutsTheory.

(** ** The retry primitive *)

Module PollerTheory.
Import Poller.

Section Soon.
Context {S O : Type} (pass : S -> O -> S * completion bool).

(** A wait that succeeds ends with a pass that returned [true], run on the
    variables the passes before it left. *)
Lemma soonNoExcept_success (s s' : S) (attempts : list O) :
  soonNoExcept pass s attempts = (s', Normal ()) ->
  exists before o after s0,
    attempts = before ++ o :: after
    /\ (soonNoExcept pass s before).1 = s0
    /\ pass s0 o = (s', Normal true).
Proof.
  revert s. induction attempts as [|o rest IH]; intros s; simpl.
  - discriminate.
  - destruct (pass s o) as [s1 r] eqn:Hp.
    destruct r as [[|]|].
    + intros [= <-]. exists [], o, rest, s. simpl. auto.
    + intros H. destruct (IH _ H) as (before & o' & after & s0 & -> & Hs0 & Hp').
      exists (o :: before), o', after, s0. simpl. rewrite Hp. auto.
    + intros H. destruct (IH _ H) as (before & o' & after & s0 & -> & Hs0 & Hp').
      exists (o :: before), o', after, s0. simpl. rewrite Hp. auto.
Qed.

(** Passes that leave the variables alone and do not return [true] use up
    the attempts. *)
Lemma soonNoExcept_idle (s : S) (attempts : list O) :
  Forall (fun o => exists r, pass s o = (s, r) /\ r <> Normal true) attempts ->
  soonNoExcept pass s attempts = (s, Throw)
  /\ forall more, soonNoExcept pass s (attempts ++ more) = soonNoExcept pass s more.
Proof.
  induction 1 as [|o rest (r & Hp & Hr) _ [IH1 IH2]]; simpl.
  - auto.
  - rewrite Hp. destruct r as [[|]|]; try congruence; auto.
Qed.

End Soon.
End PollerTheory.

Module AwaitReplicationTheory.
Import OpTime AwaitReplication.

Lemma secondaryIsNewer_irrefl (ts : Timestamp) : secondaryIsNewer ts ts = false.
Proof. unfold secondaryIsNewer. rewrite !Z.ltb_irrefl, andb_false_r. reflexivity. Qed.

Section Pass.
Variables (j : bool) (k : Z).

Lemma setLatest_same (v : Vars) (ts : option Timestamp) :
  masterLatestOpTime v = ts -> setLatest v ts = v.
Proof. destruct v; simpl; intros ->; reflexivity. Qed.

Lemma checkSecondaries_true_iff reply (v v' : Vars) (l : list SlaveObs) :
  checkSecondaries j k reply v l = (v', Normal true)
  <-> v' = v /\ Forall (synced j k v) l.
Proof.
  induction l as [|s rest IH]; simpl.
  - split; [intros [= <-]; auto | intros [-> _]; reflexivity].
  - rewrite Forall_cons.
    destruct (versionReply s) as [c|] eqn:Hv.
    2:{ split; [discriminate|]. intros (_ & (Hc & _) & _). congruence. }
    destruct (Z.eqb_spec (configVersion v) c) as [Hc|Hne]; simpl.
    2:{ split.
        - destruct (c >? configVersion v); discriminate.
        - intros (_ & (Hc & _) & _). congruence. }
    destruct (stateReply s) as [st|] eqn:Hst.
    2:{ split; [discriminate|].
        intros (_ & (_ & [?|(? & ? & ? & _)]) & _); congruence. }
    destruct (Z.eqb_spec st ARBITER) as [->|Hna].
    { rewrite IH. split; [intros [-> ?] | intros (-> & _ & ?); auto].
      split; [reflexivity|]. split; [|assumption].
      split; [congruence|]. left. exact Hst. }
    destruct (getSecondaryTimestampFn j k s) as [ts'|] eqn:Hts.
    2:{ split; [discriminate|].
        intros (_ & (_ & [?|(? & ? & _ & _ & _ & ?)]) & _); congruence. }
    destruct (masterLatestOpTime v) as [latest|] eqn:Hl.
    2:{ split; [discriminate|].
        intros (_ & (_ & [?|(? & ? & _ & _ & ? & _)]) & _); congruence. }
    destruct ts' as [ts|].
    2:{ split; [discriminate|].
        intros (_ & (_ & [?|(? & ? & _ & _ & _ & ?)]) & _); congruence. }
    destruct (secondaryIsNewer latest ts) eqn:Hnew.
    { split.
      - destruct (_getLastOpTimeTimestamp reply); discriminate.
      - intros (_ & (_ & [?|(? & ? & _ & _ & H1 & H2)]) & _); [congruence|].
        assert (latest = ts) by congruence. subst.
        rewrite secondaryIsNewer_irrefl in Hnew. discriminate. }
    destruct (timestamp_eqb latest ts) eqn:Heq; simpl.
    + apply OpTimeTheory.timestamp_eqb_eq in Heq as ->. rewrite IH.
      split; [intros [-> ?] | intros (-> & _ & ?); auto].
      split; [reflexivity|]. split; [|assumption].
      split; [congruence|]. right. exists st, ts. auto.
    + split; [discriminate|].
      intros (_ & (_ & [?|(? & ? & _ & _ & H1 & H2)]) & _); [congruence|].
      assert (latest = ts) by congruence. subst.
      assert (timestamp_eqb ts ts = true) by (apply OpTimeTheory.timestamp_eqb_eq; reflexivity).
      congruence.
Qed.

(** The loop changes the variables only by assigning the leader's
    operation time, read again, to [masterLatestOpTime]. *)
Lemma checkSecondaries_vars reply (v : Vars) (l : list SlaveObs) :
  (checkSecondaries j k reply v l).1 = v
  \/ exists latest, _getLastOpTimeTimestamp reply = Normal latest
       /\ checkSecondaries j k reply v l = (setLatest v latest, Normal false).
Proof.
  induction l as [|s rest IH]; simpl; [left; reflexivity|].
  destruct (versionReply s) as [c|]; [|left; reflexivity].
  destruct (negb (configVersion v =? c)).
  { destruct (c >? configVersion v); left; reflexivity. }
  destruct (stateReply s) as [st|]; [|left; reflexivity].
  destruct (st =? ARBITER); [exact IH|].
  destruct (getSecondaryTimestampFn j k s) as [[ts|]|];
    destruct (masterLatestOpTime v) as [latest|]; try (left; reflexivity).
  destruct (secondaryIsNewer latest ts).
  - destruct (_getLastOpTimeTimestamp reply) as [x|]; [|left; reflexivity].
    right. exists x. auto.
  - destruct (negb (timestamp_eqb latest ts)); [left; reflexivity | exact IH].
Qed.

Lemma pass_true_iff (v v' : Vars) (o : PassObs) :
  pass j k v o = (v', Normal true) <-> v' = v /\ Forall (synced j k v) (slaves o).
Proof.
  rewrite <- checkSecondaries_true_iff with (reply := masterReply o).
  unfold pass.
  destruct (checkSecondaries j k (masterReply o) v (slaves o)) as [v1 [[|]|]].
  - reflexivity.
  - split; discriminate.
  - destruct (awaitLastOpTimeWrittenFn (masterLatestOpTime v1) (refresh o)) as [x [u|]];
      split; discriminate.
Qed.

(** No pass assigns [master] or [configVersion]. *)
Lemma pass_keeps_master_and_configVersion (v : Vars) (o : PassObs) :
  master (pass j k v o).1 = master v
  /\ configVersion (pass j k v o).1 = configVersion v.
Proof.
  unfold pass.
  destruct (checkSecondaries_vars (masterReply o) v (slaves o)) as [H | (x & _ & H)].
  - destruct (checkSecondaries j k (masterReply o) v (slaves o)) as [v1 [[|]|]];
      simpl in H; subst v1; try (split; reflexivity).
    destruct (awaitLastOpTimeWrittenFn (masterLatestOpTime v) (refresh o)) as [x [u|]];
      split; reflexivity.
  - rewrite H. split; reflexivity.
Qed.

Lemma oplogQueries_steady (target : Timestamp) (queries : list (completion (option OpTimeValue))) :
  Forall (steadyReply target) queries ->
  (Poller.soonNoExcept oplogQueryPass (Some target) queries).1 = Some target.
Proof.
  induction 1 as [|r rest Hr _ IH]; simpl; [reflexivity|].
  unfold oplogQueryPass, steadyReply in *.
  destruct (_getLastOpTimeTimestamp r) as [ts|]; [subst ts; reflexivity | exact IH].
Qed.

Lemma awaitLastOpTimeWrittenFn_steady (target : Timestamp) (o : RefreshObs) :
  Forall (steadyReply target) (oplogQueries o) ->
  (awaitLastOpTimeWrittenFn (Some target) o).1 = Some target.
Proof.
  intros H. unfold awaitLastOpTimeWrittenFn.
  destruct (primaryFound o); [apply oplogQueries_steady, H | reflexivity].
Qed.

(** While the leader stays at the target, a pass leaves the variables as
    they are. *)
Lemma pass_steady (v : Vars) (target : Timestamp) (o : PassObs) :
  masterLatestOpTime v = Some target -> leaderSteadyAt target o ->
  (pass j k v o).1 = v.
Proof.
  intros Hl [Hm Hq]. unfold pass.
  destruct (checkSecondaries_vars (masterReply o) v (slaves o)) as [H | (x & Hx & H)].
  - destruct (checkSecondaries j k (masterReply o) v (slaves o)) as [v1 [[|]|]];
      simpl in H; subst v1; try reflexivity.
    rewrite Hl.
    pose proof (awaitLastOpTimeWrittenFn_steady target (refresh o) Hq) as Hs.
    destruct (awaitLastOpTimeWrittenFn (Some target) (refresh o)) as [x [u|]];
      simpl in *; subst x; apply setLatest_same, Hl.
  - rewrite H. simpl. unfold steadyReply in Hm. rewrite Hx in Hm. subst x.
    apply setLatest_same, Hl.
Qed.

Lemma synced_not_lagging (v : Vars) (target : Timestamp) (s : SlaveObs) :
  masterLatestOpTime v = Some target -> synced j k v s -> ~ lagging j k target s.
Proof.
  intros Hl (_ & [Ha | (st & ts & _ & _ & Hts & Hs)]) [Hn Hg]; [contradiction|].
  apply Hg. congruence.
Qed.

(** A pass with a lagging secondary does not return [true]. *)
Lemma pass_lagging (v : Vars) (target : Timestamp) (o : PassObs) :
  masterLatestOpTime v = Some target ->
  Exists (lagging j k target) (slaves o) ->
  (pass j k v o).2 <> Normal true.
Proof.
  intros Hl Hex Hp.
  assert (H : pass j k v o = ((pass j k v o).1, Normal true))
    by (rewrite <- Hp; destruct (pass j k v o); reflexivity).
  apply pass_true_iff in H as [_ Hall].
  apply Exists_exists in Hex as (s & Hin & Hlag).
  rewrite Forall_forall in Hall.
  exact (synced_not_lagging v target s Hl (Hall s Hin) Hlag).
Qed.

(** The scenario of the specification, for any target: while the leader
    stays at the target and some secondary lags, the wait does not succeed;
    it succeeds at the first pass that finds every secondary synced. *)
Lemma wait_until_synced (v : Vars) (target : Timestamp) (before : list PassObs)
    (final : PassObs) (after : list PassObs) :
  masterLatestOpTime v = Some target ->
  Forall (fun o => leaderSteadyAt target o /\ Exists (lagging j k target) (slaves o)) before ->
  Forall (synced j k v) (slaves final) ->
  Poller.soonNoExcept (pass j k) v before = (v, Throw)
  /\ Poller.soonNoExcept (pass j k) v (before ++ final :: after) = (v, Normal ()).
Proof.
  intros Hl Hbefore Hfinal.
  assert (Hidle : Forall (fun o => exists r, pass j k v o = (v, r) /\ r <> Normal true) before).
  { eapply Forall_impl; [exact Hbefore|]. intros o [Hs Hlag]. simpl.
    pose proof (pass_steady v target o Hl Hs) as E.
    pose proof (pass_lagging v target o Hl Hlag) as N.
    destruct (pass j k v o) as [v1 r]; simpl in *. subst v1.
    exists r. split; [reflexivity | exact N]. }
  destruct (PollerTheory.soonNoExcept_idle (pass j k) v before Hidle) as [H1 H2].
  split; [exact H1|]. rewrite H2. simpl.
  assert (Hp : pass j k v final = (v, Normal true)) by (apply pass_true_iff; auto).
  rewrite Hp. reflexivity.
Qed.

End Pass.

(** A call that returns has seen, in one of its passes, every secondary
    synced against the variables it ends with. *)
Lemma awaitReplication_returns (j : bool) (kind : option Z) (o : Obs) (v' : Vars) :
  awaitReplication j kind o = Normal v' ->
  exists p, p ∈ passes o /\ Forall (synced j (opTimeTypeOrDefault kind) v') (slaves p).
Proof.
  unfold awaitReplication. destruct (start o) as [v|]; [simpl | discriminate].
  destruct (Poller.soonNoExcept (pass j (opTimeTypeOrDefault kind)) v (passes o))
    as [v1 [u|]] eqn:Hw; [|discriminate].
  intros [= <-]. destruct u.
  apply PollerTheory.soonNoExcept_success in Hw
    as (before & p & after & s0 & Hsplit & _ & Hp).
  apply pass_true_iff in Hp as [-> Hall].
  exists p. split; [|exact Hall].
  rewrite Hsplit. apply elem_of_app. right. apply elem_of_cons. left. reflexivity.
Qed.

(** The timestamp the pass compares is the operation time of the kind
    the caller requested. *)
Lemma getSecondaryTimestampFn_requested (j : bool) (kind : option Z) (s : SlaveObs) :
  getSecondaryTimestampFn j (opTimeTypeOrDefault kind) s = reportedTimestamp j kind s.
Proof.
  unfold getSecondaryTimestampFn, reportedTimestamp, requestsDurable, opTimeTypeOrDefault,
    LAST_DURABLE, LAST_APPLIED.
  assert (Happlied : _getLastOpTimeTimestamp (optimeReply s)
                     = match optimeReply s with
                       | Normal (Some (OpTimeDoc ts _)) => Normal (Some ts)
                       | Normal (Some (BareTimestamp ts)) => Normal (Some ts)
                       | Normal None => Normal None
                       | Throw => Throw
                       end).
  { unfold _getLastOpTimeTimestamp, cbind.
    destruct (optimeReply s) as [[[ts t|ts]|]|]; reflexivity. }
  assert (Hdurable : _getDurableOpTimeTimestamp j (optimesReply s)
                     = match optimesReply s with
                       | Normal optimes =>
                           match (if j then appliedOpTime optimes
                                  else durableOpTime optimes) with
                           | Some (OpTimeDoc ts _) => Normal (Some ts)
                           | Some (BareTimestamp _) => Normal None
                           | None => Throw
                           end
                       | Throw => Throw
                       end).
  { unfold _getDurableOpTimeTimestamp, cbind.
    destruct (optimesReply s) as [optimes|]; [|reflexivity].
    destruct (if j then appliedOpTime optimes else durableOpTime optimes)
      as [[ts t|ts]|]; reflexivity. }
  destruct kind as [k|]; [|exact Happlied].
  destruct (Z.eqb_spec k 0) as [->|Hk]; [exact Happlied|].
  destruct (k =? 2); [exact Hdurable | exact Happlied].
Qed.

Lemma synced_as_requested (j : bool) (kind : option Z) (v : Vars) (s : SlaveObs) :
  synced j (opTimeTypeOrDefault kind) v s
  <-> syncedAsRequested j kind (configVersion v) (masterLatestOpTime v) s.
Proof.
  unfold synced, syncedAsRequested. rewrite getSecondaryTimestampFn_requested. reflexivity.
Qed.

Lemma lagging_as_requested (j : bool) (kind : option Z) (target : Timestamp) (s : SlaveObs) :
  lagging j (opTimeTypeOrDefault kind) target s <-> laggingAsRequested j kind target s.
Proof.
  unfold lagging, laggingAsRequested. rewrite getSecondaryTimestampFn_requested. reflexivity.
Qed.

(** C2, amended: a pass of [awaitReplication] returns [true] exactly when
    every member of [liveNodes.slaves] reports the expected configuration
    version, arbiters included, and is an arbiter, whose operation time is
    not read, or reports as its operation time of the requested kind
    exactly the target; a call that returns has seen all of them so in one
    single pass; and while the leader stays at the target and a member of
    [liveNodes.slaves] that is no arbiter reports another timestamp, the
    wait does not succeed, until the first pass that finds every one of
    them synced. *)
Theorem awaitReplication_synced_as_requested (j : bool) (kind : option Z) :
  (forall (v v' : Vars) (o : PassObs),
      pass j (opTimeTypeOrDefault kind) v o = (v', Normal true)
      <-> v' = v
          /\ Forall (syncedAsRequested j kind (configVersion v) (masterLatestOpTime v))
               (slaves o))
  /\ (forall (o : Obs) (v' : Vars),
        awaitReplication j kind o = Normal v' ->
        exists p, p ∈ passes o
                  /\ Forall (syncedAsRequested j kind (configVersion v')
                               (masterLatestOpTime v')) (slaves p))
  /\ (forall (v : Vars) (target : Timestamp) (before : list PassObs)
             (final : PassObs) (after : list PassObs),
        masterLatestOpTime v = Some target ->
        Forall (fun o => leaderSteadyAt target o
                         /\ Exists (laggingAsRequested j kind target) (slaves o))
               before ->
        Forall (syncedAsRequested j kind (configVersion v) (Some target)) (slaves final) ->
        Poller.soonNoExcept (pass j (opTimeTypeOrDefault kind)) v before = (v, Throw)
        /\ Poller.soonNoExcept (pass j (opTimeTypeOrDefault kind)) v
             (before ++ final :: after) = (v, Normal ())).
Proof.
  assert (Hall : forall v l,
             Forall (synced j (opTimeTypeOrDefault kind) v) l
             <-> Forall (syncedAsRequested j kind (configVersion v) (masterLatestOpTime v)) l).
  { intros v l. rewrite !Forall_forall. split; intros H s Hs.
    - apply synced_as_requested, H, Hs.
    - apply synced_as_requested, H, Hs. }
  split; [|split].
  - intros v v' o. rewrite pass_true_iff, Hall. reflexivity.
  - intros o v' Hret. destruct (awaitReplication_returns j kind o v' Hret) as (p & Hp & Hs).
    exists p. split; [exact Hp | apply Hall, Hs].
  - intros v target before final after Hlatest Hbefore Hfinal.
    apply wait_until_synced with (target := target); [exact Hlatest | |].
    + eapply Forall_impl; [exact Hbefore|]. intros o [Hsteady Hlag].
      split; [exact Hsteady|]. eapply Exists_impl; [exact Hlag|].
      intros s. apply lagging_as_requested.
    + apply Hall. rewrite Hlatest. exact Hfinal.
Qed.

Lemma laggingPass_lags :
  leaderSteadyAt (mkTimestamp 100 2) laggingPass
  /\ Exists (lagging false (opTimeTypeOrDefault None) (mkTimestamp 100 2)) (slaves laggingPass).
Proof.
  split.
  - split; [reflexivity|]. constructor; [reflexivity | constructor].
  - apply Exists_cons_tl, Exists_cons_hd. split; discriminate.
Qed.

Lemma syncedPass_synced :
  Forall (synced false (opTimeTypeOrDefault None) exampleVars) (slaves syncedPass).
Proof.
  assert (H : synced false (opTimeTypeOrDefault None) exampleVars
                (secondaryAt 1 (mkTimestamp 100 2))).
  { split; [reflexivity|]. right. exists 2, (mkTimestamp 100 2).
    repeat split. discriminate. }
  constructor; [exact H|]. constructor; [exact H|]. constructor.
Qed.

Lemma awaitReplication_synced_as_requested_witness :
  (masterLatestOpTime exampleVars = Some (mkTimestamp 100 2)
   /\ Poller.soonNoExcept (pass false (opTimeTypeOrDefault None)) exampleVars
        [laggingPass; laggingPass] = (exampleVars, Throw)
   /\ Poller.soonNoExcept (pass false (opTimeTypeOrDefault None)) exampleVars
        ([laggingPass; laggingPass] ++ syncedPass :: []) = (exampleVars, Normal ()))
  /\ pass false (opTimeTypeOrDefault (Some 2)) exampleVars
       (leaderAt 0%nat (OpTimeDoc (mkTimestamp 100 2) 5)
          [secondaryDurableAt 1 (mkTimestamp 100 3) (mkTimestamp 100 2)])
     = (exampleVars, Normal true).
Proof.
  split.
  - split; [reflexivity|].
    apply (proj2 (proj2 (awaitReplication_synced_as_requested false None))
             exampleVars (mkTimestamp 100 2) [laggingPass; laggingPass] syncedPass []).
    + reflexivity.
    + assert (Hlag : leaderSteadyAt (mkTimestamp 100 2) laggingPass
                     /\ Exists (laggingAsRequested false None (mkTimestamp 100 2))
                          (slaves laggingPass)).
      { destruct laggingPass_lags as [Hsteady Hlag]. split; [exact Hsteady|].
        eapply Exists_impl; [exact Hlag|]. intros s.
        apply (lagging_as_requested false None). }
      constructor; [exact Hlag|]. constructor; [exact Hlag | constructor].
    + eapply Forall_impl; [exact syncedPass_synced|]. intros s.
      apply (synced_as_requested false None exampleVars).
  - apply (proj1 (awaitReplication_synced_as_requested false (Some 2))
             exampleVars exampleVars
             (leaderAt 0%nat (OpTimeDoc (mkTimestamp 100 2) 5)
                [secondaryDurableAt 1 (mkTimestamp 100 3) (mkTimestamp 100 2)])).
    split; [reflexivity|]. constructor; [|constructor].
    split; [reflexivity|]. right. exists 2, (mkTimestamp 100 2).
    split; [reflexivity|]. split; [discriminate|]. split; reflexivity.
Defined.

(** C2 as stated fails in two ways. An arbiter is not skipped entirely:
    its configuration version is checked before its state is read, so an
    arbiter at another version holds back a pass that succeeds without it.
    And the pass goes through [liveNodes.slaves] only: member 2, a
    secondary that did not answer the scan and is still at [(100, 1)], is
    not waited for. *)
Lemma awaitReplication_arbiter_version_and_absent_secondary :
  (pass false (opTimeTypeOrDefault None) exampleVars
     (leaderAt 0%nat (OpTimeDoc (mkTimestamp 100 2) 5)
        [secondaryAt 1 (mkTimestamp 100 2); arbiterAt 0])
   = (exampleVars, Normal false)
   /\ pass false (opTimeTypeOrDefault None) exampleVars
        (leaderAt 0%nat (OpTimeDoc (mkTimestamp 100 2) 5)
           [secondaryAt 1 (mkTimestamp 100 2)])
      = (exampleVars, Normal true)
   /\ stateReply (arbiterAt 0) = Normal ARBITER)
  /\ (viewSlaves [(0%nat, Normal true); (1%nat, Normal false); (2%nat, Throw)]
        exampleReplyOf
      = [secondaryAt 1 (mkTimestamp 100 2)]
      /\ stateReply (exampleReplyOf 2%nat) = Normal 2
      /\ reportedTimestamp false None (exampleReplyOf 2%nat)
         = Normal (Some (mkTimestamp 100 1))
      /\ pass false (opTimeTypeOrDefault None) exampleVars
           (leaderAt 0%nat (OpTimeDoc (mkTimestamp 100 2) 5)
              (viewSlaves [(0%nat, Normal true); (1%nat, Normal false); (2%nat, Throw)]
                 exampleReplyOf))
         = (exampleVars, Normal true)).
Proof. repeat split; reflexivity. Qed.

(** The same scenario through the whole call. *)
Example awaitReplication_example :
  awaitReplication false None
    {| firstRefresh := refresh laggingPass;
       firstStart := {| startPrimary := Normal 0%nat; startVersion := Normal 1;
                        startOpTime := Normal (Some (OpTimeDoc (mkTimestamp 100 2) 5)) |};
       secondStart := {| startPrimary := Throw; startVersion := Throw; startOpTime := Throw |};
       passes := [laggingPass; laggingPass; syncedPass] |}
  = Normal exampleVars.
Proof. reflexivity. Qed.

(** A secondary ahead of the target makes the pass read the leader's
    operation time again, take it as the new target and return [false]. *)
Lemma pass_newer_secondary (j : bool) (k : Z) (v : Vars) (o : PassObs)
    (s : SlaveObs) (rest : list SlaveObs) (myState : Z) (latest ts : Timestamp)
    (ot : option OpTimeValue) :
  slaves o = s :: rest ->
  versionReply s = Normal (configVersion v) ->
  stateReply s = Normal myState -> myState <> ARBITER ->
  getSecondaryTimestampFn j k s = Normal (Some ts) ->
  masterLatestOpTime v = Some latest ->
  secondaryIsNewer latest ts = true ->
  masterReply o = Normal ot ->
  pass j k v o = (setLatest v (timestampOf <$> ot), Normal false).
Proof.
  intros Hs Hv Hst Hna Hts Hl Hnew Hm. unfold pass. rewrite Hs, Hm. simpl.
  rewrite Hv, Z.eqb_refl. simpl. rewrite Hst.
  destruct (Z.eqb_spec myState ARBITER); [contradiction|].
  rewrite Hts, Hl, Hnew. reflexivity.
Qed.

(** A secondary with a greater configuration version makes the pass raise
    inside its [try]; the handler reads the operation time of whoever
    leads now and the pass does not return [true], with [master] and
    [configVersion] as they were. *)
Lemma pass_greater_config_version (j : bool) (k : Z) (v : Vars) (o : PassObs)
    (s : SlaveObs) (rest : list SlaveObs) (c : Z) :
  slaves o = s :: rest -> versionReply s = Normal c -> configVersion v < c ->
  (pass j k v o).2 <> Normal true
  /\ master (pass j k v o).1 = master v
  /\ configVersion (pass j k v o).1 = configVersion v
  /\ (pass j k v o).1
     = setLatest v (awaitLastOpTimeWrittenFn (masterLatestOpTime v) (refresh o)).1.
Proof.
  intros Hs Hv Hc.
  assert (E : checkSecondaries j k (masterReply o) v (slaves o) = (v, Throw)).
  { rewrite Hs. simpl. rewrite Hv.
    destruct (Z.eqb_spec (configVersion v) c); [lia|]. simpl.
    destruct (Z.gtb_spec c (configVersion v)); [reflexivity | lia]. }
  unfold pass. rewrite E.
  destruct (awaitLastOpTimeWrittenFn (masterLatestOpTime v) (refresh o)) as [x [u|]];
    simpl; repeat split; discriminate.
Qed.

(** As long as the first secondary keeps the greater version, no pass
    returns [true]: the wait ends by its timeout. *)
Lemma stale_config_version_times_out (j : bool) (k : Z) (l : list PassObs) (v : Vars) :
  Forall (fun o => exists s rest c,
            slaves o = s :: rest /\ versionReply s = Normal c /\ configVersion v < c) l ->
  (Poller.soonNoExcept (pass j k) v l).2 = Throw.
Proof.
  revert v. induction l as [|o l IH]; intros v H; [reflexivity|].
  apply Forall_cons in H as [(s & rest & c & Hs & Hv & Hc) Hl]. simpl.
  destruct (pass_greater_config_version j k v o s rest c Hs Hv Hc) as (Hn & _ & Hcv & _).
  destruct (pass j k v o) as [v1 r]; simpl in *.
  assert (Hl' : Forall (fun o => exists s rest c,
             slaves o = s :: rest /\ versionReply s = Normal c /\ configVersion v1 < c) l)
    by (rewrite Hcv; exact Hl).
  destruct r as [[|]|]; [contradiction | apply IH, Hl' | apply IH, Hl'].
Qed.

(** C3, where the code departs from the claim. After a reconfiguration to
    version 2 under a new leader (member 1), a pass that meets the
    secondary's greater version returns [false] and only refreshes the
    target: [master] is still member 0 and the expected configuration
    version still 1, so every later pass takes the same branch and the wait
    fails by timeout although the secondary is in sync with the new
    leader. *)
Theorem awaitReplication_greater_config_version_not_resolved :
  pass false LAST_APPLIED exampleVars reconfiguredPass
  = ({| master := 0%nat; configVersion := 1;
        masterOpTime := Some (mkTimestamp 100 2);
        masterLatestOpTime := Some (mkTimestamp 200 1) |}, Normal false)
  /\ Poller.soonNoExcept (pass false LAST_APPLIED) exampleVars
       [reconfiguredPass; reconfiguredPass; reconfiguredPass]
     = ({| master := 0%nat; configVersion := 1;
           masterOpTime := Some (mkTimestamp 100 2);
           masterLatestOpTime := Some (mkTimestamp 200 1) |}, Throw).
Proof. split; reflexivity. Qed.

End AwaitReplicationTheory.

(** ** awaitLastOpCommitted *)

Module AwaitLastOpCommittedTheory.
Import OpTime AwaitLastOpCommitted.

Lemma checkNodes_true_iff (masterOpTime : option OpTimeValue) (l : list NodeObs) :
  checkNodes masterOpTime l = Normal true <-> Forall (committed masterOpTime) l.
Proof.
  induction l as [|node rest IH]; simpl.
  - split; [constructor | reflexivity].
  - rewrite Forall_cons. unfold cbind.
    destruct (stateReply node) as [st|] eqn:Hst.
    2:{ split; [discriminate|].
        intros [[?|(? & ? & ? & ? & _)] _]; congruence. }
    destruct (Z.eqb_spec st AwaitReplication.ARBITER) as [->|Hna].
    { rewrite IH. split; [intros ?; split; [left; exact Hst | assumption] | intros [_ ?]; assumption]. }
    destruct (_getReadConcernMajorityOpTime (rcmReply node)) as [rcm|] eqn:Hrcm.
    2:{ split; [discriminate|].
        intros [[?|(? & ? & ? & _ & _ & ? & _)] _]; congruence. }
    destruct (optime_eqb rcm noOpTime) eqn:Hzero.
    { split; [discriminate|].
      intros [[?|(? & ? & ? & _ & _ & ? & ? & _)] _]; congruence. }
    unfold earlierThanTarget, cbind.
    destruct masterOpTime as [target|]; simpl.
    2:{ split; [discriminate|].
        intros [[?|(? & ? & ? & _ & _ & _ & _ & ? & _)] _]; congruence. }
    destruct (_isEarlierOpTime rcm target) as [[|]|] eqn:He.
    + split; [discriminate|].
      intros [[?|(? & ? & ? & _ & _ & ? & _ & ? & ?)] _]; congruence.
    + rewrite IH. split; [|intros [_ ?]; assumption].
      intros H. split; [|exact H]. right. exists st, rcm, target. auto 10.
    + split; [discriminate|].
      intros [[?|(? & ? & ? & _ & _ & ? & _ & ? & ?)] _]; congruence.
Qed.

(** The wait over passes whose target never changes. *)
Lemma soonNoExcept_pass (masterOpTime : option OpTimeValue) (l : list PassObs) :
  Poller.soonNoExcept pass masterOpTime l
  = (masterOpTime,
     if bool_decide (Exists (fun p => checkNodes masterOpTime (nodes p) = Normal true) l)
     then Normal () else Throw).
Proof.
  induction l as [|p l IH].
  - cbn [Poller.soonNoExcept].
    rewrite bool_decide_eq_false_2; [reflexivity|]. intros H. inversion H.
  - cbn [Poller.soonNoExcept]. unfold pass at 1.
    destruct (checkNodes masterOpTime (nodes p)) as [[|]|] eqn:Hp.
    + rewrite bool_decide_eq_true_2; [reflexivity|]. left. exact Hp.
    + rewrite IH. f_equal.
      rewrite (bool_decide_ext _ _ (Exists_cons _ p l)).
      apply (f_equal (fun b : bool => if b then Normal () else Throw)).
      apply bool_decide_ext. split; [auto | intros [?|?]; [congruence | assumption]].
    + rewrite IH. f_equal.
      rewrite (bool_decide_ext _ _ (Exists_cons _ p l)).
      apply (f_equal (fun b : bool => if b then Normal () else Throw)).
      apply bool_decide_ext. split; [auto | intros [?|?]; [congruence | assumption]].
Qed.

(** When the call returns, and what. *)
Lemma awaitLastOpCommitted_returns_iff (o : Obs) (r : option OpTimeValue) :
  awaitLastOpCommitted o = Normal r
  <-> (exists master, primaryFound o = Normal master)
      /\ primaryOpTime o = Normal r
      /\ Exists (fun p => Forall (committed r) (nodes p)) (passes o).
Proof.
  unfold awaitLastOpCommitted, _getLastOpTime, cbind.
  destruct (primaryFound o) as [m|].
  2:{ split; [discriminate | intros [[? [=]] _]]. }
  destruct (primaryOpTime o) as [t|].
  2:{ split; [discriminate | intros (_ & [=] & _)]. }
  rewrite soonNoExcept_pass. case_bool_decide as He.
  - split.
    + intros [= <-]. split; [eauto|]. split; [reflexivity|].
      eapply Exists_impl; [exact He|]. intros p. apply checkNodes_true_iff.
    + intros (_ & [= <-] & _). reflexivity.
  - split; [discriminate|]. intros (_ & [= <-] & H). exfalso. apply He.
    eapply Exists_impl; [exact H|]. intros p. apply checkNodes_true_iff.
Qed.

(** C4 as stated fails: the leadership moves to member 1 during the wait,
    and the call still returns the operation time it read from member 0
    when it started, not the one a lookup of the leader gives by then. *)
Lemma awaitLastOpCommitted_target_not_reread :
  awaitLastOpCommitted failover = Normal (Some (OpTimeDoc (mkTimestamp 100 2) 5))
  /\ leaderLookup <$> last (passes failover)
     = Some (Normal (1%nat, Some (OpTimeDoc (mkTimestamp 200 1) 6)))
  /\ awaitLastOpCommitted failover <> Normal (Some (OpTimeDoc (mkTimestamp 200 1) 6)).
Proof. split; [reflexivity|]. split; [reflexivity | discriminate]. Qed.

Lemma optime_eqb_eq (a b : OpTimeValue) : optime_eqb a b = true <-> a = b.
Proof.
  destruct a as [ta ea|ta], b as [tb eb|tb]; simpl;
    rewrite ?andb_true_iff, ?OpTimeTheory.timestamp_eqb_eq, ?Z.eqb_eq;
    split; try discriminate; try (intros [-> ->]; reflexivity);
    try (intros ->; reflexivity); try (intros [= -> ->]; auto);
    try (intros [= ->]; reflexivity).
Qed.

(** On operation times that carry a term the condition the code tests is
    the condition of the claim. *)
Lemma committed_at (target : OpTimeValue) (node : NodeObs) :
  carriesTerm target -> reportsTerms node ->
  committed (Some target) node <-> committedAt target node.
Proof.
  intros (tt & et & ->) Hdocs. unfold committed, committedAt. split.
  - intros [Harb|(myState & rcm & target' & Hst & Hna & Hrcm & Hzero & [= <-] & Hearlier)];
      [left; exact Harb|].
    right. exists myState, rcm. split; [exact Hst|]. split; [exact Hna|].
    unfold _getReadConcernMajorityOpTime, cbind in Hrcm.
    destruct (rcmReply node) as [[field|]|] eqn:Hreply; simpl in Hrcm; try discriminate.
    + injection Hrcm as ->. split; [reflexivity|].
      destruct (Hdocs rcm Hreply) as (tr & er & ->). split.
      * intros Heq. rewrite (proj2 (optime_eqb_eq _ _) Heq) in Hzero. discriminate.
      * rewrite OpTimeTheory.isEarlierOpTime_docs in Hearlier. congruence.
    + injection Hrcm as <-. discriminate.
  - intros [Harb|(myState & rcm & Hst & Hna & Hreply & Hset & Hearlier)];
      [left; exact Harb|].
    right. exists myState, rcm, (OpTimeDoc tt et).
    split; [exact Hst|]. split; [exact Hna|].
    split; [unfold _getReadConcernMajorityOpTime; rewrite Hreply; reflexivity|].
    split.
    + destruct (optime_eqb rcm noOpTime) eqn:Heq; [|reflexivity].
      apply optime_eqb_eq in Heq. contradiction.
    + split; [reflexivity|]. destruct (Hdocs rcm Hreply) as (tr & er & ->).
      rewrite OpTimeTheory.isEarlierOpTime_docs, Hearlier. reflexivity.
Qed.

(** C4, amended: for a target and operation times of the members that
    carry a term, the call returns exactly when a leader was found and some
    pass found every member an arbiter or with a majority-committed
    operation time that is set and, in the ordering of the specification,
    not earlier than the target, the latest operation time of the leader
    read before polling; it then returns that target. The outcome depends
    only on what the members reply about themselves, not on who leads
    while the wait lasts. *)
Theorem awaitLastOpCommitted_fixed_target (o : Obs) (target : OpTimeValue) :
  carriesTerm target ->
  primaryOpTime o = Normal (Some target) ->
  Forall (fun p => Forall reportsTerms (nodes p)) (passes o) ->
  (forall r, awaitLastOpCommitted o = Normal r
             <-> (exists master, primaryFound o = Normal master)
                 /\ r = Some target
                 /\ Exists (fun p => Forall (committedAt target) (nodes p)) (passes o))
  /\ (forall passes',
        nodes <$> passes' = nodes <$> passes o ->
        awaitLastOpCommitted
          {| primaryFound := primaryFound o; primaryOpTime := primaryOpTime o;
             passes := passes' |}
        = awaitLastOpCommitted o).
Proof.
  intros Hterm Htarget Hdocs. split.
  - intros r. rewrite awaitLastOpCommitted_returns_iff, Htarget.
    assert (Hsame : Exists (fun p => Forall (committed (Some target)) (nodes p)) (passes o)
                    <-> Exists (fun p => Forall (committedAt target) (nodes p)) (passes o)).
    { rewrite !Exists_exists. rewrite Forall_forall in Hdocs.
      split; intros (p & Hp & Hall); exists p; (split; [exact Hp|]);
        specialize (Hdocs p Hp); rewrite Forall_forall in Hdocs;
        rewrite Forall_forall in Hall; apply Forall_forall; intros node Hnode;
        apply (committed_at target node Hterm (Hdocs node Hnode)), Hall, Hnode. }
    split.
    + intros (Hm & [= <-] & Hex). split; [exact Hm|]. split; [reflexivity|].
      apply Hsame, Hex.
    + intros (Hm & -> & Hex). split; [exact Hm|]. split; [reflexivity|].
      apply Hsame, Hex.
  - intros passes' Hn.
    unfold awaitLastOpCommitted, cbind; simpl.
    destruct (primaryFound o); [|reflexivity].
    destruct (_getLastOpTime (primaryOpTime o)) as [t|]; [|reflexivity].
    rewrite !soonNoExcept_pass.
    replace (bool_decide (Exists (fun p => checkNodes t (nodes p) = Normal true) passes'))
      with (bool_decide (Exists (fun p => checkNodes t (nodes p) = Normal true) (passes o)));
      [reflexivity|].
    apply bool_decide_ext.
    assert (E : forall ps,
               Exists (fun p => checkNodes t (nodes p) = Normal true) ps
               <-> Exists (fun l => checkNodes t l = Normal true) (nodes <$> ps))
      by (intros ps; rewrite Exists_fmap; reflexivity).
    rewrite !E, Hn. reflexivity.
Qed.

Lemma failover_carries_terms :
  carriesTerm (OpTimeDoc (mkTimestamp 100 2) 5)
  /\ Forall (fun p => Forall reportsTerms (nodes p)) (passes failover).
Proof.
  split; [eexists _, _; reflexivity|].
  repeat constructor; intros ot [= <-]; eexists _, _; reflexivity.
Qed.

Lemma awaitLastOpCommitted_fixed_target_witness :
  awaitLastOpCommitted failover = Normal (Some (OpTimeDoc (mkTimestamp 100 2) 5))
  /\ Exists (fun p => Forall (committedAt (OpTimeDoc (mkTimestamp 100 2) 5)) (nodes p))
       (passes failover)
  /\ awaitLastOpCommitted
       {| primaryFound := primaryFound failover; primaryOpTime := primaryOpTime failover;
          passes := (fun p => {| nodes := nodes p; leaderLookup := Throw |})
                      <$> passes failover |}
     = awaitLastOpCommitted failover.
Proof.
  split; [reflexivity|]. split.
  - exact (proj2 (proj2 (proj1 (proj1 (awaitLastOpCommitted_fixed_target failover
                                         (OpTimeDoc (mkTimestamp 100 2) 5)
                                         (proj1 failover_carries_terms) eq_refl
                                         (proj2 failover_carries_terms)) _)
                                  eq_refl))).
  - apply (proj2 (awaitLastOpCommitted_fixed_target failover
                    (OpTimeDoc (mkTimestamp 100 2) 5)
                    (proj1 failover_carries_terms) eq_refl
                    (proj2 failover_carries_terms))). reflexivity.
Defined.

End AwaitLastOpCommittedTheory.

(** ** dumpCollectionDiff *)

Module CollDiffTheory.
Import CollDiff.

Lemma snoc_case {A : Type} (l : list A) : l = [] \/ exists l0 x, l = l0 ++ [x].
Proof.
  induction l as [|a l IH] using rev_ind; [left; reflexivity | right; eauto].
Qed.

Lemma at_index_last (l : list Doc) (d : Doc) (r : list Doc) :
  at_index ((l ++ [d]) ++ r) (Z.of_nat (length (l ++ [d])) - 1) = Some d.
Proof.
  unfold at_index. rewrite length_app; simpl.
  replace (Z.of_nat (length l + 1) - 1) with (Z.of_nat (length l)) by lia.
  destruct (Z.ltb_spec (Z.of_nat (length l)) 0); [lia|].
  rewrite Nat2Z.id, <- app_assoc. apply list_lookup_middle. reflexivity.
Qed.

Lemma index_before_last (l : list Doc) (d : Doc) :
  Z.of_nat (length (l ++ [d])) - 1 - 1 = Z.of_nat (length l) - 1.
Proof. rewrite length_app; simpl. lia. Qed.

Section Dump.
Variable tojsononeline : option Doc -> string.
Variables primaryDocs secondaryDocs : list Doc.

Local Abbreviation merge := (mergeFromTail tojsononeline).

Lemma merge_nil_cons (s : Doc) (ss : list Doc) (r : Report) :
  merge [] (s :: ss) r = merge [] ss (pushMissingOnPrimary (tojsononeline (Some s)) r).
Proof. reflexivity. Qed.

Lemma merge_cons_nil (p : Doc) (ps : list Doc) (r : Report) :
  merge (p :: ps) [] r = merge ps [] (pushMissingOnSecondary (tojsononeline (Some p)) r).
Proof. reflexivity. Qed.

Lemma merge_cons_cons (p s : Doc) (ps ss : list Doc) (r : Report) :
  merge (p :: ps) (s :: ss) r
  = if bool_decide (p = s) then merge ps ss r
    else
      let printed := printMismatching (tojsononeline (Some p), tojsononeline (Some s)) r in
      match _id p ?= _id s with
      | Eq => merge ps ss printed
      | Lt => merge (p :: ps) ss (pushMissingOnPrimary (tojsononeline (Some s)) printed)
      | Gt => merge ps (s :: ss) (pushMissingOnSecondary (tojsononeline (Some p)) printed)
      end.
Proof. reflexivity. Qed.

Lemma loop_merge (n : nat) :
  forall (p px s sx : list Doc) (r : Report),
    primaryDocs = p ++ px -> secondaryDocs = s ++ sx ->
    (length p + length s <= n)%nat ->
    loop tojsononeline primaryDocs secondaryDocs n
      {| primaryIndex := Z.of_nat (length p) - 1;
         secondaryIndex := Z.of_nat (length s) - 1; report := r |}
    = Some (Normal {| primaryIndex := -1; secondaryIndex := -1;
                      report := merge (reverse p) (reverse s) r |}).
Proof.
  induction n as [|n IH]; intros p px s sx r HP HS Hn.
  - destruct p, s; simpl in Hn; try lia. reflexivity.
  - destruct (snoc_case p) as [-> | (p0 & dp & ->)];
      destruct (snoc_case s) as [-> | (s0 & ds & ->)].
    + reflexivity.
    + rewrite reverse_snoc, merge_nil_cons.
      cbn [loop]. unfold running, iteration. cbn [primaryIndex secondaryIndex report].
      assert (ES : at_index secondaryDocs (Z.of_nat (length (s0 ++ [ds])) - 1) = Some ds)
        by (rewrite HS; apply at_index_last).
      rewrite ?ES, index_before_last.
      replace (0 <=? Z.of_nat (length (s0 ++ [ds])) - 1) with true
        by (symmetry; apply Z.leb_le; rewrite length_app; simpl; lia).
      simpl length at 1. simpl.
      apply (IH [] px s0 ([ds] ++ sx)); [exact HP | rewrite HS, <- app_assoc; reflexivity |].
      rewrite length_app in Hn; simpl in *; lia.
    + rewrite reverse_snoc, merge_cons_nil.
      cbn [loop]. unfold running, iteration. cbn [primaryIndex secondaryIndex report].
      assert (EP : at_index primaryDocs (Z.of_nat (length (p0 ++ [dp])) - 1) = Some dp)
        by (rewrite HP; apply at_index_last).
      rewrite ?EP, index_before_last.
      replace (0 <=? Z.of_nat (length (p0 ++ [dp])) - 1) with true
        by (symmetry; apply Z.leb_le; rewrite length_app; simpl; lia).
      replace (Z.of_nat (length (p0 ++ [dp])) - 1 <? 0) with false
        by (symmetry; apply Z.ltb_ge; rewrite length_app; simpl; lia).
      simpl.
      apply (IH p0 ([dp] ++ px) [] sx); [rewrite HP, <- app_assoc; reflexivity | exact HS |].
      rewrite length_app in Hn; simpl in *; lia.
    + rewrite !reverse_snoc, merge_cons_cons.
      cbn [loop]. unfold running, iteration. cbn [primaryIndex secondaryIndex report].
      assert (EP : at_index primaryDocs (Z.of_nat (length (p0 ++ [dp])) - 1) = Some dp)
        by (rewrite HP; apply at_index_last).
      assert (ES : at_index secondaryDocs (Z.of_nat (length (s0 ++ [ds])) - 1) = Some ds)
        by (rewrite HS; apply at_index_last).
      rewrite ?EP, ?ES, !index_before_last.
      replace (0 <=? Z.of_nat (length (p0 ++ [dp])) - 1) with true
        by (symmetry; apply Z.leb_le; rewrite length_app; simpl; lia).
      replace (Z.of_nat (length (p0 ++ [dp])) - 1 <? 0) with false
        by (symmetry; apply Z.ltb_ge; rewrite length_app; simpl; lia).
      replace (Z.of_nat (length (s0 ++ [ds])) - 1 <? 0) with false
        by (symmetry; apply Z.ltb_ge; rewrite length_app; simpl; lia).
      cbn [orb].
      rewrite !length_app in Hn; simpl in Hn.
      unfold bsonBinaryEqual.
      destruct (decide (dp = ds)) as [->|Hne].
      * rewrite !bool_decide_eq_true_2 by reflexivity. cbn [negb].
        apply (IH p0 ([ds] ++ px) s0 ([ds] ++ sx));
          [rewrite HP, <- app_assoc; reflexivity
          | rewrite HS, <- app_assoc; reflexivity | lia].
      * rewrite (bool_decide_eq_false_2 (Some dp = Some ds)) by congruence.
        rewrite (bool_decide_eq_false_2 (dp = ds)) by assumption.
        cbn [negb]. unfold bsonWoCompare. simpl.
        destruct (Z.compare_spec (_id dp) (_id ds)) as [He|Hl|Hg]; simpl.
        -- apply (IH p0 ([dp] ++ px) s0 ([ds] ++ sx));
             [rewrite HP, <- app_assoc; reflexivity
             | rewrite HS, <- app_assoc; reflexivity | lia].
        -- pose proof (IH (p0 ++ [dp]) px s0 ([ds] ++ sx)) as IH'.
           rewrite reverse_snoc in IH'.
           apply IH'; [exact HP | rewrite HS, <- app_assoc; reflexivity
                      | rewrite length_app; simpl; lia].
        -- pose proof (IH p0 ([dp] ++ px) (s0 ++ [ds]) sx) as IH'.
           rewrite reverse_snoc in IH'.
           apply IH'; [rewrite HP, <- app_assoc; reflexivity | exact HS
                      | rewrite length_app; simpl; lia].
Qed.

(** The loop ends within as many iterations as the two arrays hold
    documents, with the report of the walk from the tails. *)
Lemma dumpCollectionDiff_merge (fuel : nat) :
  (length primaryDocs + length secondaryDocs <= fuel)%nat ->
  dumpCollectionDiff tojsononeline primaryDocs secondaryDocs fuel
  = Some (Normal (merge (reverse primaryDocs) (reverse secondaryDocs) noReport)).
Proof.
  intros H. unfold dumpCollectionDiff.
  rewrite (loop_merge fuel primaryDocs [] secondaryDocs [] noReport);
    [reflexivity | symmetry; apply app_nil_r | symmetry; apply app_nil_r | exact H].
Qed.

(** Identical documents are passed over. *)
Lemma merge_same (l : list Doc) (r : Report) : merge l l r = r.
Proof.
  revert r. induction l as [|d l IH]; intros r; [reflexivity|].
  rewrite merge_cons_cons, bool_decide_eq_true_2 by reflexivity. apply IH.
Qed.

Lemma merge_common_prefix (l a b : list Doc) (r : Report) :
  merge (l ++ a) (l ++ b) r = merge a b r.
Proof.
  induction l as [|d l IH]; [reflexivity|]. simpl app.
  rewrite merge_cons_cons, bool_decide_eq_true_2 by reflexivity. exact IH.
Qed.

End Dump.

Lemma sortedById_app (l1 l2 : list Doc) :
  sortedById (l1 ++ l2) ->
  sortedById l1 /\ sortedById l2
  /\ forall a b, a ∈ l1 -> b ∈ l2 -> _id a < _id b.
Proof.
  induction l1 as [|d l1 IH]; simpl.
  - intros H. split; [exact I|]. split; [exact H|]. intros a b Ha. inversion Ha.
  - intros [Hd Hs]. destruct (IH Hs) as (H1 & H2 & H12).
    apply Forall_app in Hd as [Hd1 Hd2].
    split; [split; assumption|]. split; [assumption|].
    intros a b Ha Hb. apply elem_of_cons in Ha as [->|Ha].
    + rewrite Forall_forall in Hd2. apply Hd2, Hb.
    + apply H12; assumption.
Qed.

(** One document more on the secondary, everything else identical. *)
Lemma merge_one_extra (tojsononeline : option Doc -> string)
    (before : list Doc) (extra : Doc) (after : list Doc) :
  sortedById (before ++ extra :: after) ->
  mergeFromTail tojsononeline (reverse (before ++ after))
    (reverse (before ++ extra :: after)) noReport
  = {| missingOnPrimary := [tojsononeline (Some extra)];
       missingOnSecondary := [];
       mismatching :=
         match last before with
         | Some below => [(tojsononeline (Some below), tojsononeline (Some extra))]
         | None => []
         end |}.
Proof.
  intros Hs. rewrite !reverse_app, reverse_cons, <- app_assoc. simpl app.
  rewrite merge_common_prefix.
  apply sortedById_app in Hs as (_ & _ & Hlt).
  rewrite <- head_reverse.
  destruct (reverse before) as [|below rest] eqn:Hr; [reflexivity|].
  assert (Hin : below ∈ before).
  { apply elem_of_reverse. rewrite Hr. apply elem_of_cons. left. reflexivity. }
  assert (Hid : _id below < _id extra).
  { apply Hlt; [exact Hin | apply elem_of_cons; left; reflexivity]. }
  rewrite merge_cons_cons.
  rewrite bool_decide_eq_false_2 by (intros ->; lia).
  cbv zeta. rewrite (proj2 (Z.compare_lt_iff _ _) Hid).
  rewrite merge_same. reflexivity.
Qed.

(** C6 as stated fails: with one more document on the secondary, above
    the documents both members hold, the walk prints the extra document
    and its lower neighbour as a mismatching pair before it records the
    extra document as missing on the primary; the merge in the words of
    the specification reports no pair. *)
Lemma dumpCollectionDiff_extra_document_also_mismatching :
  dumpCollectionDiff renderContent
    [mkDoc 1 "a"] [mkDoc 1 "a"; mkDoc 2 "b"] 3
  = Some (Normal {| missingOnPrimary := ["b"%string]; missingOnSecondary := [];
                    mismatching := [("a"%string, "b"%string)] |})
  /\ specMerge renderContent (reverse [mkDoc 1 "a"])
       (reverse [mkDoc 1 "a"; mkDoc 2 "b"]) noReport
     = {| missingOnPrimary := ["b"%string]; missingOnSecondary := [];
          mismatching := [] |}.
Proof. split; reflexivity. Qed.

(** C6, amended: [dumpCollectionDiff] ends, and its report is that of the
    walk of both arrays from their tails: identical documents advance both
    sides; any other pair is first printed as mismatching, whether or not
    the keys are equal, and then equal keys advance both sides while
    differing keys record the document with the larger key as missing on
    the other member and advance its side only; what one side has left
    when the other is exhausted is recorded as missing on the other. For
    two members that differ by one document present only on the secondary,
    the report has that document as the only entry missing on the primary,
    nothing missing on the secondary, and as only mismatching pair the
    extra document with its lower neighbour, when it has one. *)
Theorem dumpCollectionDiff_walk_from_tail (tojsononeline : option Doc -> string)
    (primaryDocs secondaryDocs : list Doc) (fuel : nat) :
  (length primaryDocs + length secondaryDocs <= fuel)%nat ->
  dumpCollectionDiff tojsononeline primaryDocs secondaryDocs fuel
  = Some (Normal (mergeFromTail tojsononeline (reverse primaryDocs)
                    (reverse secondaryDocs) noReport))
  /\ (forall (p s : Doc) (ps ss : list Doc) (r : Report),
        mergeFromTail tojsononeline [] [] r = r
        /\ mergeFromTail tojsononeline [] (s :: ss) r
           = mergeFromTail tojsononeline [] ss
               (pushMissingOnPrimary (tojsononeline (Some s)) r)
        /\ mergeFromTail tojsononeline (p :: ps) [] r
           = mergeFromTail tojsononeline ps []
               (pushMissingOnSecondary (tojsononeline (Some p)) r)
        /\ mergeFromTail tojsononeline (p :: ps) (s :: ss) r
           = if bool_decide (p = s) then mergeFromTail tojsononeline ps ss r
             else
               let printed :=
                 printMismatching (tojsononeline (Some p), tojsononeline (Some s)) r in
               match _id p ?= _id s with
               | Eq => mergeFromTail tojsononeline ps ss printed
               | Lt => mergeFromTail tojsononeline (p :: ps) ss
                         (pushMissingOnPrimary (tojsononeline (Some s)) printed)
               | Gt => mergeFromTail tojsononeline ps (s :: ss)
                         (pushMissingOnSecondary (tojsononeline (Some p)) printed)
               end)
  /\ (forall (before : list Doc) (extra : Doc) (after : list Doc),
        primaryDocs = before ++ after ->
        secondaryDocs = before ++ extra :: after ->
        sortedById secondaryDocs ->
        dumpCollectionDiff tojsononeline primaryDocs secondaryDocs fuel
        = Some (Normal
                  {| missingOnPrimary := [tojsononeline (Some extra)];
                     missingOnSecondary := [];
                     mismatching :=
                       match last before with
                       | Some below =>
                           [(tojsononeline (Some below), tojsononeline (Some extra))]
                       | None => []
                       end |})).
Proof.
  intros Hfuel. split; [apply dumpCollectionDiff_merge, Hfuel|].
  split; [intros; repeat split; reflexivity|].
  intros before extra after HP HS Hsorted.
  rewrite dumpCollectionDiff_merge by exact Hfuel.
  subst primaryDocs secondaryDocs. rewrite merge_one_extra by exact Hsorted.
  reflexivity.
Qed.

Lemma dumpCollectionDiff_walk_from_tail_witness :
  (length [mkDoc 1 "a"; mkDoc 3 "c"] + length [mkDoc 1 "a"; mkDoc 2 "b"; mkDoc 3 "c"] <= 5)%nat
  /\ sortedById [mkDoc 1 "a"; mkDoc 2 "b"; mkDoc 3 "c"]
  /\ dumpCollectionDiff renderContent [mkDoc 1 "a"; mkDoc 3 "c"]
       [mkDoc 1 "a"; mkDoc 2 "b"; mkDoc 3 "c"] 5
     = Some (Normal {| missingOnPrimary := ["b"%string]; missingOnSecondary := [];
                       mismatching := [("a"%string, "b"%string)] |}).
Proof.
  assert (Hfuel : (length [mkDoc 1 "a"; mkDoc 3 "c"]
                   + length [mkDoc 1 "a"; mkDoc 2 "b"; mkDoc 3 "c"] <= 5)%nat)
    by (simpl; lia).
  assert (Hsorted : sortedById [mkDoc 1 "a"; mkDoc 2 "b"; mkDoc 3 "c"]).
  { simpl. repeat split; repeat constructor; simpl; lia. }
  split; [exact Hfuel|]. split; [exact Hsorted|].
  exact (proj2 (proj2 (dumpCollectionDiff_walk_from_tail renderContent
                         [mkDoc 1 "a"; mkDoc 3 "c"]
                         [mkDoc 1 "a"; mkDoc 2 "b"; mkDoc 3 "c"] 5 Hfuel))
           [mkDoc 1 "a"] (mkDoc 2 "b") [mkDoc 3 "c"] eq_refl eq_refl Hsorted).
Defined.

End CollDiffTheory.

(** ** ensureOplogsMatch *)

Module OplogTheory.
Import OpTime Oplog.

(** With no member or a single one nothing is read. *)
Lemma ensureOplogsMatch_at_most_one (logs : list Log) :
  (length logs <= 1)%nat -> ensureOplogsMatch logs = Returned ().
Proof.
  intros H. unfold ensureOplogsMatch.
  destruct (Nat.ltb_spec 1 (length logs)); [lia | reflexivity].
Qed.

(** With two members or more the first comparison reads [largestTS.t]
    while [largestTS] is still [null]. *)
Lemma ensureOplogsMatch_two_or_more (first second : Log) (rest : list Log) :
  ensureOplogsMatch (first :: second :: rest)
  = match first with
    | [] => Raised (NoDocument 0)
    | _ :: _ => Raised TypeError
    end.
Proof. destruct first; reflexivity. Qed.

Lemma ensureOplogsMatch_never_returns (logs : list Log) :
  (1 < length logs)%nat -> exists f, ensureOplogsMatch logs = Raised f.
Proof.
  destruct logs as [|first [|second rest]]; simpl; try lia. intros _.
  rewrite ensureOplogsMatch_two_or_more. destruct first; eauto.
Qed.

(** The walk that follows would accept readers that hold the same
    entries. *)
Lemma expectAll_identical (ts : Timestamp) (c : list Timestamp) (others : list OplogReader) :
  Forall (fun r => cursor r = Some (ts :: c)) others ->
  exists others', expectAll ts others = Returned others'
                  /\ Forall (fun r => cursor r = Some c) others'.
Proof.
  induction 1 as [|r rest Hr _ (rest' & E & Hrest)]; simpl.
  - exists []. split; [reflexivity | constructor].
  - unfold next. rewrite Hr.
    rewrite (proj2 (OpTimeTheory.timestamp_eqb_eq ts ts) eq_refl), E.
    eexists. split; [reflexivity|]. constructor; [reflexivity | exact Hrest].
Qed.

Lemma walk_identical (c : list Timestamp) (others : list OplogReader) :
  Forall (fun r => cursor r = Some c) others ->
  exists others', walk c others = Returned others'
                  /\ Forall (fun r => cursor r = Some []) others'.
Proof.
  revert others. induction c as [|ts c IH]; intros others H; simpl.
  - eauto.
  - destruct (expectAll_identical ts c others H) as (others' & -> & H').
    apply IH, H'.
Qed.

Lemma expectNoMore_exhausted (others : list OplogReader) :
  Forall (fun r => cursor r = Some []) others -> expectNoMore others = Returned ().
Proof.
  induction 1 as [|r rest Hr _ IH]; simpl; [reflexivity|].
  unfold hasNext. rewrite Hr. exact IH.
Qed.

(** C5, where the code departs from the claim. On two or three members
    with identical logs of three entries the claim has the check succeed;
    the code raises a TypeError at the first member, before any cursor is
    opened. Only the set of a single member passes. *)
Theorem ensureOplogsMatch_identical_logs_raise :
  ensureOplogsMatch [[mkTimestamp 100 1; mkTimestamp 100 2; mkTimestamp 101 1];
                     [mkTimestamp 100 1; mkTimestamp 100 2; mkTimestamp 101 1]]
  = Raised TypeError
  /\ ensureOplogsMatch [[mkTimestamp 100 1; mkTimestamp 100 2; mkTimestamp 101 1];
                        [mkTimestamp 100 1; mkTimestamp 100 2; mkTimestamp 101 1];
                        [mkTimestamp 100 1; mkTimestamp 100 2; mkTimestamp 101 1]]
     = Raised TypeError
  /\ ensureOplogsMatch [[mkTimestamp 100 1; mkTimestamp 100 2; mkTimestamp 101 1]]
     = Returned ().
Proof. repeat split; reflexivity. Qed.

End OplogTheory.

(** ** checkDBHashesForReplSet *)

Module DbHashTheory.
Import DbHash.

Lemma failIf_true (cond success : bool) :
  failIf cond success = true <-> cond = false /\ success = true.
Proof. destruct cond, success; simpl; intuition congruence. Qed.

Lemma fold_failIf_true {A : Type} (bad : A -> bool) (l : list A) (success : bool) :
  fold_left (fun ok a => failIf (bad a) ok) l success = true
  <-> success = true /\ Forall (fun a => bad a = false) l.
Proof.
  revert success. induction l as [|a l IH]; intros success; simpl.
  - split; [intros ->; auto | intros [-> _]; reflexivity].
  - rewrite IH, failIf_true, Forall_cons. tauto.
Qed.

Lemma compareHashes_true (p s : DbHashReply) (names : list string) (success : bool) :
  compareHashes p s names success = true
  <-> success = true
      /\ Forall (fun c => collections p !! c = collections s !! c) names.
Proof.
  unfold compareHashes.
  rewrite (fold_failIf_true
             (fun c => negb (bool_decide (collections p !! c = collections s !! c)))).
  apply and_iff_compat_l. apply Forall_iff. intros c.
  rewrite negb_false_iff, bool_decide_eq_true. reflexivity.
Qed.

Lemma compareHashes_ext (p s s' : DbHashReply) (names : list string) (success : bool) :
  Forall (fun c => collections s' !! c = collections s !! c) names ->
  compareHashes p s' names success = compareHashes p s names success.
Proof.
  unfold compareHashes. intros H. revert success.
  induction H as [|c names Hc _ IH]; intros success; simpl; [reflexivity|].
  rewrite Hc. apply IH.
Qed.

Lemma compareInfo_true_inv (secondaryInfo : CollInfo) (primaryInfos : list CollInfo)
    (success : bool) :
  fold_left
    (fun ok' primaryInfo =>
       if String.eqb (name secondaryInfo) (name primaryInfo)
       then failIf (negb (bool_decide (secondaryInfo = primaryInfo))) ok'
       else ok')
    primaryInfos success = true ->
  success = true.
Proof.
  revert success. induction primaryInfos as [|pi l IH]; intros success; simpl; [auto|].
  intros H. apply IH in H. destruct (String.eqb (name secondaryInfo) (name pi)); [|exact H].
  apply failIf_true in H. tauto.
Qed.

Lemma compareInfos_true_inv (primaryInfos secondaryInfos : list CollInfo) (success : bool) :
  compareInfos primaryInfos secondaryInfos success = true -> success = true.
Proof.
  unfold compareInfos. revert success.
  induction secondaryInfos as [|si l IH]; intros success; simpl; [auto|].
  intros H. apply IH in H. exact (compareInfo_true_inv _ _ _ H).
Qed.

Lemma compareStats_true_inv (p s : Conn) (names : list string) (success : bool) :
  compareStats p s names success = Normal true -> success = true.
Proof.
  revert success. induction names as [|c names IH]; intros success; simpl.
  - congruence.
  - unfold cbind. destruct (collStats p c); [|discriminate].
    destruct (collStats s c); [|discriminate].
    intros H. apply IH in H. apply failIf_true in H. tauto.
Qed.

Lemma nonCapped_all (conn : Conn) (names : list string) :
  length (nonCapped conn names) = length names
  <-> Forall (fun c => isCapped conn c = false) names.
Proof.
  unfold nonCapped. induction names as [|c names IH]; simpl.
  - split; [constructor | reflexivity].
  - rewrite Forall_cons, filter_cons.
    pose proof (length_filter (fun collName => isCapped conn collName = false) names) as Hle.
    destruct (decide (isCapped conn c = false)) as [Hc|Hc]; simpl.
    + rewrite <- IH. split; [intros [= ?]; auto | intros [_ ->]; reflexivity].
    + split; [lia | tauto].
Qed.

Lemma nonCapped_spec (conn : Conn) (names : list string) (c : string) :
  c ∈ nonCapped conn names <-> c ∈ names /\ isCapped conn c = false.
Proof. unfold nonCapped. rewrite list_elem_of_filter. tauto. Qed.

(** What a comparison that leaves [success] true has established. *)
Lemma checkSecondary_true_inv (primaryReply : DbHashReply) (primaryConn : Conn)
    (primaryInfos : list CollInfo) (success : bool) (o : SecondaryObs) :
  checkSecondary primaryReply primaryConn primaryInfos success o = Normal true ->
  success = true /\ hashesAgree primaryReply primaryConn o.
Proof.
  unfold hashesAgree, checkSecondary, cbind.
  destruct (secondaryDBHash o) as [sr|]; [|discriminate].
  destruct (secondary o) as [sc|]; simpl; [|discriminate].
  destruct (compareStats _ _ _ _) as [s4|] eqn:Hstats; [|discriminate].
  intros [= H].
  assert (H4 : s4 = true /\
               (Forall (fun c => isCapped primaryConn c = false)
                  (keys (collections primaryReply)) -> md5 primaryReply = md5 sr)).
  { destruct (Nat.eqb_spec (length (nonCapped primaryConn (keys (collections primaryReply))))
                (length (keys (collections primaryReply)))) as [Hall|Hsome].
    - apply failIf_true in H as [Hmd5 ->]. split; [reflexivity|]. intros _.
      apply negb_false_iff, String.eqb_eq in Hmd5. exact Hmd5.
    - split; [exact H|]. intros Hall. apply nonCapped_all in Hall. contradiction. }
  destruct H4 as [-> Hmd5].
  apply compareStats_true_inv, compareInfos_true_inv, compareHashes_true in Hstats
    as [Hcount Hhashes].
  apply failIf_true in Hcount as [Hcount ->].
  split; [reflexivity|]. exists sr. split; [reflexivity|].
  apply negb_false_iff, Nat.eqb_eq in Hcount. auto.
Qed.

(** The comparison reads the secondary's reply only through the number of
    its collections, its hashes of the collections that are not capped on
    the primary, and its database hash. *)
Lemma checkSecondary_reads (primaryReply : DbHashReply) (primaryConn : Conn)
    (primaryInfos : list CollInfo) (success : bool) (o : SecondaryObs)
    (secondaryReply secondaryReply' : DbHashReply) :
  secondaryDBHash o = Normal secondaryReply ->
  length (keys (collections secondaryReply')) = length (keys (collections secondaryReply)) ->
  (forall c, c ∈ keys (collections primaryReply) -> isCapped primaryConn c = false ->
             collections secondaryReply' !! c = collections secondaryReply !! c) ->
  md5 secondaryReply' = md5 secondaryReply ->
  checkSecondary primaryReply primaryConn primaryInfos success
    {| secondaryDBHash := Normal secondaryReply'; secondary := secondary o |}
  = checkSecondary primaryReply primaryConn primaryInfos success o.
Proof.
  intros Ho Hlen Hhash Hmd5. unfold checkSecondary, cbind. rewrite Ho. simpl.
  destruct (secondary o) as [sc|]; simpl; [|reflexivity].
  rewrite Hlen, Hmd5.
  rewrite (compareHashes_ext primaryReply secondaryReply secondaryReply'); [reflexivity|].
  apply Forall_forall. intros c Hc. apply nonCapped_spec in Hc as [Hin Hcap]. auto.
Qed.

(** With a capped collection on the primary the database hashes are not
    compared. *)
Lemma checkSecondary_md5_unread (collections1 collections2 : gmap string string)
    (primaryConn : Conn) (primaryInfos : list CollInfo) (success : bool)
    (secondaryConn : option Conn) (h1 h2 h1' h2' : string) :
  Exists (fun c => isCapped primaryConn c = true) (keys collections1) ->
  checkSecondary {| collections := collections1; md5 := h1 |} primaryConn primaryInfos success
    {| secondaryDBHash := Normal {| collections := collections2; md5 := h2 |};
       secondary := secondaryConn |}
  = checkSecondary {| collections := collections1; md5 := h1' |} primaryConn primaryInfos
      success
      {| secondaryDBHash := Normal {| collections := collections2; md5 := h2' |};
         secondary := secondaryConn |}.
Proof.
  intros Hex. unfold checkSecondary, cbind. simpl.
  destruct secondaryConn as [sc|]; simpl; [|reflexivity].
  destruct (Nat.eqb_spec (length (nonCapped primaryConn (keys collections1)))
              (length (keys collections1))) as [Hall|Hsome].
  - apply nonCapped_all in Hall. apply Exists_exists in Hex as (c & Hin & Hc).
    rewrite Forall_forall in Hall. specialize (Hall c Hin). congruence.
  - reflexivity.
Qed.

Lemma checkSecondaries_true_inv (primaryReply : DbHashReply) (primaryConn : Conn)
    (primaryInfos : list CollInfo) (success : bool) (l : list SecondaryObs) :
  checkSecondaries primaryReply primaryConn primaryInfos success l = Normal true ->
  success = true /\ Forall (hashesAgree primaryReply primaryConn) l.
Proof.
  revert success. induction l as [|o l IH]; intros success; simpl.
  - intros [= ->]. split; [reflexivity | constructor].
  - unfold cbind.
    destruct (checkSecondary primaryReply primaryConn primaryInfos success o)
      as [s'|] eqn:Ho; [|discriminate].
    intros H. apply IH in H as [-> Hl].
    destruct (checkSecondary_true_inv _ _ _ _ _ Ho) as [-> Hagree].
    split; [reflexivity|]. constructor; assumption.
Qed.

Lemma checkDBs_true_inv (skip : bool) (dbBlacklist : list string) (success : bool)
    (dbs : list DbObs) :
  checkDBs skip dbBlacklist success dbs = Normal true ->
  success = true
  /\ Forall (fun db =>
               dbName db ∉ dbBlacklist ->
               forall primaryInfos, primaryCollInfo db = Infos primaryInfos ->
               exists primaryReply,
                 primaryDBHash db = Normal primaryReply
                 /\ Forall (hashesAgree primaryReply (primary db)) (slaves db)) dbs.
Proof.
  revert success. induction dbs as [|db dbs IH]; intros success; simpl.
  - intros [= ->]. split; [reflexivity | constructor].
  - case_bool_decide as Hbl.
    { intros H. apply IH in H as [-> Hl]. split; [reflexivity|].
      constructor; [intros; contradiction | exact Hl]. }
    unfold cbind. destruct (primaryDBHash db) as [pr|] eqn:Hpr; [|discriminate].
    destruct (primaryCollInfo db) as [infos| |] eqn:Hinfo.
    + destruct (checkSecondaries pr (primary db) infos success (slaves db))
        as [s'|] eqn:Hs; [|discriminate].
      intros H. apply IH in H as [-> Hl].
      apply checkSecondaries_true_inv in Hs as [-> Hs].
      split; [reflexivity|]. constructor; [|exact Hl].
      intros _ primaryInfos Hi. rewrite Hinfo in Hi. injection Hi as <-.
      exists pr. auto.
    + destruct skip; [|discriminate].
      intros H. apply IH in H as [-> Hl]. split; [reflexivity|].
      constructor; [intros _ ? Hi; rewrite Hinfo in Hi; discriminate | exact Hl].
    + discriminate.
Qed.

(** C7 as stated fails: the database has a capped collection; the hashes
    of its only other collection match, the collection infos and stats
    match, both members report two collections, the database hashes
    differ, and the verification succeeds. *)
Lemma checkDBHashes_succeeds_with_different_md5 :
  checkDBHashesForReplSet false [] [exampleDb "77c0" "0b1e"] = Normal ()
  /\ Exists (fun o => exists r, secondaryDBHash o = Normal r /\ md5 r <> "a3d9"%string)
       (slaves (exampleDb "77c0" "0b1e")).
Proof.
  split; [vm_compute; reflexivity|].
  constructor. eexists. split; [reflexivity|]. discriminate.
Qed.

(** C7, amended: a verification that succeeds has found, for every
    database that is neither excluded nor skipped and every secondary, as
    many collections as on the primary, equal hashes for the collections
    that are not capped on the primary, and an equal database hash
    whenever no collection of the primary is capped. The hash a secondary
    reports for a capped collection does not enter the comparison, and
    when the primary has a capped collection the database hashes are not
    compared at all. *)
Theorem checkDBHashes_capped_excluded :
  (forall (skip : bool) (dbBlacklist : list string) (dbs : list DbObs),
      checkDBHashesForReplSet skip dbBlacklist dbs = Normal () ->
      Forall (fun db =>
                dbName db ∉ dbBlacklist ++ ["local"%string] ->
                forall primaryInfos, primaryCollInfo db = Infos primaryInfos ->
                exists primaryReply,
                  primaryDBHash db = Normal primaryReply
                  /\ Forall (hashesAgree primaryReply (primary db)) (slaves db)) dbs)
  /\ (forall (primaryReply : DbHashReply) (primaryConn : Conn)
             (primaryInfos : list CollInfo) (success : bool) (o : SecondaryObs)
             (secondaryReply : DbHashReply) (collName hash hash' : string),
        secondaryDBHash o = Normal secondaryReply ->
        isCapped primaryConn collName = true ->
        collections secondaryReply !! collName = Some hash ->
        checkSecondary primaryReply primaryConn primaryInfos success
          {| secondaryDBHash :=
               Normal {| collections := <[collName := hash']> (collections secondaryReply);
                         md5 := md5 secondaryReply |};
             secondary := secondary o |}
        = checkSecondary primaryReply primaryConn primaryInfos success o)
  /\ (forall (collections1 collections2 : gmap string string) (primaryConn : Conn)
             (primaryInfos : list CollInfo) (success : bool) (secondaryConn : option Conn)
             (h1 h2 h1' h2' : string),
        Exists (fun c => isCapped primaryConn c = true) (keys collections1) ->
        checkSecondary {| collections := collections1; md5 := h1 |} primaryConn
          primaryInfos success
          {| secondaryDBHash := Normal {| collections := collections2; md5 := h2 |};
             secondary := secondaryConn |}
        = checkSecondary {| collections := collections1; md5 := h1' |} primaryConn
            primaryInfos success
            {| secondaryDBHash := Normal {| collections := collections2; md5 := h2' |};
               secondary := secondaryConn |}).
Proof.
  split; [|split].
  - intros skip dbBlacklist dbs. unfold checkDBHashesForReplSet, cbind.
    destruct (checkDBs skip (dbBlacklist ++ ["local"%string]) true dbs) as [[|]|] eqn:H;
      try discriminate.
    intros _. exact (proj2 (checkDBs_true_inv _ _ _ _ H)).
  - intros primaryReply primaryConn primaryInfos success o secondaryReply
      collName hash hash' Ho Hcapped Hhash.
    apply checkSecondary_reads with (secondaryReply := secondaryReply); simpl.
    + exact Ho.
    + unfold keys. rewrite !length_fmap, !length_map_to_list.
      apply map_size_insert_Some. exists hash. exact Hhash.
    + intros c _ Hc. apply lookup_insert_ne. intros ->. congruence.
    + reflexivity.
  - apply checkSecondary_md5_unread.
Qed.

Lemma checkDBHashes_capped_excluded_witness :
  checkDBHashesForReplSet false [] [exampleDb "e2e2" "0b1e"] = Normal ()
  /\ Forall (fun db =>
               dbName db ∉ [] ++ ["local"%string] ->
               forall primaryInfos, primaryCollInfo db = Infos primaryInfos ->
               exists primaryReply,
                 primaryDBHash db = Normal primaryReply
                 /\ Forall (hashesAgree primaryReply (primary db)) (slaves db))
       [exampleDb "e2e2" "0b1e"].
Proof.
  assert (H : checkDBHashesForReplSet false [] [exampleDb "e2e2" "0b1e"] = Normal ())
    by (vm_compute; reflexivity).
  split; [exact H|].
  exact (proj1 checkDBHashes_capped_excluded false [] [exampleDb "e2e2" "0b1e"] H).
Defined.

End DbHashTheory.

(** ** Waiting for a leader and for the secondaries *)


Module LeaderWaitsTheory.
Import Leadership LeaderWaits.

Section Waits.
Context {Node : Type} `{EqDecision Node}.
Implicit Types (nodes : list Node) (scan : Scan (Node := Node)).

Lemma responders_cons (p : Probe Node) (probes : list (Probe Node)) :
  responders (p :: probes)
  = match p.2 with Normal false => p.1 :: responders probes | _ => responders probes end.
Proof. unfold responders; simpl. destruct p as [n [[|]|]]; reflexivity. Qed.

Lemma fold_visit_slaves (probes : list (Probe Node)) (st : ScanState Node) :
  slaves (liveNodes (fold_left visit probes st))
  = slaves (liveNodes st) ++ responders probes.
Proof.
  revert st. induction probes as [|p probes IH]; intros st.
  - simpl. rewrite app_nil_r. reflexivity.
  - rewrite responders_cons. cbn [fold_left]. rewrite IH. unfold visit.
    destruct p as [n [[|]|]]; simpl; try reflexivity.
    + destruct (master (liveNodes st)); reflexivity.
    + rewrite <- app_assoc. reflexivity.
Qed.

Lemma callIsMaster_slaves (probes : list (Probe Node)) :
  slaves (_callIsMaster probes).1 = responders probes.
Proof. unfold _callIsMaster, scan; simpl. rewrite fold_visit_slaves. reflexivity. Qed.

(** X1: What a scan leaves in [self.liveNodes]: the members that answered
    without claiming leadership, in order, and the first claimant, which
    stays recorded as [master] even when a second claimant makes the scan
    return [false]. *)
Theorem callIsMaster_liveNodes (probes : list (Probe Node)) :
  slaves (_callIsMaster probes).1 = responders probes
  /\ master (_callIsMaster probes).1 = head (claimants probes)
  /\ ((2 <= length (claimants probes))%nat ->
      (_callIsMaster probes).2 = None
      /\ exists first, master (_callIsMaster probes).1 = Some first).
Proof.
  split; [|split].
  - apply callIsMaster_slaves.
  - apply LeadershipTheory.callIsMaster_liveNodes_master.
  - intros H2. rewrite LeadershipTheory.callIsMaster_returns,
      LeadershipTheory.callIsMaster_liveNodes_master.
    destruct (claimants probes) as [|a [|b l]]; simpl in *; try lia. eauto.
Qed.

Lemma claimants_probesOf_cons (a : Node) (nodes : list Node) (scan : Scan) :
  claimants (probesOf (a :: nodes) scan)
  = match scan a with
    | Normal true => a :: claimants (probesOf nodes scan)
    | _ => claimants (probesOf nodes scan)
    end.
Proof. exact (LeadershipTheory.claimants_cons (a, scan a) (probesOf nodes scan)). Qed.

Lemma claimants_probesOf (nodes : list Node) (scan : Scan) (n : Node) :
  n ∈ claimants (probesOf nodes scan) -> n ∈ nodes.
Proof.
  induction nodes as [|a nodes IH].
  - intros Hn. inversion Hn.
  - rewrite claimants_probesOf_cons.
    destruct (scan a) as [[|]|]; rewrite ?elem_of_cons; intuition.
Qed.

Lemma callIsMaster_sole (nodes : list Node) (scan : Scan) :
  (forall n, (_callIsMaster (probesOf nodes scan)).2 = Some n <-> soleLeader nodes scan n)
  /\ ((_callIsMaster (probesOf nodes scan)).2 = None <-> noSoleLeader nodes scan).
Proof.
  unfold soleLeader, noSoleLeader. rewrite LeadershipTheory.callIsMaster_returns.
  destruct (claimants (probesOf nodes scan)) as [|a [|b l]]; split;
    try (intros n; split; [discriminate | discriminate]);
    try (split; [intros _ n; discriminate | reflexivity]).
  - intros n. split; [intros [= ->]; reflexivity | intros [= ->]; reflexivity].
  - split; [discriminate | intros Hn; destruct (Hn a); reflexivity].
Qed.

Lemma findPrimaryPass_eq (nodes : list Node) (st : LiveNodes Node * option Node)
    (scan : Scan) :
  findPrimaryPass nodes st scan
  = (_callIsMaster (probesOf nodes scan),
     Normal (bool_decide (is_Some (_callIsMaster (probesOf nodes scan)).2))).
Proof. unfold findPrimaryPass. destruct (_callIsMaster (probesOf nodes scan)); reflexivity. Qed.

Lemma soon_findPrimary (nodes : list Node) (scans : list Scan)
    (st : LiveNodes Node * option Node) :
  match Poller.soonNoExcept (findPrimaryPass nodes) st scans with
  | (st', Normal _) =>
      exists before scan after n,
        scans = before ++ scan :: after
        /\ Forall (noSoleLeader nodes) before
        /\ soleLeader nodes scan n
        /\ st' = ((_callIsMaster (probesOf nodes scan)).1, Some n)
  | (_, Throw) => Forall (noSoleLeader nodes) scans
  end.
Proof.
  revert st. induction scans as [|scan scans IH]; intros st; [constructor|].
  cbn [Poller.soonNoExcept]. rewrite findPrimaryPass_eq.
  destruct (callIsMaster_sole nodes scan) as [Hsome Hnone].
  destruct ((_callIsMaster (probesOf nodes scan)).2) as [n|] eqn:Hscan.
  - rewrite bool_decide_eq_true_2 by eauto.
    exists [], scan, scans, n.
    split; [reflexivity|]. split; [constructor|].
    split; [apply Hsome; reflexivity|].
    rewrite <- Hscan. destruct (_callIsMaster (probesOf nodes scan)); reflexivity.
  - rewrite bool_decide_eq_false_2 by (intros [? [=]]).
    specialize (IH (_callIsMaster (probesOf nodes scan))).
    destruct (Poller.soonNoExcept (findPrimaryPass nodes)
                (_callIsMaster (probesOf nodes scan)) scans) as [st' [u|]].
    + destruct IH as (before & scan' & after & n & -> & Hb & Hs & ->).
      exists (scan :: before), scan', after, n.
      split; [reflexivity|].
      split; [constructor; [apply Hnone; reflexivity | exact Hb]|].
      split; [exact Hs | reflexivity].
    + constructor; [apply Hnone; reflexivity | exact IH].
Qed.

Lemma soon_findPrimary_found (nodes : list Node) (before : list Scan) (scan : Scan)
    (after : list Scan) (n : Node) (st : LiveNodes Node * option Node) :
  Forall (noSoleLeader nodes) before -> soleLeader nodes scan n ->
  Poller.soonNoExcept (findPrimaryPass nodes) st (before ++ scan :: after)
  = (((_callIsMaster (probesOf nodes scan)).1, Some n), Normal ()).
Proof.
  intros Hb Hs. revert st. induction Hb as [|s before Hno _ IH]; intros st.
  - cbn [app Poller.soonNoExcept]. rewrite findPrimaryPass_eq.
    apply (proj1 (callIsMaster_sole nodes scan)) in Hs.
    rewrite Hs, bool_decide_eq_true_2 by eauto.
    rewrite <- Hs. destruct (_callIsMaster (probesOf nodes scan)); reflexivity.
  - cbn [app Poller.soonNoExcept]. rewrite findPrimaryPass_eq.
    apply (proj2 (callIsMaster_sole nodes s)) in Hno.
    rewrite Hno, bool_decide_eq_false_2 by (intros [? [=]]). apply IH.
Qed.

Lemma getPrimary_returns (nodes : list Node) (liveNodes liveNodes' : LiveNodes Node)
    (scans : list Scan) (primary : option Node) :
  getPrimary nodes liveNodes scans = (liveNodes', Normal primary)
  <-> exists before scan after n,
        scans = before ++ scan :: after
        /\ Forall (noSoleLeader nodes) before
        /\ soleLeader nodes scan n
        /\ primary = Some n
        /\ liveNodes' = (_callIsMaster (probesOf nodes scan)).1.
Proof.
  unfold getPrimary. split.
  - pose proof (soon_findPrimary nodes scans (liveNodes, None)) as Hs.
    destruct (Poller.soonNoExcept (findPrimaryPass nodes) (liveNodes, None) scans)
      as [[ln r] [u|]]; [|discriminate].
    intros [= <- <-].
    destruct Hs as (before & scan & after & n & -> & Hb & Hsole & [= -> ->]).
    exists before, scan, after, n. auto.
  - intros (before & scan & after & n & -> & Hb & Hsole & -> & ->).
    rewrite (soon_findPrimary_found nodes before scan after n) by assumption.
    reflexivity.
Qed.

Lemma getPrimary_times_out (nodes : list Node) (liveNodes : LiveNodes Node)
    (scans : list Scan) :
  (getPrimary nodes liveNodes scans).2 = Throw <-> Forall (noSoleLeader nodes) scans.
Proof.
  unfold getPrimary. split.
  - pose proof (soon_findPrimary nodes scans (liveNodes, None)) as Hs.
    destruct (Poller.soonNoExcept (findPrimaryPass nodes) (liveNodes, None) scans)
      as [[ln r] [u|]]; [discriminate | auto].
  - intros Hall.
    pose proof (soon_findPrimary nodes scans (liveNodes, None)) as Hs.
    destruct (Poller.soonNoExcept (findPrimaryPass nodes) (liveNodes, None) scans)
      as [[ln r] [u|]]; [|reflexivity].
    destruct Hs as (before & scan & after & n & -> & _ & Hsole & _).
    apply Forall_app in Hall as [_ Hall]. apply Forall_cons in Hall as [Hno _].
    destruct (Hno n Hsole).
Qed.

(** X2: [getPrimary] returns the sole claimant of the first scan that has
    exactly one, with [liveNodes] as that scan left it, and raises exactly
    when no scan within the timeout has a sole claimant. *)
Theorem getPrimary_first_sole_claimant (nodes : list Node)
    (liveNodes liveNodes' : LiveNodes Node) (scans : list Scan) (primary : option Node) :
  (getPrimary nodes liveNodes scans = (liveNodes', Normal primary)
   <-> exists before scan after n,
         scans = before ++ scan :: after
         /\ Forall (noSoleLeader nodes) before
         /\ soleLeader nodes scan n
         /\ primary = Some n
         /\ liveNodes' = (_callIsMaster (probesOf nodes scan)).1)
  /\ ((getPrimary nodes liveNodes scans).2 = Throw <-> Forall (noSoleLeader nodes) scans).
Proof. split; [apply getPrimary_returns | apply getPrimary_times_out]. Qed.

Lemma soon_findPrimary_app (nodes : list Node) (scans more : list Scan)
    (st : LiveNodes Node * option Node) :
  Poller.soonNoExcept (findPrimaryPass nodes) st (scans ++ more)
  = match Poller.soonNoExcept (findPrimaryPass nodes) st scans with
    | (st', Normal u) => (st', Normal u)
    | (st', Throw) => Poller.soonNoExcept (findPrimaryPass nodes) st' more
    end.
Proof.
  revert st. induction scans as [|scan scans IH]; intros st; [reflexivity|].
  cbn [app Poller.soonNoExcept].
  destruct (findPrimaryPass nodes st scan) as [st1 [[|]|]]; [reflexivity | apply IH | apply IH].
Qed.

Lemma soon_findPrimary_none (nodes : list Node) (scans : list Scan)
    (st st' : LiveNodes Node * option Node) :
  st.2 = None ->
  Poller.soonNoExcept (findPrimaryPass nodes) st scans = (st', Throw) -> st'.2 = None.
Proof.
  revert st. induction scans as [|scan scans IH]; intros st Hst; cbn [Poller.soonNoExcept].
  - intros [= <-]. exact Hst.
  - rewrite findPrimaryPass_eq.
    destruct ((_callIsMaster (probesOf nodes scan)).2) as [n|] eqn:Hscan.
    + rewrite bool_decide_eq_true_2 by eauto. discriminate.
    + rewrite bool_decide_eq_false_2 by (intros [? [=]]). apply IH. exact Hscan.
Qed.

(** X3: [waitForMaster] retries [getPrimary], itself a wait: together they
    behave as one call of [getPrimary] that meets the scans of all the
    attempts in a row. *)
Theorem waitForMaster_flattens (nodes : list Node) (liveNodes : LiveNodes Node)
    (attempts : list (list Scan)) :
  waitForMaster nodes liveNodes attempts = getPrimary nodes liveNodes (concat attempts).
Proof.
  unfold waitForMaster, getPrimary. revert liveNodes.
  induction attempts as [|scans rest IH]; intros liveNodes; [reflexivity|].
  cbn [concat Poller.soonNoExcept]. rewrite soon_findPrimary_app.
  unfold waitForMasterPass at 1, getPrimary. cbn [fst snd].
  pose proof (soon_findPrimary nodes scans (liveNodes, None)) as Hfound.
  pose proof (soon_findPrimary_none nodes scans (liveNodes, None)) as Hnone.
  destruct (Poller.soonNoExcept (findPrimaryPass nodes) (liveNodes, None) scans)
    as [[ln p] [u|]].
  - destruct Hfound as (before & scan & after & n & _ & _ & _ & [= -> ->]).
    rewrite bool_decide_eq_true_2 by eauto. destruct u. reflexivity.
  - specialize (Hnone (ln, p) eq_refl eq_refl). simpl in Hnone. subst p. apply IH.
Qed.

Lemma noPrimaryPass_eq (nodes : list Node) (liveNodes : LiveNodes Node) (scan : Scan) :
  noPrimaryPass nodes liveNodes scan
  = ((_callIsMaster (probesOf nodes scan)).1,
     Normal (bool_decide ((_callIsMaster (probesOf nodes scan)).2 = None))).
Proof. unfold noPrimaryPass. destruct (_callIsMaster (probesOf nodes scan)); reflexivity. Qed.

(** X4: [awaitNoPrimary] returns at the first scan that does not have exactly
    one claimant: a scan in which two members claim leadership counts as
    no primary. *)
Theorem awaitNoPrimary_returns_iff (nodes : list Node) (liveNodes : LiveNodes Node)
    (scans : list Scan) :
  ((awaitNoPrimary nodes liveNodes scans).2 = Normal ()
   <-> Exists (noSoleLeader nodes) scans)
  /\ (forall scan, scan ∈ scans ->
        (2 <= length (claimants (probesOf nodes scan)))%nat ->
        (awaitNoPrimary nodes liveNodes scans).2 = Normal ()).
Proof.
  assert (Hiff : (awaitNoPrimary nodes liveNodes scans).2 = Normal ()
                 <-> Exists (noSoleLeader nodes) scans).
  { unfold awaitNoPrimary. revert liveNodes.
    induction scans as [|scan scans IH]; intros liveNodes.
    - simpl. split; [discriminate | intros Hex; inversion Hex].
    - cbn [Poller.soonNoExcept]. rewrite noPrimaryPass_eq, Exists_cons.
      destruct (callIsMaster_sole nodes scan) as [_ Hnone].
      case_bool_decide as Hr.
      + split; [intros _; left; apply Hnone, Hr | reflexivity].
      + rewrite IH. split; [auto | intros [Hno|Hex]; [|exact Hex]].
        destruct (Hr (proj2 Hnone Hno)). }
  split; [exact Hiff|].
  intros scan Hin H2. apply Hiff, Exists_exists. exists scan. split; [exact Hin|].
  intros n Hn. rewrite Hn in H2. simpl in H2. lia.
Qed.

Lemma filter_ne_length (nodes : list Node) (n : Node) :
  NoDup nodes -> n ∈ nodes ->
  (length (filter (fun node => Some node <> Some n) nodes) + 1 = length nodes)%nat.
Proof.
  induction 1 as [|a nodes Ha Hnd IH]; intros Hin; [inversion Hin|].
  rewrite filter_cons. destruct (decide (Some a <> Some n)) as [Hne|Heq].
  - apply elem_of_cons in Hin as [->|Hin]; [destruct Hne; reflexivity|].
    simpl. rewrite IH by exact Hin. reflexivity.
  - assert (a = n) as ->
      by (destruct (decide (a = n)); [assumption | destruct Heq; congruence]).
    simpl. f_equal. rewrite Nat.add_comm. simpl. f_equal.
    clear IH Hin Heq. induction nodes as [|b nodes IH]; [reflexivity|].
    apply not_elem_of_cons in Ha as [Hb Ha]. apply NoDup_cons in Hnd as [_ Hnd].
    rewrite filter_cons. destruct (decide (Some b <> Some n)) as [_|Hc];
      [simpl; f_equal; apply IH; assumption|].
    destruct Hc. congruence.
Qed.

(** X5: [getSecondaries] returns every member of [this.nodes] but the leader,
    in order: one less than the set has, whatever the other members
    answered in the scan. *)
Theorem getSecondaries_all_but_primary (nodes : list Node) (liveNodes liveNodes' : LiveNodes Node)
    (scans : list Scan) (secs : list Node) :
  NoDup nodes ->
  getSecondaries nodes liveNodes scans = (liveNodes', Normal secs) ->
  exists n, liveNodes' .(master) = Some n
            /\ n ∈ nodes
            /\ secs = filter (fun node => node <> n) nodes
            /\ (length secs + 1 = length nodes)%nat.
Proof.
  intros Hnd. unfold getSecondaries.
  destruct (getPrimary nodes liveNodes scans) as [ln [r|]] eqn:Hp; [|discriminate].
  intros [= <- <-].
  apply getPrimary_returns in Hp
    as (before & scan & after & n & _ & _ & Hsole & -> & ->).
  assert (Hin : n ∈ nodes).
  { apply (claimants_probesOf nodes scan). unfold soleLeader in Hsole. rewrite Hsole.
    apply elem_of_cons. left. reflexivity. }
  exists n. split.
  { rewrite LeadershipTheory.callIsMaster_liveNodes_master. unfold soleLeader in Hsole.
    rewrite Hsole. reflexivity. }
  split; [exact Hin|]. split.
  - apply list_filter_iff. intros x. split; [intros Hx ->; apply Hx; reflexivity | congruence].
  - apply filter_ne_length; assumption.
Qed.

Lemma allReady_true_iff (ismaster : Node -> completion RoleReply) (ready : bool)
    (l : list Node) :
  allReady ismaster ready l = Normal true
  <-> ready = true /\ Forall (roleKnown ismaster) l.
Proof.
  revert ready. induction l as [|node rest IH]; intros ready; simpl.
  - split; [intros [= ->]; auto | intros [-> _]; reflexivity].
  - rewrite Forall_cons. unfold cbind, roleKnown at 1.
    destruct (ismaster node) as [reply|].
    + rewrite IH, andb_true_iff. split.
      * intros [[-> Hk] Hrest]. eauto.
      * intros (-> & (reply' & [= <-] & Hk) & Hrest). auto.
    + split; [discriminate | intros (_ & (? & [=] & _) & _)].
Qed.

(** X6: An attempt of [awaitSecondaryNodes] succeeds exactly when a leader is
    found and every member the scan recorded in [liveNodes.slaves] reports
    itself secondary or arbiter; the members that did not answer the scan
    are not asked. *)
Theorem secondariesReadyPass_true_iff (nodes : list Node) (liveNodes liveNodes' : LiveNodes Node)
    (o : ReadyObs (Node := Node)) :
  secondariesReadyPass nodes liveNodes o = (liveNodes', Normal true)
  <-> exists before scan after n,
        primaryScans o = before ++ scan :: after
        /\ Forall (noSoleLeader nodes) before
        /\ soleLeader nodes scan n
        /\ liveNodes' = (_callIsMaster (probesOf nodes scan)).1
        /\ Forall (roleKnown (roleOf o)) (responders (probesOf nodes scan)).
Proof.
  unfold secondariesReadyPass. split.
  - destruct (getPrimary nodes liveNodes (primaryScans o)) as [ln [r|]] eqn:Hp;
      [|discriminate].
    intros [= <- Hready]. apply allReady_true_iff in Hready as [_ Hall].
    apply getPrimary_returns in Hp
      as (before & scan & after & n & Hsplit & Hb & Hsole & _ & Hln).
    exists before, scan, after, n.
    split; [exact Hsplit|]. split; [exact Hb|]. split; [exact Hsole|].
    split; [exact Hln|]. subst ln.
    rewrite (callIsMaster_slaves (probesOf nodes scan)) in Hall. exact Hall.
  - intros (before & scan & after & n & Hsplit & Hb & Hsole & -> & Hall).
    assert (Hp' : getPrimary nodes liveNodes (primaryScans o)
                  = ((_callIsMaster (probesOf nodes scan)).1, Normal (Some n))).
    { apply getPrimary_returns. exists before, scan, after, n. auto. }
    rewrite Hp'. f_equal.
    apply allReady_true_iff. split; [reflexivity|].
    rewrite (callIsMaster_slaves (probesOf nodes scan)). exact Hall.
Qed.

(** X7: [status()] asks the leader when exactly one member claims leadership,
    otherwise the first member that answered without claiming it, and
    raises when there is none. *)
Theorem statusTarget_cases (nodes : list Node) (scan : Scan) :
  (statusTarget nodes scan).2
  = match claimants (probesOf nodes scan), responders (probesOf nodes scan) with
    | [n], _ => Normal n
    | _, first :: _ => Normal first
    | _, [] => Throw
    end.
Proof.
  unfold statusTarget.
  pose proof (LeadershipTheory.callIsMaster_returns (probesOf nodes scan)) as Hr.
  pose proof (callIsMaster_slaves (probesOf nodes scan)) as Hs.
  destruct (_callIsMaster (probesOf nodes scan)) as [ln r]; simpl in *.
  rewrite Hr, Hs.
  destruct (claimants (probesOf nodes scan)) as [|a [|b l]];
    destruct (responders (probesOf nodes scan)); reflexivity.
Qed.

End Waits.

Lemma getSecondaries_all_but_primary_witness :
  exists n : nat,
    master {| master := Some 1%nat; slaves := [0%nat; 2%nat] |} = Some n
    /\ n ∈ [0%nat; 1%nat; 2%nat]
    /\ [0%nat; 2%nat] = filter (fun node => node <> n) [0%nat; 1%nat; 2%nat]
    /\ (length [0%nat; 2%nat] + 1 = length [0%nat; 1%nat; 2%nat])%nat.
Proof.
  apply (getSecondaries_all_but_primary [0%nat; 1%nat; 2%nat] _clearLiveNodes
           {| master := Some 1%nat; slaves := [0%nat; 2%nat] |}
           [fun n => Normal (n =? 1)%nat] [0%nat; 2%nat]).
  - apply (bool_decide_unpack _). vm_compute. exact I.
  - vm_compute. reflexivity.
Defined.

Lemma findNodesPrimary_found (j p : Z) (states : list Z) :
  p <> -1 ->
  findNodesPrimary j p states
  = match primaryPositionsFrom j states with [] => Some p | _ => None end.
Proof.
  intros Hp. revert j. induction states as [|st rest IH]; intros j; simpl; [reflexivity|].
  destruct (st =? PRIMARY); [|apply IH].
  destruct (Z.eqb_spec p (-1)); [contradiction | reflexivity].
Qed.

Lemma findNodesPrimary_spec (j : Z) (states : list Z) :
  0 <= j ->
  findNodesPrimary j (-1) states
  = match primaryPositionsFrom j states with
    | [] => Some (-1)
    | [p] => Some p
    | _ => None
    end.
Proof.
  revert j. induction states as [|st rest IH]; intros j Hj; simpl; [reflexivity|].
  destruct (st =? PRIMARY).
  - simpl. rewrite findNodesPrimary_found by lia.
    destruct (primaryPositionsFrom (j + 1) rest); reflexivity.
  - apply IH. lia.
Qed.

Lemma primaryPositionsFrom_ge (j : Z) (states : list Z) :
  Forall (fun p => j <= p) (primaryPositionsFrom j states).
Proof.
  revert j. induction states as [|st rest IH]; intros j; simpl; [constructor|].
  assert (H : Forall (fun p => j <= p) (primaryPositionsFrom (j + 1) rest)).
  { eapply Forall_impl; [apply IH|]. intros p Hp. simpl in Hp. lia. }
  destruct (st =? PRIMARY); [constructor; [lia | exact H] | exact H].
Qed.

Lemma agreeOnPrimary_known (q : Z) (statuses : list (completion (list Z))) :
  0 <= q ->
  agreeOnPrimary q statuses = Normal true <-> Forall (seesPrimaryAt q) statuses.
Proof.
  intros Hq. induction statuses as [|status rest IH]; simpl.
  - split; [constructor | reflexivity].
  - rewrite Forall_cons. unfold cbind, seesPrimaryAt at 1.
    destruct status as [states|]; [|split; [discriminate | intros [(? & [=] & _) _]]].
    unfold primaryPositions. rewrite findNodesPrimary_spec by lia.
    pose proof (primaryPositionsFrom_ge 0 states) as Hge.
    destruct (primaryPositionsFrom 0 states) as [|p [|p' l]] eqn:Hpos; simpl.
    + split; [discriminate | intros [(? & [= <-] & Hp) _]; congruence].
    + apply Forall_cons in Hge as [Hp _].
      destruct (Z.ltb_spec p 0); [lia|]. destruct (Z.ltb_spec q 0); [lia|].
      destruct (Z.eqb_spec q p) as [->|Hne]; simpl.
      * rewrite IH. split; [intros Hr; split; [eauto | exact Hr] | intros [_ Hr]; exact Hr].
      * split; [discriminate | intros [(? & [= <-] & Hp') _]; congruence].
    + split; [discriminate | intros [(? & [= <-] & Hp) _]; congruence].
Qed.

(** X8: An attempt of [awaitNodesAgreeOnPrimary] succeeds exactly when every
    member's status could be read and lists exactly one leader, at the same
    position of its member list for all members; with no member at all it
    succeeds at once. *)
Theorem agreeOnPrimary_true_iff (statuses : list (completion (list Z))) :
  agreeOnPrimary (-1) statuses = Normal true
  <-> statuses = [] \/ exists p, Forall (seesPrimaryAt p) statuses.
Proof.
  destruct statuses as [|status rest]; simpl.
  - split; [auto | reflexivity].
  - unfold cbind.
    destruct status as [states|].
    2:{ split; [discriminate|]. intros [[=]|(p & Hall)].
        apply Forall_cons in Hall as [(? & [=] & _) _]. }
    unfold seesPrimaryAt at 1. rewrite findNodesPrimary_spec by lia.
    pose proof (primaryPositionsFrom_ge 0 states) as Hge.
    unfold primaryPositions.
    destruct (primaryPositionsFrom 0 states) as [|p [|p' l]] eqn:Hpos; simpl.
    + split; [discriminate|]. intros [[=]|(p & Hall)].
      apply Forall_cons in Hall as [(? & [= <-] & Hp) _]. congruence.
    + apply Forall_cons in Hge as [Hp _]. destruct (Z.ltb_spec p 0); [lia|]. simpl.
      rewrite agreeOnPrimary_known by lia. split.
      * intros Hr. right. exists p. constructor; [eauto | exact Hr].
      * intros [[=]|(q & Hall)]. apply Forall_cons in Hall as [(? & [= <-] & Hq) Hr].
        assert (q = p) as -> by congruence. exact Hr.
    + split; [discriminate|]. intros [[=]|(p0 & Hall)].
      apply Forall_cons in Hall as [(? & [= <-] & Hp) _]. congruence.
Qed.

End LeaderWaitsTheory.

(** ** Members of the set *)

Module MembershipTheory.
Import Timeouts Membership.

Lemma list_find_connId (nodes : list Conn) (i : nat) (c : Conn) :
  NoDup (connId <$> nodes) -> nodes !! i = Some c ->
  list_find (fun x => connId x = connId c) nodes = Some (i, c).
Proof.
  intros Hnd Hi. apply list_find_Some. split; [exact Hi|]. split; [reflexivity|].
  intros j y Hj Hlt Heq.
  assert (Hij : j = i).
  { eapply NoDup_lookup; [exact Hnd| |].
    - rewrite list_lookup_fmap, Hj. reflexivity.
    - rewrite list_lookup_fmap, Hi. simpl. congruence. }
  lia.
Qed.

Lemma getNodeId_member (nodes : list Conn) (i : nat) (c : Conn) :
  NoDup (connId <$> nodes) -> nodes !! i = Some c ->
  getNodeId nodes (ByConn c) = Some (Z.of_nat i).
Proof.
  intros Hnd Hi. unfold getNodeId. rewrite (list_find_connId nodes i c Hnd Hi). reflexivity.
Qed.

(** X9: A connection of [this.nodes] is identified by its position, whatever
    its [nodeId] attribute says; a connection that is not in [this.nodes]
    by its [nodeId] attribute. *)
Theorem getNodeId_position (nodes : list Conn) (c : Conn) :
  NoDup (connId <$> nodes) ->
  (forall i, nodes !! i = Some c -> getNodeId nodes (ByConn c) = Some (Z.of_nat i))
  /\ (connId c ∉ connId <$> nodes -> getNodeId nodes (ByConn c) = nodeId c).
Proof.
  intros Hnd. split.
  - intros i Hi. apply getNodeId_member; assumption.
  - intros Hout. unfold getNodeId.
    destruct (list_find (fun x => connId x = connId c) nodes) as [[j x]|] eqn:Hf;
      [|reflexivity].
    apply list_find_Some in Hf as (Hj & Heq & _). destruct Hout.
    apply list_elem_of_fmap. exists x. split; [congruence|].
    apply list_elem_of_lookup. exists j. exact Hj.
Qed.

Lemma getNodeId_position_witness :
  (forall i, [mkConn 10 None None; mkConn 11 None (Some 5)] !! i
             = Some (mkConn 11 None (Some 5)) ->
             getNodeId [mkConn 10 None None; mkConn 11 None (Some 5)]
               (ByConn (mkConn 11 None (Some 5))) = Some (Z.of_nat i))
  /\ (connId (mkConn 11 None (Some 5))
        ∉ connId <$> [mkConn 10 None None; mkConn 11 None (Some 5)] ->
      getNodeId [mkConn 10 None None; mkConn 11 None (Some 5)]
        (ByConn (mkConn 11 None (Some 5))) = nodeId (mkConn 11 None (Some 5))).
Proof.
  apply (getNodeId_position [mkConn 10 None None; mkConn 11 None (Some 5)]
           (mkConn 11 None (Some 5))).
  apply (bool_decide_unpack _). vm_compute. exact I.
Defined.

Lemma delete_past_end {A : Type} (i : nat) (l : list A) :
  (length l <= i)%nat -> delete i l = l.
Proof.
  revert i. induction l as [|a l IH]; intros [|i] Hle; simpl in *; try reflexivity; [lia|].
  f_equal. apply IH. lia.
Qed.

Lemma splice1_at {A : Type} (i : nat) (l : list A) :
  splice1 (Some (Z.of_nat i)) l = delete i l.
Proof.
  unfold splice1. simpl. destruct (Z.ltb_spec (Z.of_nat i) 0); [lia|].
  destruct (Z.min_spec (Z.of_nat i) (Z.of_nat (length l))) as [[Hlt ->]|[Hge ->]].
  - rewrite Nat2Z.id. reflexivity.
  - rewrite Nat2Z.id. rewrite !delete_past_end; [reflexivity | lia | lia].
Qed.

Lemma NoDup_delete {A : Type} (i : nat) (l : list A) : NoDup l -> NoDup (delete i l).
Proof. intros H. exact (sublist_NoDup _ _ H (sublist_delete l i)). Qed.

Lemma fmap_delete {A B : Type} (f : A -> B) (i : nat) (l : list A) :
  f <$> delete i l = delete i (f <$> l).
Proof.
  revert i. induction l as [|a l IH]; intros [|i]; simpl; try reflexivity.
  f_equal. apply IH.
Qed.

(** X10: Removing a connection of the set removes its position from
    [this.nodes] and [this.ports] alike, and the connections that remain
    are identified by their new positions. *)
Theorem remove_by_connection {Port : Type} (nodes : list Conn) (ports : list Port)
    (i : nat) (c : Conn) :
  NoDup (connId <$> nodes) -> nodes !! i = Some c ->
  remove nodes ports (ByConn c) = (delete i nodes, delete i ports)
  /\ forall (j : nat) (c' : Conn),
       (remove nodes ports (ByConn c)).1 !! j = Some c' ->
       getNodeId (remove nodes ports (ByConn c)).1 (ByConn c') = Some (Z.of_nat j).
Proof.
  intros Hnd Hi.
  assert (E : remove nodes ports (ByConn c) = (delete i nodes, delete i ports)).
  { unfold remove. rewrite (getNodeId_member nodes i c Hnd Hi), !splice1_at. reflexivity. }
  split; [exact E|]. rewrite E. simpl. intros j c' Hj.
  apply getNodeId_member; [|exact Hj].
  rewrite fmap_delete. apply NoDup_delete, Hnd.
Qed.

Lemma remove_by_connection_witness :
  remove [mkConn 10 None None; mkConn 11 None (Some 5); mkConn 12 None None]
    [27017%N; 27018%N; 27019%N] (ByConn (mkConn 11 None (Some 5)))
  = ([mkConn 10 None None; mkConn 12 None None], [27017%N; 27019%N]).
Proof.
  apply (proj1 (remove_by_connection
                  [mkConn 10 None None; mkConn 11 None (Some 5); mkConn 12 None None]
                  [27017%N; 27018%N; 27019%N] 1 (mkConn 11 None (Some 5))
                  ltac:(apply (bool_decide_unpack _); vm_compute; exact I) eq_refl)).
Defined.

(** X11: A reference that [getNodeId] cannot resolve makes [remove] take away
    the first member: an [undefined] start of [splice] counts as 0. *)
Theorem remove_unresolved {Port : Type} (nodes : list Conn) (ports : list Port)
    (node : NodeRef) :
  getNodeId nodes node = None ->
  remove nodes ports node = (drop 1 nodes, drop 1 ports).
Proof.
  intros Hn. unfold remove. rewrite Hn. unfold splice1. simpl.
  assert (H0 : forall len : Z, 0 <= len -> Z.to_nat (Z.min 0 len) = 0%nat) by (intros; lia).
  rewrite !H0 by lia. destruct nodes, ports; reflexivity.
Qed.

Lemma remove_unresolved_witness :
  remove [mkConn 10 (Some 7%nat) None; mkConn 11 (Some 8%nat) None]
    [27017%N; 27018%N] (ByObjectId 9)
  = ([mkConn 11 (Some 8%nat) None], [27018%N]).
Proof.
  apply (remove_unresolved [mkConn 10 (Some 7%nat) None; mkConn 11 (Some 8%nat) None]
           [27017%N; 27018%N] (ByObjectId 9) eq_refl).
Defined.

Section Config.
Variable extend : gmap string JsValue -> gmap string JsValue -> gmap string JsValue.
Hypothesis extend_copies : copiesProperties extend.

Lemma member_lookup (host : string) (nodeOptions : nat -> option NodeOptions)
    (i : nat) (port : N) (k : string) :
  member extend host nodeOptions i port !! k
  = match rsConfigAt nodeOptions i !! k with
    | Some v => Some v
    | None =>
        if String.eqb k "host" then Some (Str (hostPort host port))
        else if String.eqb k "_id" then Some (Number (Z.of_nat i))
        else if String.eqb k "arbiterOnly"
             then match nodeOptions i with
                  | Some nodeOpts =>
                      if truthy (arbiter nodeOpts) then Some (Boolean true) else None
                  | None => None
                  end
             else None
    end.
Proof.
  unfold member, rsConfigAt.
  assert (Hbase : forall base' : gmap string JsValue,
             base' = <["host"%string := Str (hostPort host port)]>
                       (<["_id"%string := Number (Z.of_nat i)]> ∅) ->
             base' !! k
             = if String.eqb k "host" then Some (Str (hostPort host port))
               else if String.eqb k "_id" then Some (Number (Z.of_nat i)) else None).
  { intros base' ->. destruct (String.eqb_spec k "host") as [->|Hh].
    - apply lookup_insert_eq.
    - rewrite lookup_insert_ne by congruence.
      destruct (String.eqb_spec k "_id") as [->|Hi].
      + apply lookup_insert_eq.
      + rewrite lookup_insert_ne by congruence. apply lookup_empty. }
  assert (Harb : forall base' : gmap string JsValue,
             base' = <["host"%string := Str (hostPort host port)]>
                       (<["_id"%string := Number (Z.of_nat i)]> ∅) ->
             (<["arbiterOnly"%string := Boolean true]> base') !! k
             = if String.eqb k "host" then Some (Str (hostPort host port))
               else if String.eqb k "_id" then Some (Number (Z.of_nat i))
               else if String.eqb k "arbiterOnly" then Some (Boolean true) else None).
  { intros base' Hb. destruct (String.eqb_spec k "arbiterOnly") as [->|Ha].
    - rewrite lookup_insert_eq. reflexivity.
    - rewrite lookup_insert_ne by congruence. rewrite (Hbase _ Hb).
      destruct (String.eqb k "host"), (String.eqb k "_id"); reflexivity. }
  destruct (nodeOptions i) as [[arb [extra|]]|]; simpl.
  - rewrite extend_copies. destruct (extra !! k) as [v|]; [reflexivity|].
    destruct (truthy arb); [rewrite (Harb _ eq_refl) | rewrite (Hbase _ eq_refl)];
      destruct (String.eqb k "host"), (String.eqb k "_id"), (String.eqb k "arbiterOnly");
      reflexivity.
  - rewrite lookup_empty.
    destruct (truthy arb); [rewrite (Harb _ eq_refl) | rewrite (Hbase _ eq_refl)];
      destruct (String.eqb k "host"), (String.eqb k "_id"), (String.eqb k "arbiterOnly");
      reflexivity.
  - rewrite lookup_empty, (Hbase _ eq_refl).
    destruct (String.eqb k "host"), (String.eqb k "_id"), (String.eqb k "arbiterOnly");
      reflexivity.
Qed.

End Config.

(** X12: The members of the configuration document, for an [Object.extend]
    that copies every property of its second argument onto the first: one
    member per port, in order, each with every property of its [rsConfig],
    which takes precedence, and otherwise with its position as [_id] and
    the host string of [nodeList()] at its position. *)
Theorem getReplSetConfig_members
    (extend : gmap string JsValue -> gmap string JsValue -> gmap string JsValue)
    (name host : string) (ports : list N)
    (instanceProtocolVersion : JsValue) (nodeOptions : nat -> option NodeOptions)
    (legacy : bool) (configSettings : JsValue) (i : nat) (port : N) :
  copiesProperties extend ->
  ports !! i = Some port ->
  length (members (getReplSetConfig extend name host ports instanceProtocolVersion
                     nodeOptions legacy configSettings)) = length ports
  /\ exists m,
       members (getReplSetConfig extend name host ports instanceProtocolVersion
                  nodeOptions legacy configSettings) !! i = Some m
       /\ (forall k v, rsConfigAt nodeOptions i !! k = Some v -> m !! k = Some v)
       /\ (rsConfigAt nodeOptions i !! "_id"%string = None ->
           m !! "_id"%string = Some (Number (Z.of_nat i)))
       /\ (rsConfigAt nodeOptions i !! "host"%string = None ->
           m !! "host"%string = Str <$> nodeList host ports !! i).
Proof.
  intros Hext Hp. simpl. split; [apply length_imap|].
  exists (member extend host nodeOptions i port).
  split; [rewrite list_lookup_imap, Hp; reflexivity|].
  split; [|split].
  - intros k v Hk. rewrite (member_lookup extend Hext), Hk. reflexivity.
  - intros Hk. rewrite (member_lookup extend Hext), Hk. reflexivity.
  - intros Hk. rewrite (member_lookup extend Hext), Hk. unfold nodeList.
    rewrite list_lookup_fmap, Hp. reflexivity.
Qed.

Lemma union_copiesProperties :
  copiesProperties (fun dst src : gmap string JsValue => src ∪ dst).
Proof.
  intros dst src k. rewrite lookup_union. destruct (src !! k), (dst !! k); reflexivity.
Qed.

Lemma getReplSetConfig_members_witness :
  exists m,
    members (getReplSetConfig (fun dst src => src ∪ dst)
               "rs0" "localhost" [27017%N; 27018%N] Undefined
               (fun i => if (i =? 1)%nat
                         then Some (mkNodeOptions (Boolean true)
                                      (Some {[ "priority"%string := Number 0 ]}))
                         else None)
               false (Boolean false)) !! 1%nat = Some m
    /\ m !! "priority"%string = Some (Number 0)
    /\ m !! "_id"%string = Some (Number 1)
    /\ m !! "host"%string = Some (Str "localhost:27018")
    /\ m !! "arbiterOnly"%string = Some (Boolean true).
Proof.
  destruct (proj2 (getReplSetConfig_members (fun dst src => src ∪ dst)
                     "rs0" "localhost" [27017%N; 27018%N] Undefined
                     (fun i => if (i =? 1)%nat
                               then Some (mkNodeOptions (Boolean true)
                                            (Some {[ "priority"%string := Number 0 ]}))
                               else None)
                     false (Boolean false) 1 27018%N union_copiesProperties eq_refl))
    as (m & Hm & Hextra & Hid & Hhost).
  exists m. split; [exact Hm|].
  split; [apply Hextra; reflexivity|].
  split; [apply Hid; reflexivity|].
  split; [rewrite Hhost by reflexivity; reflexivity|].
  injection Hm as <-. reflexivity.
Defined.

(** X13: A connection that was removed still carries the [nodeId] that [start]
    gave it, its old position: [getNodeId] resolves it to that position,
    which now holds the member that followed it. *)
Theorem getNodeId_after_remove {Port : Type} (nodes : list Conn) (ports : list Port)
    (i : nat) (c : Conn) :
  NoDup (connId <$> nodes) -> nodes !! i = Some c -> nodeId c = Some (Z.of_nat i) ->
  getNodeId (remove nodes ports (ByConn c)).1 (ByConn c) = Some (Z.of_nat i)
  /\ (remove nodes ports (ByConn c)).1 !! i = nodes !! S i
  /\ (remove nodes ports (ByConn c)).2 !! i = ports !! S i.
Proof.
  intros Hnd Hi Hid. unfold remove.
  rewrite (getNodeId_member nodes i c Hnd Hi), !splice1_at. simpl.
  split; [|split; apply list_lookup_delete_ge; lia].
  unfold getNodeId.
  destruct (list_find (fun x => connId x = connId c) (delete i nodes)) as [[j x]|] eqn:Hf;
    [|exact Hid].
  exfalso. apply list_find_Some in Hf as (Hj & Heq & _).
  rewrite list_lookup_delete in Hj.
  assert (Hne : (if decide (j < i)%nat then j else S j) <> i)
    by (destruct (decide (j < i)%nat); lia).
  apply Hne. eapply NoDup_lookup; [exact Hnd| |].
  - rewrite list_lookup_fmap, Hj. reflexivity.
  - rewrite list_lookup_fmap, Hi. simpl. congruence.
Qed.

Lemma getNodeId_after_remove_witness :
  getNodeId (remove [mkConn 10 None (Some 0); mkConn 11 None (Some 1);
                     mkConn 12 None (Some 2)]
               [27017%N; 27018%N; 27019%N] (ByConn (mkConn 11 None (Some 1)))).1
    (ByConn (mkConn 11 None (Some 1))) = Some 1
  /\ (remove [mkConn 10 None (Some 0); mkConn 11 None (Some 1); mkConn 12 None (Some 2)]
        [27017%N; 27018%N; 27019%N] (ByConn (mkConn 11 None (Some 1)))).1 !! 1%nat
     = Some (mkConn 12 None (Some 2))
  /\ (remove [mkConn 10 None (Some 0); mkConn 11 None (Some 1); mkConn 12 None (Some 2)]
        [27017%N; 27018%N; 27019%N] (ByConn (mkConn 11 None (Some 1)))).2 !! 1%nat
     = Some 27019%N.
Proof.
  apply (getNodeId_after_remove
           [mkConn 10 None (Some 0); mkConn 11 None (Some 1); mkConn 12 None (Some 2)]
           [27017%N; 27018%N; 27019%N] 1 (mkConn 11 None (Some 1))
           ltac:(apply (bool_decide_unpack _); vm_compute; exact I) eq_refl eq_refl).
Defined.

End MembershipTheory.

(** ** _waitForIndicator, and the waiting and signal arguments of start, stop and restart *)

Module IndicatorTheory.
Import Leadership Timeouts LeaderWaits Indicator.


Section Wait.
Context {Node : Type} `{EqDecision Node}.
Variables hostOf nameOf : Node -> option string.


Lemma scanMembers_not_a_number (node : Node) (st : JsValue) (states : list JsValue)
    (members : list Member) :
  (forall z, st <> Number z) ->
  Exists (fun m => named hostOf nameOf node m = true) members ->
  scanMembers hostOf nameOf (Some node) (st :: states) members = Throw.
Proof.
  intros Hst. induction 1 as [m rest Hn|m rest _ IH]; simpl; unfold cbind.
  - rewrite Hn. destruct st; try reflexivity. destruct (Hst z). reflexivity.
  - destruct (named hostOf nameOf node m); [|exact IH].
    destruct st; try reflexivity. destruct (Hst z). reflexivity.
Qed.

Lemma indicatorPass_eq (nodes : list Node) (node : option Node) (states : list JsValue)
    (liveNodes : LiveNodes Node) (o : StatusObs) :
  (indicatorPass hostOf nameOf nodes node states liveNodes o).2
  = match (statusTarget nodes (scan o)).2 with
    | Throw => Normal false
    | Normal conn =>
        match statusOf o conn with
        | Normal (Some members) => scanMembers hostOf nameOf node states members
        | _ => Normal false
        end
    end.
Proof.
  unfold indicatorPass, statusTarget.
  destruct (_callIsMaster (probesOf nodes (scan o))) as [ln [m|]]; simpl.
  - destruct (statusOf o m) as [[members|]|]; reflexivity.
  - destruct (head (slaves ln)) as [conn|]; simpl; [|reflexivity].
    destruct (statusOf o conn) as [[members|]|]; reflexivity.
Qed.


Lemma scanMembers_not_named (node : Node) (states : list JsValue) (members : list Member) :
  ~ Exists (fun m => named hostOf nameOf node m = true) members ->
  scanMembers hostOf nameOf (Some node) states members = Normal false.
Proof.
  induction members as [|m rest IH]; intros Hno; simpl; [reflexivity|].
  unfold cbind. destruct (named hostOf nameOf node m) eqn:Hn.
  - destruct Hno. left. exact Hn.
  - apply IH. intros Hex. apply Hno. right. exact Hex.
Qed.

Lemma indicatorPass_liveNodes (nodes : list Node) (node : option Node)
    (states : list JsValue) (liveNodes : LiveNodes Node) (o : StatusObs) :
  (indicatorPass hostOf nameOf nodes node states liveNodes o).1
  = (_callIsMaster (probesOf nodes (scan o))).1.
Proof.
  unfold indicatorPass.
  destruct (_callIsMaster (probesOf nodes (scan o))) as [ln [m|]]; simpl.
  - destruct (statusOf o m) as [[members|]|]; reflexivity.
  - destruct (head (slaves ln)) as [conn|]; simpl; [|reflexivity].
    destruct (statusOf o conn) as [[members|]|]; reflexivity.
Qed.

Lemma indicatorPass_not_listed (nodes : list Node) (node : Node) (states : list JsValue)
    (liveNodes : LiveNodes Node) (o : StatusObs) :
  ~ listsNode hostOf nameOf nodes node o ->
  (indicatorPass hostOf nameOf nodes (Some node) states liveNodes o).2 = Normal false.
Proof.
  intros Hno. rewrite indicatorPass_eq.
  destruct ((statusTarget nodes (scan o)).2) as [conn|] eqn:Ht; [|reflexivity].
  destruct (statusOf o conn) as [[members|]|] eqn:Hs; try reflexivity.
  apply scanMembers_not_named. intros Hex. apply Hno. exists conn, members. auto.
Qed.

Lemma soon_not_listed (nodes : list Node) (node : Node) (states : list JsValue)
    (before rest : list StatusObs) (liveNodes : LiveNodes Node) :
  Forall (fun o => ~ listsNode hostOf nameOf nodes node o) before ->
  soon (indicatorPass hostOf nameOf nodes (Some node) states) liveNodes (before ++ rest)
  = soon (indicatorPass hostOf nameOf nodes (Some node) states)
      (default liveNodes
         (last ((fun o => (_callIsMaster (probesOf nodes (scan o))).1) <$> before)))
      rest.
Proof.
  intros Hb. revert liveNodes. induction Hb as [|o before Ho _ IH]; intros liveNodes.
  - reflexivity.
  - cbn [app soon].
    pose proof (indicatorPass_not_listed nodes node states liveNodes o Ho) as Hr.
    pose proof (indicatorPass_liveNodes nodes (Some node) states liveNodes o) as Hl.
    destruct (indicatorPass hostOf nameOf nodes (Some node) states liveNodes o) as [ln r].
    simpl in Hr, Hl. subst r ln. rewrite IH. f_equal.
    destruct before as [|o' before]; [reflexivity|].
    rewrite !fmap_cons, last_cons_cons.
    destruct (last (_ :: _)) as [ln|] eqn:Hlast; [reflexivity|].
    apply last_None in Hlast. discriminate.
Qed.

(** X15: A first state that is not a number ends the wait by the [Error] of the
    predicate, not by the timeout, at the first attempt in which the status
    lists an entry named as the node, whatever the later attempts would
    give; [liveNodes] is then as the scan of that attempt left it. So does
    an empty array of states, which the function wraps into a one-element
    array. As long as no attempt lists the node, the wait goes on, and it
    ends by the timeout when none does. *)
Theorem waitForIndicator_state_not_a_number (nodes : list Node) (node : Node)
    (states : StatesArg) (st : JsValue) (liveNodes : LiveNodes Node)
    (before : list StatusObs) (o : StatusObs) (later : list StatusObs) :
  head (statesOf states) = Some st ->
  (forall z, st <> Number z) ->
  Forall (fun o' => ~ listsNode hostOf nameOf nodes node o') before ->
  listsNode hostOf nameOf nodes node o ->
  _waitForIndicator hostOf nameOf nodes (ByConn node) states liveNodes
    (before ++ o :: later)
  = ((_callIsMaster (probesOf nodes (scan o))).1, PredicateRaised)
  /\ (_waitForIndicator hostOf nameOf nodes (ByConn node) states liveNodes before).2
     = TimedOut
  /\ statesOf (StateArray []) = [Object_].
Proof.
  intros Hhead Hst Hbefore (conn & members & Htarget & Hstatus & Hex).
  unfold _waitForIndicator. cbn [resolve]. split; [|split; [|reflexivity]].
  - rewrite (soon_not_listed nodes node (statesOf states) before (o :: later) liveNodes
               Hbefore).
    cbn [soon].
    pose proof (indicatorPass_eq nodes (Some node) (statesOf states)
                  (default liveNodes
                     (last ((fun o => (_callIsMaster (probesOf nodes (scan o))).1)
                              <$> before))) o) as Hp.
    pose proof (indicatorPass_liveNodes nodes (Some node) (statesOf states)
                  (default liveNodes
                     (last ((fun o => (_callIsMaster (probesOf nodes (scan o))).1)
                              <$> before))) o) as Hl.
    rewrite Htarget, Hstatus in Hp.
    destruct (statesOf states) as [|st' rest]; [discriminate|].
    injection Hhead as ->.
    rewrite (scanMembers_not_a_number node st rest members Hst Hex) in Hp.
    destruct (indicatorPass hostOf nameOf nodes (Some node) (st :: rest) _ o) as [ln r].
    simpl in Hp, Hl. subst r ln. reflexivity.
  - pose proof (soon_not_listed nodes node (statesOf states) before [] liveNodes Hbefore)
      as Hs.
    rewrite app_nil_r in Hs. rewrite Hs. reflexivity.
Qed.

End Wait.


Lemma waitForIndicator_state_not_a_number_witness :
  _waitForIndicator (fun n : nat => Some (pretty n)) (fun _ => None) [0%nat; 1%nat]
    (ByConn 1%nat) (StateArray []) _clearLiveNodes
    [ {| scan := fun n => Normal (n =? 0)%nat;
         statusOf := fun _ => Normal (Some [mkMember "0" (Some 1)]) |};
      {| scan := fun n => Normal (n =? 0)%nat;
         statusOf := fun _ =>
           Normal (Some [mkMember "0" (Some 1); mkMember "1" (Some 2)]) |};
      {| scan := fun n => Normal (n =? 0)%nat;
         statusOf := fun _ => Throw |} ]
  = ({| master := Some 0%nat; slaves := [1%nat] |}, PredicateRaised).
Proof.
  apply (proj1 (waitForIndicator_state_not_a_number
                  (fun n : nat => Some (pretty n)) (fun _ => None)
                  [0%nat; 1%nat] 1%nat (StateArray []) Object_ _clearLiveNodes
                  [ {| scan := fun n => Normal (n =? 0)%nat;
                       statusOf := fun _ => Normal (Some [mkMember "0" (Some 1)]) |} ]
                  {| scan := fun n => Normal (n =? 0)%nat;
                     statusOf := fun _ =>
                       Normal (Some [mkMember "0" (Some 1); mkMember "1" (Some 2)]) |}
                  [ {| scan := fun n => Normal (n =? 0)%nat;
                       statusOf := fun _ => Throw |} ]
                  eq_refl ltac:(discriminate)
                  ltac:(constructor; [|constructor];
                        intros (conn & members & _ & [= <-] & Hex);
                        apply Exists_cons in Hex as [Hex|Hex];
                        [discriminate Hex | inversion Hex])
                  ltac:(exists 0%nat, [mkMember "0" (Some 1); mkMember "1" (Some 2)];
                        split; [reflexivity|]; split; [reflexivity|];
                        right; left; reflexivity))).
Defined.

Lemma normalizeWait_cases (wait : JsValue) :
  normalizeWait wait
  = match wait with
    | Number z => if z =? 0 then -1 else z
    | w => if truthy w then 0 else -1
    end.
Proof.
  unfold normalizeWait, js_or. destruct wait as [| |b|z|s| |]; simpl; try reflexivity.
  - destruct b; reflexivity.
  - destruct (z =? 0); reflexivity.
  - destruct (String.eqb s "") eqn:Hs; simpl; rewrite ?Hs; reflexivity.
Qed.

(** X16: [start] waits for the node to be up exactly when [wait] is truthy and
    not a negative number: [wait = 0] does not wait. When it waits with a
    [wait] that is not a number, the timeout it passes on is 0, which the
    wait replaces by [kDefaultTimeoutMS], never assigned on an instance. *)
Theorem start_waits_for_health (data : string -> JsValue) (wait : JsValue) :
  (waitsForHealth wait = true
   <-> truthy wait = true /\ forall z, wait = Number z -> 0 < z)
  /\ (waitsForHealth wait = true ->
      healthTimeout (instance data) wait
      = match wait with Number z => Number z | _ => Undefined end).
Proof.
  unfold waitsForHealth, healthTimeout. rewrite normalizeWait_cases. split.
  - destruct wait as [| |b|z|s| |]; simpl;
      try (split; [discriminate | intros [[=] _]]);
      try (split; [intros _; split; [reflexivity | discriminate] | reflexivity]).
    + destruct b; simpl; split; try discriminate; try (intros [[=] _]);
        [intros _; split; [reflexivity | discriminate] | reflexivity].
    + destruct (Z.eqb_spec z 0) as [->|Hz]; simpl.
      * split; [discriminate | intros [[=] _]].
      * rewrite Z.leb_le. split.
        -- intros Hle. split; [reflexivity|]. intros z' [= <-]. lia.
        -- intros [_ Hpos]. specialize (Hpos z eq_refl). lia.
    + destruct (String.eqb s ""); simpl; split; try discriminate; try (intros [[=] _]);
        [intros _; split; [reflexivity | discriminate] | reflexivity].
  - destruct wait as [| |b|z|s| |]; simpl; try discriminate; try reflexivity.
    + destruct b; [reflexivity | discriminate].
    + destruct (Z.eqb_spec z 0) as [->|Hz]; simpl; [discriminate|].
      intros _. unfold defaulted, js_or. simpl.
      destruct (Z.eqb_spec z 0); [contradiction | reflexivity].
    + destruct (String.eqb s ""); [discriminate | reflexivity].
Qed.

Lemma takenForFlag_signal (k : Z) : takenForFlag (Signal k) = true <-> k = 0 \/ k = 1.
Proof. unfold takenForFlag; simpl. lia. Qed.

(** X17: [stop] and [restart] take a signal number 0 or 1 for the wait flag that
    may stand in its place: the signal is dropped, and [restart] then waits
    as for [wait = 1] or [wait = 0], whatever [wait] it was given. Any
    other signal number is passed on with the given [wait]. *)
Theorem restart_numeric_signal (k : Z) (wait : JsValue) :
  (k = 0 \/ k = 1 ->
   stopSignal (Signal k) = NoSignal
   /\ (restartArgs (Signal k) wait).1 = NoSignal
   /\ waitsForHealth (restartArgs (Signal k) wait).2 = bool_decide (k = 1))
  /\ (k <> 0 /\ k <> 1 ->
      stopSignal (Signal k) = Signal k
      /\ restartArgs (Signal k) wait = (Signal k, wait)).
Proof.
  unfold stopSignal, restartArgs. split.
  - intros Hk. rewrite (proj2 (takenForFlag_signal k) Hk). simpl.
    split; [reflexivity|]. split; [reflexivity|].
    destruct Hk as [-> | ->]; reflexivity.
  - intros [H0 H1].
    destruct (takenForFlag (Signal k)) eqn:Ht; [|auto].
    apply takenForFlag_signal in Ht. lia.
Qed.

End IndicatorTheory.

(** ** checkReplicatedDataHashes: the flush database, the collections to dump, the lock *)

Module DataHashesTheory.
Import DataHashes.

Lemma arraySymmetricDifference_elem {A : Type} `{EqDecision A} (a b : list A) (x : A) :
  x ∈ arraySymmetricDifference a b <-> (x ∈ a /\ x ∉ b) \/ (x ∈ b /\ x ∉ a).
Proof.
  unfold arraySymmetricDifference. rewrite elem_of_app, !list_elem_of_filter. tauto.
Qed.

Lemma arraySymmetricDifference_nil {A : Type} `{EqDecision A} (a b : list A) :
  NoDup a -> NoDup b -> arraySymmetricDifference a b = [] -> length a = length b.
Proof.
  intros Ha Hb Hnil. apply Permutation_length, NoDup_Permutation; [exact Ha | exact Hb|].
  intros x.
  assert (Hx : x ∉ arraySymmetricDifference a b) by (rewrite Hnil; apply not_elem_of_nil).
  rewrite arraySymmetricDifference_elem in Hx.
  destruct (decide (x ∈ a)), (decide (x ∈ b)); tauto.
Qed.

(** X18: The collections dumped when the two members report a different number
    of collections are those that one member has and the other lacks, and
    there is at least one of them. *)
Theorem arraySymmetricDifference_of_collections (p s : gmap string string) :
  (forall c, c ∈ arraySymmetricDifference (DbHash.keys p) (DbHash.keys s)
             <-> (is_Some (p !! c) /\ s !! c = None) \/ (is_Some (s !! c) /\ p !! c = None))
  /\ (length (DbHash.keys p) <> length (DbHash.keys s) ->
      arraySymmetricDifference (DbHash.keys p) (DbHash.keys s) <> []).
Proof.
  assert (Hkeys : forall (m : gmap string string) c, c ∈ DbHash.keys m <-> is_Some (m !! c)).
  { intros m c. unfold DbHash.keys. rewrite list_elem_of_fmap. split.
    - intros ([k v] & -> & Hin). apply elem_of_map_to_list in Hin. simpl. eauto.
    - intros [v Hv]. exists (c, v). split; [reflexivity|].
      apply elem_of_map_to_list. exact Hv. }
  split.
  - intros c. rewrite arraySymmetricDifference_elem, !Hkeys.
    rewrite <- !eq_None_not_Some. reflexivity.
  - intros Hlen Hnil. apply Hlen.
    apply arraySymmetricDifference_nil; [| |exact Hnil];
      unfold DbHash.keys; apply NoDup_fst_map_to_list.
Qed.

Lemma generateUniqueDbName_returns (dbNames : gset string) (prefix : string)
    (draws : list N) (name : string) :
  generateUniqueDbName dbNames prefix draws = Some name
  <-> exists before draw after,
        draws = before ++ draw :: after
        /\ Forall (fun d => (prefix +:+ pretty d) ∈ dbNames) before
        /\ ((prefix +:+ pretty draw) ∉ dbNames)
        /\ name = prefix +:+ pretty draw.
Proof.
  induction draws as [|d rest IH]; simpl.
  - split; [discriminate | intros ([|? ?] & ? & ? & [=] & _)].
  - case_bool_decide as Hd.
    + rewrite IH. split.
      * intros (before & draw & after & -> & Hb & Hfree & ->).
        exists (d :: before), draw, after. split; [reflexivity|].
        split; [constructor; assumption | auto].
      * intros ([|d' before] & draw & after & Heq & Hb & Hfree & ->);
          injection Heq as <- ->; [contradiction|].
        apply Forall_cons in Hb as [_ Hb]. exists before, draw, after. auto.
    + split.
      * intros [= <-]. exists [], d, rest. split; [reflexivity|].
        split; [constructor | auto].
      * intros ([|d' before] & draw & after & Heq & Hb & Hfree & ->);
          injection Heq as <- ->; [reflexivity|].
        apply Forall_cons in Hb as [Hd' _]. contradiction.
Qed.

(** X19: The name of the database that the flush creates and drops is the
    prefix followed by the first draw, in the order of the calls, that
    gives a name no database of the primary has: every draw before it gave
    the name of an existing database. An existing database is therefore
    never chosen, and the loop ends exactly when such a draw comes. *)
Theorem generateUniqueDbName_first_free (dbNames : gset string) (prefix : string)
    (draws : list N) :
  (forall name,
      generateUniqueDbName dbNames prefix draws = Some name
      <-> exists before draw after,
            draws = before ++ draw :: after
            /\ Forall (fun d => (prefix +:+ pretty d) ∈ dbNames) before
            /\ ((prefix +:+ pretty draw) ∉ dbNames)
            /\ name = prefix +:+ pretty draw)
  /\ (forall name, generateUniqueDbName dbNames prefix draws = Some name -> name ∉ dbNames)
  /\ (is_Some (generateUniqueDbName dbNames prefix draws)
      <-> Exists (fun d => (prefix +:+ pretty d) ∉ dbNames) draws).
Proof.
  split; [intros name; apply generateUniqueDbName_returns|]. split.
  - intros name Hn. apply generateUniqueDbName_returns in Hn
      as (before & draw & after & _ & _ & Hfree & ->). exact Hfree.
  - induction draws as [|d rest IH]; simpl.
    + split; [intros [? [=]] | intros Hex; inversion Hex].
    + rewrite Exists_cons. case_bool_decide as Hd.
      * rewrite IH. split; [auto | intros [Hc|Hr]; [contradiction | exact Hr]].
      * split; [auto | eauto].
Qed.

Lemma lockedCheck_run {A : Type} (lockWorked : bool) (awaitReplication : completion A)
    (checkDBHashesForReplSet : completion unit) (unlockReply : completion bool) :
  lockedCheck lockWorked awaitReplication checkDBHashesForReplSet unlockReply
    {| trace := []; activeException := false |}
  = let body : list Event * option Exn :=
      if negb lockWorked then ([SendFsyncLock], Some LockFailed)
      else match awaitReplication with
           | Throw => ([SendFsyncLock; RunAwaitReplication], Some AwaitReplicationRaised)
           | Normal _ =>
               match checkDBHashesForReplSet with
               | Throw => ([SendFsyncLock; RunAwaitReplication; RunCheckDBHashes],
                           Some CheckDBHashesRaised)
               | Normal _ => ([SendFsyncLock; RunAwaitReplication; RunCheckDBHashes], None)
               end
           end in
    let active := bool_decide (is_Some body.2) in
    match unlockReply with
    | Throw => ({| trace := body.1 ++ [SendFsyncUnlock]; activeException := active |},
                Raise UnlockRaised)
    | Normal true =>
        ({| trace := body.1 ++ [SendFsyncUnlock]; activeException := active |},
         match body.2 with Some e => Raise e | None => Ok () end)
    | Normal false =>
        match body.2 with
        | Some e => ({| trace := body.1 ++ [SendFsyncUnlock; PrintUnlockFailure];
                        activeException := true |}, Raise e)
        | None => ({| trace := body.1 ++ [SendFsyncUnlock]; activeException := false |},
                   Raise UnlockFailed)
        end
    end.
Proof.
  destruct lockWorked, awaitReplication as [a|], checkDBHashesForReplSet as [[]|],
    unlockReply as [[|]|]; reflexivity.
Qed.

(** X20: The lock on the primary: whatever the lock command, the wait for
    replication and the comparison do, [fsyncUnlock] is sent exactly once,
    after everything else. The comparison runs only after the wait for
    replication has returned. The call returns exactly when all three
    succeeded and the unlock reply is ok; an exception of the guarded part
    is the one that leaves the call whenever the unlock command answers,
    and a failed unlock is then only printed. *)
Theorem checkDBHashes_always_unlocks (lockWorked runningWithoutJournaling : bool)
    (replication : AwaitReplication.Obs) (skipValidationOnInvalidViewDefinitions : bool)
    (dbBlacklist : list string) (dbs : list DbHash.DbObs) (unlockReply : completion bool) :
  let run := checkDBHashesGuarded lockWorked runningWithoutJournaling replication
               skipValidationOnInvalidViewDefinitions dbBlacklist dbs unlockReply in
  let replicated :=
    AwaitReplication.awaitReplication runningWithoutJournaling None replication in
  let compared :=
    DbHash.checkDBHashesForReplSet skipValidationOnInvalidViewDefinitions dbBlacklist dbs in
  (exists before after,
      trace run.1 = SendFsyncLock :: before ++ SendFsyncUnlock :: after
      /\ (SendFsyncUnlock ∉ before)
      /\ (after = [] \/ after = [PrintUnlockFailure]))
  /\ (RunCheckDBHashes ∈ trace run.1 -> lockWorked = true /\ exists v, replicated = Normal v)
  /\ (run.2 = Ok ()
      <-> lockWorked = true /\ (exists v, replicated = Normal v)
          /\ compared = Normal () /\ unlockReply = Normal true)
  /\ (forall ok, unlockReply = Normal ok ->
      (lockWorked = false -> run.2 = Raise LockFailed)
      /\ (lockWorked = true -> replicated = Throw -> run.2 = Raise AwaitReplicationRaised)
      /\ (lockWorked = true -> (exists v, replicated = Normal v) -> compared = Throw ->
          run.2 = Raise CheckDBHashesRaised)
      /\ (PrintUnlockFailure ∈ trace run.1 <-> ok = false /\ run.2 <> Raise UnlockFailed)).
Proof.
  intros run replicated compared. subst run. unfold checkDBHashesGuarded.
  rewrite lockedCheck_run. fold replicated compared.
  split; [|split; [|split]].
  - destruct lockWorked, replicated as [v|], compared as [[]|], unlockReply as [[|]|];
      cbn [negb fst snd trace app];
      first
        [ exists [], []; split; [reflexivity|]; split; [|auto]
        | exists [], [PrintUnlockFailure]; split; [reflexivity|]; split; [|auto]
        | exists [RunAwaitReplication], []; split; [reflexivity|]; split; [|auto]
        | exists [RunAwaitReplication], [PrintUnlockFailure]; split; [reflexivity|];
          split; [|auto]
        | exists [RunAwaitReplication; RunCheckDBHashes], []; split; [reflexivity|];
          split; [|auto]
        | exists [RunAwaitReplication; RunCheckDBHashes], [PrintUnlockFailure];
          split; [reflexivity|]; split; [|auto] ];
      apply (bool_decide_unpack _); exact I.
  - destruct lockWorked, replicated as [v|], compared as [[]|], unlockReply as [[|]|];
      cbn [negb fst snd trace app]; intros Hin;
      try (split; [reflexivity | eexists; reflexivity]);
      exfalso; revert Hin; apply (bool_decide_unpack _); exact I.
  - destruct lockWorked, replicated as [v|], compared as [[]|], unlockReply as [[|]|];
      cbn [negb fst snd trace app]; split;
      try discriminate;
      try (intros (Hl & (v' & Hv) & Hc & Hu); discriminate);
      try (intros _; split; [reflexivity|]; split; [eexists; reflexivity|];
           split; reflexivity);
      reflexivity.
  - intros ok ->. unfold replicated, compared.
    destruct lockWorked,
      (AwaitReplication.awaitReplication runningWithoutJournaling None replication) as [v|],
      (DbHash.checkDBHashesForReplSet skipValidationOnInvalidViewDefinitions
         dbBlacklist dbs) as [[]|], ok;
      cbn [negb fst snd trace app];
      (split; [|split; [|split]]);
      try discriminate; try reflexivity;
      try (intros _ [? [=]]); try (intros _ _; reflexivity);
      try (intros _; discriminate);
      try solve [ split;
                  [ intros Hin; exfalso; revert Hin; apply (bool_decide_unpack _); exact I
                  | intros [Hok _]; discriminate Hok ] ];
      try solve [ split; [intros _; split; [reflexivity | discriminate]|]; intros _;
                  apply (bool_decide_unpack _); exact I ];
      try solve [ split;
                  [ intros Hin; exfalso; revert Hin; apply (bool_decide_unpack _); exact I
                  | intros [_ Hne]; destruct Hne; reflexivity ] ].
Qed.

End DataHashesTheory.

(** ** dumpCollectionDiff: what a report accounts for *)

Module CollDiffReportTheory.
Import CollDiff CollDiffReport.

Section Merge.
Variable tojsononeline : option Doc -> string.

Local Abbreviation merge := (mergeFromTail tojsononeline).
Local Abbreviation line := (fun d : Doc => tojsononeline (Some d)).

(** The walk only adds to the three lists, and it uses up both arrays:
    each step passes over one document of each array, or reports one
    document as missing on the other side. *)
Lemma merge_grows (ps : list Doc) :
  forall (ss : list Doc) (r : Report),
    (length (mismatching r) <= length (mismatching (merge ps ss r)))%nat
    /\ (length (missingOnPrimary r) <= length (missingOnPrimary (merge ps ss r)))%nat
    /\ (length (missingOnSecondary r) <= length (missingOnSecondary (merge ps ss r)))%nat
    /\ (length ps + length (missingOnPrimary (merge ps ss r))
          + length (missingOnSecondary r)
        = length ss + length (missingOnSecondary (merge ps ss r))
          + length (missingOnPrimary r))%nat.
Proof.
  induction ps as [|p ps IHps]; intros ss; induction ss as [|s ss IHss]; intros r.
  - simpl. lia.
  - rewrite CollDiffTheory.merge_nil_cons.
    specialize (IHss (pushMissingOnPrimary (line s) r)).
    simpl in *. rewrite length_app in IHss. simpl in IHss. lia.
  - rewrite CollDiffTheory.merge_cons_nil.
    specialize (IHps [] (pushMissingOnSecondary (line p) r)).
    simpl in *. rewrite length_app in IHps. simpl in IHps. lia.
  - rewrite CollDiffTheory.merge_cons_cons. case_bool_decide as Heq.
    + specialize (IHps ss r). simpl. lia.
    + cbv zeta. destruct (_id p ?= _id s).
      * specialize (IHps ss (printMismatching (line p, line s) r)).
        simpl in *. rewrite length_app in IHps. simpl in IHps. lia.
      * specialize (IHss (pushMissingOnPrimary (line s)
                            (printMismatching (line p, line s) r))).
        simpl in *. rewrite !length_app in IHss. simpl in IHss. lia.
      * specialize (IHps (s :: ss) (pushMissingOnSecondary (line p)
                                      (printMismatching (line p, line s) r))).
        simpl in *. rewrite !length_app in IHps. simpl in IHps. lia.
Qed.

Lemma merge_unchanged (ps : list Doc) :
  forall (ss : list Doc) (r : Report), merge ps ss r = r -> ps = ss.
Proof.
  induction ps as [|p ps IHps]; intros ss; induction ss as [|s ss IHss]; intros r Hr.
  - reflexivity.
  - exfalso. rewrite CollDiffTheory.merge_nil_cons in Hr.
    pose proof (merge_grows [] ss (pushMissingOnPrimary (line s) r)) as (_ & H & _).
    rewrite Hr in H. simpl in H. rewrite length_app in H. simpl in H. lia.
  - exfalso. rewrite CollDiffTheory.merge_cons_nil in Hr.
    pose proof (merge_grows ps [] (pushMissingOnSecondary (line p) r)) as (_ & _ & H & _).
    rewrite Hr in H. simpl in H. rewrite length_app in H. simpl in H. lia.
  - rewrite CollDiffTheory.merge_cons_cons in Hr. case_bool_decide as Heq.
    + subst s. f_equal. exact (IHps ss r Hr).
    + exfalso. cbv zeta in Hr. destruct (_id p ?= _id s).
      * pose proof (merge_grows ps ss (printMismatching (line p, line s) r)) as (H & _).
        rewrite Hr in H. simpl in H. rewrite length_app in H. simpl in H. lia.
      * pose proof (merge_grows (p :: ps) ss
                      (pushMissingOnPrimary (line s)
                         (printMismatching (line p, line s) r))) as (H & _).
        rewrite Hr in H. simpl in H. rewrite length_app in H. simpl in H. lia.
      * pose proof (merge_grows ps (s :: ss)
                      (pushMissingOnSecondary (line p)
                         (printMismatching (line p, line s) r))) as (H & _).
        rewrite Hr in H. simpl in H. rewrite length_app in H. simpl in H. lia.
Qed.

Lemma absentFrom_nil (docs : list Doc) : absentFrom [] docs = docs.
Proof.
  unfold absentFrom. induction docs as [|d docs IH]; [reflexivity|].
  rewrite filter_cons_True by apply not_elem_of_nil. f_equal. exact IH.
Qed.

Lemma absentFrom_below (p : Doc) (others docs : list Doc) :
  Forall (fun e => _id e <> _id p) docs ->
  absentFrom (p :: others) docs = absentFrom others docs.
Proof.
  unfold absentFrom. induction 1 as [|d docs Hd _ IH]; [reflexivity|].
  rewrite !filter_cons, IH. rewrite fmap_cons.
  destruct (decide (_id d ∉ _id <$> others)) as [Hout|Hin].
  - rewrite decide_True; [reflexivity|]. rewrite not_elem_of_cons. auto.
  - rewrite decide_False; [reflexivity|]. rewrite not_elem_of_cons. tauto.
Qed.

Lemma absentFrom_above (others : list Doc) (s : Doc) (docs : list Doc) :
  Forall (fun e => _id e < _id s) others ->
  absentFrom others (s :: docs) = s :: absentFrom others docs.
Proof.
  intros Hlt. unfold absentFrom. rewrite filter_cons_True; [reflexivity|].
  intros Hin. apply list_elem_of_fmap in Hin as (e & He & Hin).
  rewrite Forall_forall in Hlt. specialize (Hlt e Hin). lia.
Qed.

Lemma absentFrom_same_key (p s : Doc) (ps ss : list Doc) :
  _id p = _id s ->
  Forall (fun e => _id e < _id s) ss ->
  absentFrom (p :: ps) (s :: ss) = absentFrom ps ss.
Proof.
  intros Heq Hlt. unfold absentFrom at 1. rewrite filter_cons_False.
  - apply absentFrom_below. eapply Forall_impl; [exact Hlt|]. simpl. intros e He. lia.
  - intros Hout. apply Hout. rewrite fmap_cons, Heq. apply elem_of_cons. left. reflexivity.
Qed.

Lemma merge_descending (ps : list Doc) :
  forall (ss : list Doc) (r : Report),
    descendingById ps -> descendingById ss ->
    missingOnPrimary (merge ps ss r)
    = missingOnPrimary r ++ map line (absentFrom ps ss)
    /\ missingOnSecondary (merge ps ss r)
       = missingOnSecondary r ++ map line (absentFrom ss ps).
Proof.
  induction ps as [|p ps IHps]; intros ss; induction ss as [|s ss IHss];
    intros r Hps Hss.
  - simpl. rewrite !app_nil_r. auto.
  - rewrite CollDiffTheory.merge_nil_cons. destruct Hss as [_ Hss].
    destruct (IHss (pushMissingOnPrimary (line s) r) I Hss) as [H1 H2].
    rewrite H1, H2, !absentFrom_nil. simpl. rewrite <- app_assoc. auto.
  - rewrite CollDiffTheory.merge_cons_nil. destruct Hps as [_ Hps].
    destruct (IHps [] (pushMissingOnSecondary (line p) r) Hps I) as [H1 H2].
    rewrite H1, H2, !absentFrom_nil. simpl. rewrite <- app_assoc. auto.
  - destruct Hps as [Hp Hps']. destruct Hss as [Hs Hss'].
    assert (Hboth : _id p = _id s -> forall r',
               missingOnPrimary r' = missingOnPrimary r ->
               missingOnSecondary r' = missingOnSecondary r ->
               missingOnPrimary (merge ps ss r')
               = missingOnPrimary r ++ map line (absentFrom (p :: ps) (s :: ss))
               /\ missingOnSecondary (merge ps ss r')
                  = missingOnSecondary r ++ map line (absentFrom (s :: ss) (p :: ps))).
    { intros Hid r' E1 E2. destruct (IHps ss r' Hps' Hss') as [H1 H2].
      rewrite H1, H2, E1, E2.
      rewrite (absentFrom_same_key p s ps ss Hid Hs).
      rewrite (absentFrom_same_key s p ss ps (eq_sym Hid) Hp). auto. }
    rewrite CollDiffTheory.merge_cons_cons. case_bool_decide as Heq.
    + subst s. apply Hboth; reflexivity.
    + cbv zeta. destruct (Z.compare_spec (_id p) (_id s)) as [Hid|Hlt|Hgt].
      * apply Hboth; [exact Hid | reflexivity | reflexivity].
      * destruct (IHss (pushMissingOnPrimary (line s)
                          (printMismatching (line p, line s) r))
                    (conj Hp Hps') Hss') as [H1 H2].
        rewrite H1, H2. simpl.
        rewrite (absentFrom_above (p :: ps) s ss).
        2:{ constructor; [exact Hlt|]. eapply Forall_impl; [exact Hp|].
            simpl. intros e He. lia. }
        rewrite (absentFrom_below s ss (p :: ps)).
        2:{ constructor; [lia|]. eapply Forall_impl; [exact Hp|].
            simpl. intros e He. lia. }
        simpl. rewrite <- app_assoc. auto.
      * destruct (IHps (s :: ss) (pushMissingOnSecondary (line p)
                                    (printMismatching (line p, line s) r))
                    Hps' (conj Hs Hss')) as [H1 H2].
        rewrite H1, H2. simpl.
        rewrite (absentFrom_above (s :: ss) p ps).
        2:{ constructor; [exact Hgt|]. eapply Forall_impl; [exact Hs|].
            simpl. intros e He. lia. }
        rewrite (absentFrom_below p ps (s :: ss)).
        2:{ constructor; [lia|]. eapply Forall_impl; [exact Hs|].
            simpl. intros e He. lia. }
        simpl. rewrite <- app_assoc. auto.
Qed.

End Merge.

Lemma descendingById_snoc (l : list Doc) (d : Doc) :
  descendingById l -> Forall (fun e => _id d < _id e) l -> descendingById (l ++ [d]).
Proof.
  induction l as [|a l IH]; simpl.
  - intros _ _. split; [constructor | exact I].
  - intros [Ha Hl] Hd. apply Forall_cons in Hd as [Hda Hd]. split.
    + apply Forall_app. split; [exact Ha|]. constructor; [exact Hda | constructor].
    + apply IH; assumption.
Qed.

Lemma sortedById_reverse (l : list Doc) : sortedById l -> descendingById (reverse l).
Proof.
  induction l as [|d l IH]; simpl; [intros _; exact I|].
  intros [Hd Hl]. rewrite reverse_cons. apply descendingById_snoc; [apply IH, Hl|].
  apply Forall_forall. intros e He. rewrite elem_of_reverse in He.
  rewrite Forall_forall in Hd. apply Hd, He.
Qed.

Lemma absentFrom_reverse (others docs : list Doc) :
  absentFrom (reverse others) (reverse docs) = reverse (absentFrom others docs).
Proof.
  unfold absentFrom. rewrite filter_reverse. f_equal.
  apply list_filter_iff. intros d. rewrite fmap_reverse.
  rewrite elem_of_reverse. reflexivity.
Qed.

(** X21: The walk always ends, within as many steps as the two arrays have
    documents, and never raises. Its report is empty exactly when the two
    arrays are the same, and it accounts for every document: the documents
    of the primary that are not reported missing on the secondary are as
    many as those of the secondary not reported missing on the primary. *)
Theorem dumpCollectionDiff_accounts (tojsononeline : option Doc -> string)
    (primaryDocs secondaryDocs : list Doc) (fuel : nat) :
  (length primaryDocs + length secondaryDocs <= fuel)%nat ->
  exists r,
    dumpCollectionDiff tojsononeline primaryDocs secondaryDocs fuel = Some (Normal r)
    /\ (r = noReport <-> primaryDocs = secondaryDocs)
    /\ (length primaryDocs + length (missingOnPrimary r)
        = length secondaryDocs + length (missingOnSecondary r))%nat.
Proof.
  intros Hfuel. eexists. split.
  { apply CollDiffTheory.dumpCollectionDiff_merge. exact Hfuel. }
  split.
  - split.
    + intros Hr. apply merge_unchanged in Hr.
      apply (f_equal reverse) in Hr. rewrite !reverse_involutive in Hr. exact Hr.
    + intros ->. apply CollDiffTheory.merge_same.
  - pose proof (merge_grows tojsononeline (reverse primaryDocs) (reverse secondaryDocs)
                  noReport) as (_ & _ & _ & H).
    rewrite !length_reverse in H. simpl in H. lia.
Qed.

Lemma dumpCollectionDiff_accounts_witness :
  exists r,
    dumpCollectionDiff renderContent [mkDoc 1 "a"; mkDoc 3 "c"]
      [mkDoc 1 "a"; mkDoc 2 "b"; mkDoc 3 "c"] 5 = Some (Normal r)
    /\ (r = noReport <-> [mkDoc 1 "a"; mkDoc 3 "c"] = [mkDoc 1 "a"; mkDoc 2 "b"; mkDoc 3 "c"])
    /\ (length [mkDoc 1 "a"; mkDoc 3 "c"] + length (missingOnPrimary r)
        = length [mkDoc 1 "a"; mkDoc 2 "b"; mkDoc 3 "c"] + length (missingOnSecondary r))%nat.
Proof.
  apply (dumpCollectionDiff_accounts renderContent [mkDoc 1 "a"; mkDoc 3 "c"]
           [mkDoc 1 "a"; mkDoc 2 "b"; mkDoc 3 "c"] 5).
  simpl. lia.
Defined.

(** X22: On arrays sorted by primary key, as the queries return them, the
    documents reported missing on the primary are exactly the documents of
    the secondary whose key the primary does not have, and the other way
    round; each list is printed from the largest key down. *)
Theorem dumpCollectionDiff_sorted_missing (tojsononeline : option Doc -> string)
    (primaryDocs secondaryDocs : list Doc) (fuel : nat) :
  sortedById primaryDocs -> sortedById secondaryDocs ->
  (length primaryDocs + length secondaryDocs <= fuel)%nat ->
  exists r,
    dumpCollectionDiff tojsononeline primaryDocs secondaryDocs fuel = Some (Normal r)
    /\ missingOnPrimary r
       = reverse (map (fun d => tojsononeline (Some d))
                    (absentFrom primaryDocs secondaryDocs))
    /\ missingOnSecondary r
       = reverse (map (fun d => tojsononeline (Some d))
                    (absentFrom secondaryDocs primaryDocs)).
Proof.
  intros Hp Hs Hfuel. eexists. split.
  { apply CollDiffTheory.dumpCollectionDiff_merge. exact Hfuel. }
  destruct (merge_descending tojsononeline (reverse primaryDocs) (reverse secondaryDocs)
              noReport (sortedById_reverse _ Hp) (sortedById_reverse _ Hs)) as [H1 H2].
  rewrite H1, H2, !absentFrom_reverse. simpl.
  split; apply (fmap_reverse (fun d => tojsononeline (Some d))).
Qed.

Lemma dumpCollectionDiff_sorted_missing_witness :
  exists r,
    dumpCollectionDiff renderContent [mkDoc 1 "a"; mkDoc 3 "c"; mkDoc 4 "d"]
      [mkDoc 1 "a"; mkDoc 2 "b"; mkDoc 3 "x"] 6 = Some (Normal r)
    /\ missingOnPrimary r = ["b"%string]
    /\ missingOnSecondary r = ["d"%string].
Proof.
  apply (dumpCollectionDiff_sorted_missing renderContent
           [mkDoc 1 "a"; mkDoc 3 "c"; mkDoc 4 "d"]
           [mkDoc 1 "a"; mkDoc 2 "b"; mkDoc 3 "x"] 6).
  - simpl. repeat constructor; lia.
  - simpl. repeat constructor; lia.
  - simpl. lia.
Defined.

End CollDiffReportTheory.

(** ** checkDBHashesForReplSet: the databases examined and the metadata compared *)

Module DbHashChecksTheory.
Import DbHash DbHashChecks.

Lemma checkDBs_examined (skip : bool) (dbBlacklist : list string) (dbs : list DbObs) :
  forall success,
    checkDBs skip dbBlacklist success dbs
    = checkDBs skip dbBlacklist success (filter (fun db => dbName db ∉ dbBlacklist) dbs).
Proof.
  induction dbs as [|db rest IH]; intros success; [reflexivity|].
  rewrite filter_cons. destruct (decide (dbName db ∉ dbBlacklist)) as [Hout|Hin].
  - cbn [checkDBs]. rewrite bool_decide_eq_false_2 by exact Hout.
    unfold cbind. destruct (primaryDBHash db) as [primaryReply|]; [|reflexivity].
    destruct (primaryCollInfo db) as [primaryInfos| |]; [| |reflexivity].
    + destruct (checkSecondaries primaryReply (primary db) primaryInfos success (slaves db))
        as [success'|]; [apply IH | reflexivity].
    + destruct skip; [apply IH | reflexivity].
  - cbn [checkDBs]. rewrite bool_decide_eq_true_2; [apply IH|].
    destruct (decide (dbName db ∈ dbBlacklist)); [assumption | contradiction].
Qed.

(** X23: The verification does not depend on the excluded databases or on
    [local]: whatever the members hold or reply for them, the outcome is
    that of the verification of the other databases. *)
Theorem checkDBHashes_skips_excluded (skip : bool) (dbBlacklist : list string)
    (dbs dbs' : list DbObs) :
  examined dbBlacklist dbs = examined dbBlacklist dbs' ->
  checkDBHashesForReplSet skip dbBlacklist dbs
  = checkDBHashesForReplSet skip dbBlacklist dbs'.
Proof.
  unfold examined, checkDBHashesForReplSet. intros Heq.
  rewrite (checkDBs_examined skip _ dbs), (checkDBs_examined skip _ dbs'), Heq.
  reflexivity.
Qed.

Lemma checkDBHashes_skips_excluded_witness :
  checkDBHashesForReplSet false ["admin"%string]
    [exampleDb "77c0" "a3d9";
     {| dbName := "local"; primaryDBHash := Throw; primaryCollInfo := OtherError;
        primary := exampleConn; slaves := [] |};
     {| dbName := "admin"; primaryDBHash := Throw; primaryCollInfo := OtherError;
        primary := exampleConn; slaves := [] |}]
  = checkDBHashesForReplSet false ["admin"%string] [exampleDb "77c0" "a3d9"].
Proof.
  apply (checkDBHashes_skips_excluded false ["admin"%string]
           [exampleDb "77c0" "a3d9";
            {| dbName := "local"; primaryDBHash := Throw; primaryCollInfo := OtherError;
               primary := exampleConn; slaves := [] |};
            {| dbName := "admin"; primaryDBHash := Throw; primaryCollInfo := OtherError;
               primary := exampleConn; slaves := [] |}]
           [exampleDb "77c0" "a3d9"]).
  vm_compute. reflexivity.
Defined.

Lemma statsDiffer_false (a b : CollStats) :
  statsDiffer a b = false
  <-> capped a = capped b /\ nindexes a = nindexes b /\ ns a = ns b.
Proof.
  unfold statsDiffer. rewrite !orb_false_iff, !negb_false_iff.
  rewrite Bool.eqb_true_iff, Z.eqb_eq, String.eqb_eq. tauto.
Qed.

Lemma compareStats_true (p s : Conn) (names : list string) (success : bool) :
  compareStats p s names success = Normal true
  <-> success = true /\ Forall (sameStats p s) names.
Proof.
  revert success. induction names as [|c rest IH]; intros success; simpl.
  - split; [intros [= ->]; auto | intros [-> _]; reflexivity].
  - rewrite Forall_cons. unfold cbind, sameStats at 1.
    destruct (collStats p c) as [ps|];
      [|split; [discriminate | intros (_ & (? & ? & [=] & _) & _)]].
    destruct (collStats s c) as [ss|];
      [|split; [discriminate | intros (_ & (? & ? & _ & [=] & _) & _)]].
    rewrite IH, DbHashTheory.failIf_true, statsDiffer_false. split.
    + intros [[Hst ->] Hrest]. split; [reflexivity|]. split; [|exact Hrest].
      exists ps, ss. tauto.
    + intros (-> & (ps' & ss' & [= <-] & [= <-] & Hst) & Hrest). tauto.
Qed.

Lemma compareInfo_true (secondaryInfo : CollInfo) (primaryInfos : list CollInfo)
    (success : bool) :
  fold_left
    (fun ok' primaryInfo =>
       if String.eqb (name secondaryInfo) (name primaryInfo)
       then failIf (negb (bool_decide (secondaryInfo = primaryInfo))) ok'
       else ok')
    primaryInfos success = true
  <-> success = true
      /\ Forall (fun primaryInfo =>
                   name secondaryInfo = name primaryInfo -> secondaryInfo = primaryInfo)
           primaryInfos.
Proof.
  revert success. induction primaryInfos as [|pi rest IH]; intros success; simpl.
  - split; [auto | tauto].
  - rewrite IH, Forall_cons. destruct (String.eqb_spec (name secondaryInfo) (name pi)) as [Hn|Hn].
    + rewrite DbHashTheory.failIf_true, negb_false_iff, bool_decide_eq_true. tauto.
    + tauto.
Qed.

Lemma compareInfos_true (primaryInfos secondaryInfos : list CollInfo) (success : bool) :
  compareInfos primaryInfos secondaryInfos success = true
  <-> success = true
      /\ Forall (fun secondaryInfo =>
                   Forall (fun primaryInfo =>
                             name secondaryInfo = name primaryInfo ->
                             secondaryInfo = primaryInfo) primaryInfos)
           secondaryInfos.
Proof.
  unfold compareInfos. revert success.
  induction secondaryInfos as [|si rest IH]; intros success; simpl.
  - split; [auto | tauto].
  - rewrite IH, compareInfo_true, Forall_cons. tauto.
Qed.

(** X24: A comparison with a secondary that leaves [success] true has found the
    secondary among the live members and, for every collection of the
    primary, capped ones included, the same [capped], [nindexes] and [ns]
    on both members; and every collection info of the secondary equal to
    the info of the same name on the primary, if there is one. *)
Theorem checkSecondary_metadata (primaryReply : DbHashReply) (primaryConn : Conn)
    (primaryInfos : list CollInfo) (success : bool) (o : SecondaryObs) :
  checkSecondary primaryReply primaryConn primaryInfos success o = Normal true ->
  exists secondaryConn,
    secondary o = Some secondaryConn
    /\ Forall (sameStats primaryConn secondaryConn) (keys (collections primaryReply))
    /\ forall secondaryInfo primaryInfo,
         secondaryInfo ∈ getCollectionInfos secondaryConn ->
         primaryInfo ∈ primaryInfos ->
         name secondaryInfo = name primaryInfo ->
         secondaryInfo = primaryInfo.
Proof.
  unfold checkSecondary, cbind.
  destruct (secondaryDBHash o) as [secondaryReply|]; [|discriminate].
  destruct (secondary o) as [secondaryConn|]; simpl; [|discriminate].
  destruct (compareStats primaryConn secondaryConn (keys (collections primaryReply)) _)
    as [s4|] eqn:Hstats; [|discriminate].
  intros Hres.
  assert (Hs4 : s4 = true).
  { destruct (_ =? _)%nat in Hres; [|congruence].
    injection Hres as Hres. apply DbHashTheory.failIf_true in Hres. tauto. }
  subst s4. apply compareStats_true in Hstats as [Hinfos Hstats].
  apply compareInfos_true in Hinfos as [_ Hinfos].
  exists secondaryConn. split; [reflexivity|]. split; [exact Hstats|].
  intros si pi Hsi Hpi Hname.
  rewrite Forall_forall in Hinfos. specialize (Hinfos si Hsi).
  rewrite Forall_forall in Hinfos. exact (Hinfos pi Hpi Hname).
Qed.

Lemma checkSecondary_metadata_witness :
  exists secondaryConn,
    Some exampleConn = Some secondaryConn
    /\ Forall (sameStats exampleConn secondaryConn) (keys exampleHashes)
    /\ forall secondaryInfo primaryInfo,
         secondaryInfo ∈ getCollectionInfos secondaryConn ->
         primaryInfo ∈ getCollectionInfos exampleConn ->
         name secondaryInfo = name primaryInfo ->
         secondaryInfo = primaryInfo.
Proof.
  apply (checkSecondary_metadata {| collections := exampleHashes; md5 := "a3d9" |}
           exampleConn (getCollectionInfos exampleConn) true
           {| secondaryDBHash := Normal {| collections := exampleHashes; md5 := "a3d9" |};
              secondary := Some exampleConn |}).
  vm_compute. reflexivity.
Defined.

End DbHashChecksTheory.

(** ** ensureOplogsMatch: the lockstep walk *)

Module OplogWalkTheory.
Import OpTime Oplog.

Lemma expectAll_returns (ts : Timestamp) (others others' : list OplogReader) :
  expectAll ts others = Returned others' ->
  Forall2 (fun r r' => exists tail, cursor r = Some (ts :: tail) /\ cursor r' = Some tail)
    others others'.
Proof.
  revert others'. induction others as [|r rest IH]; intros others'; simpl.
  - intros [= <-]. constructor.
  - unfold next. destruct (cursor r) as [[|doc tail]|] eqn:Hc; try discriminate.
    destruct (timestamp_eqb ts doc) eqn:Heq; [|discriminate].
    apply OpTimeTheory.timestamp_eqb_eq in Heq as <-.
    destruct (expectAll ts rest) as [rest'|]; [|discriminate].
    intros [= <-]. constructor; [|apply IH; reflexivity].
    exists tail. split; [exact Hc | reflexivity].
Qed.

Lemma expectNoMore_returns (others : list OplogReader) :
  expectNoMore others = Returned () -> Forall (fun r => cursor r = Some []) others.
Proof.
  induction others as [|r rest IH]; simpl; [constructor|].
  unfold hasNext. destruct (cursor r) as [[|doc tail]|] eqn:Hc; try discriminate.
  intros H. constructor; [exact Hc | apply IH, H].
Qed.

(** X25: The lockstep walk over the first reader's cursor, followed by the check
    that no other reader has more, returns exactly when the cursor of every
    other reader holds the same timestamps as the first one's, in the same
    order: a reader that is not open, runs out early, differs in one
    timestamp or has entries left makes one of the two raise. *)
Theorem lockstep_walk_accepts_iff (firstCursor : list Timestamp)
    (others : list OplogReader) :
  (exists others', walk firstCursor others = Returned others'
                   /\ expectNoMore others' = Returned ())
  <-> Forall (fun r => cursor r = Some firstCursor) others.
Proof.
  split.
  - revert others. induction firstCursor as [|ts rest IH]; intros others; simpl.
    + intros (others' & [= <-] & Hno). apply expectNoMore_returns, Hno.
    + intros (others' & Hwalk & Hno).
      destruct (expectAll ts others) as [stepped|] eqn:Hstep; [|discriminate].
      apply expectAll_returns in Hstep.
      assert (Hrest : Forall (fun r => cursor r = Some rest) stepped)
        by (apply IH; eauto).
      clear Hwalk Hno IH. induction Hstep as [|r r' l l' (tail & Hr & Hr') _ IH'].
      * constructor.
      * apply Forall_cons in Hrest as [Hr'' Hrest].
        constructor; [|apply IH', Hrest]. congruence.
  - intros Hall.
    destruct (OplogTheory.walk_identical firstCursor others Hall) as (others' & Hw & Hex).
    exists others'. split; [exact Hw|]. apply OplogTheory.expectNoMore_exhausted, Hex.
Qed.

End OplogWalkTheory.

(** ** awaitReplication: what the polling reads and what it leaves alone *)

Module AwaitReplicationReadsTheory.
Import OpTime AwaitReplication AwaitReplicationReads.

Lemma setLatest_setLatest (v : Vars) (a b : option Timestamp) :
  setLatest (setLatest v a) b = setLatest v b.
Proof. reflexivity. Qed.

Lemma pass_sets_latest_only (j : bool) (k : Z) (v : Vars) (o : PassObs) :
  exists latest, (pass j k v o).1 = setLatest v latest.
Proof.
  unfold pass.
  destruct (AwaitReplicationTheory.checkSecondaries_vars j k (masterReply o) v (slaves o))
    as [Hv|(latest & _ & Hc)].
  - destruct (checkSecondaries j k (masterReply o) v (slaves o)) as [v1 [b|]];
      simpl in Hv; subst v1.
    + exists (masterLatestOpTime v). destruct v; reflexivity.
    + destruct (awaitLastOpTimeWrittenFn (masterLatestOpTime v) (refresh o))
        as [latest [u|]]; exists latest; reflexivity.
  - rewrite Hc. exists latest. reflexivity.
Qed.

Lemma soonNoExcept_sets_latest_only (j : bool) (k : Z) (l : list PassObs) (v : Vars) :
  exists latest, (Poller.soonNoExcept (pass j k) v l).1 = setLatest v latest.
Proof.
  revert v. induction l as [|o rest IH]; intros v; simpl.
  - exists (masterLatestOpTime v). destruct v; reflexivity.
  - destruct (pass_sets_latest_only j k v o) as [latest Hp].
    destruct (pass j k v o) as [v1 r]; simpl in Hp; subst v1.
    destruct r as [[|]|].
    + exists latest. reflexivity.
    + destruct (IH (setLatest v latest)) as [latest' H']. exists latest'.
      rewrite H'. reflexivity.
    + destruct (IH (setLatest v latest)) as [latest' H']. exists latest'.
      rewrite H'. reflexivity.
Qed.

(** X26: The polling never resolves the leader again: a call that returns
    still has the leader, the configuration version and the leader's
    operation time that were read before the first pass. Only the target
    [masterLatestOpTime] can have moved. *)
Theorem awaitReplication_never_re_resolves (j : bool) (kind : option Z) (o : Obs)
    (v' : Vars) :
  awaitReplication j kind o = Normal v' ->
  exists v, start o = Normal v
            /\ master v' = master v
            /\ configVersion v' = configVersion v
            /\ masterOpTime v' = masterOpTime v.
Proof.
  unfold awaitReplication, cbind. destruct (start o) as [v|]; [|discriminate].
  destruct (soonNoExcept_sets_latest_only j (opTimeTypeOrDefault kind) (passes o) v)
    as [latest Hl].
  destruct (Poller.soonNoExcept _ v (passes o)) as [v1 [u|]]; [|discriminate].
  intros [= <-]. simpl in Hl. subst v1. exists v. auto.
Qed.

Lemma awaitReplication_never_re_resolves_witness :
  exists v,
    start {| firstRefresh := refresh laggingPass;
             firstStart := {| startPrimary := Normal 0%nat; startVersion := Normal 1;
                              startOpTime :=
                                Normal (Some (OpTimeDoc (mkTimestamp 100 2) 5)) |};
             secondStart := {| startPrimary := Throw; startVersion := Throw;
                               startOpTime := Throw |};
             passes := [laggingPass; laggingPass; syncedPass] |} = Normal v
    /\ master exampleVars = master v
    /\ configVersion exampleVars = configVersion v
    /\ masterOpTime exampleVars = masterOpTime v.
Proof.
  apply (awaitReplication_never_re_resolves false None
           {| firstRefresh := refresh laggingPass;
              firstStart := {| startPrimary := Normal 0%nat; startVersion := Normal 1;
                               startOpTime :=
                                 Normal (Some (OpTimeDoc (mkTimestamp 100 2) 5)) |};
              secondStart := {| startPrimary := Throw; startVersion := Throw;
                                startOpTime := Throw |};
              passes := [laggingPass; laggingPass; syncedPass] |} exampleVars).
  vm_compute. reflexivity.
Defined.

Lemma getSecondaryTimestampFn_sameButDurable (k : Z) (s s' : SlaveObs) :
  sameButDurable s s' ->
  getSecondaryTimestampFn true k s = getSecondaryTimestampFn true k s'.
Proof.
  intros (_ & _ & Hot & Hopt). unfold getSecondaryTimestampFn. rewrite Hot.
  destruct (k =? LAST_DURABLE); [|reflexivity].
  unfold _getDurableOpTimeTimestamp, cbind.
  destruct (optimesReply s) as [a|], (optimesReply s') as [b|];
    try contradiction; [|reflexivity].
  rewrite Hopt. reflexivity.
Qed.

Lemma checkSecondaries_sameButDurable (k : Z) (reply : completion (option OpTimeValue))
    (v : Vars) (l l' : list SlaveObs) :
  Forall2 sameButDurable l l' ->
  checkSecondaries true k reply v l = checkSecondaries true k reply v l'.
Proof.
  induction 1 as [|s s' l l' Hs _ IH]; [reflexivity|].
  cbn [checkSecondaries].
  rewrite (getSecondaryTimestampFn_sameButDurable k s s' Hs), IH.
  destruct Hs as (-> & -> & _). reflexivity.
Qed.

(** X27: Waiting for the durable operation time: when the test runs without
    journaling the polling reads the applied operation time in its place,
    so a pass does not depend on what the secondaries report as durable;
    and whichever entry is selected, a secondary that reports it as a bare
    Timestamp, which has no [ts], keeps the pass from succeeding. *)
Theorem durable_wait_reads (j : bool) (k : Z) (v : Vars) (o : PassObs) :
  (forall slaves',
      Forall2 sameButDurable (slaves o) slaves' ->
      pass true k v {| slaves := slaves'; masterReply := masterReply o;
                       refresh := refresh o |}
      = pass true k v o)
  /\ (forall (s : SlaveObs) (myState : Z) (optimes : Optimes) (ts : Timestamp),
        s ∈ slaves o ->
        stateReply s = Normal myState -> myState <> ARBITER ->
        optimesReply s = Normal optimes ->
        selectedOpTime j optimes = Some (BareTimestamp ts) ->
        (pass j LAST_DURABLE v o).2 <> Normal true).
Proof.
  split.
  - intros slaves' Hrel. unfold pass. simpl.
    rewrite (checkSecondaries_sameButDurable k (masterReply o) v (slaves o) slaves' Hrel).
    reflexivity.
  - intros s myState optimes ts Hin Hstate Harb Hopt Hsel Htrue.
    destruct (pass j LAST_DURABLE v o) as [v1 r] eqn:Hp. simpl in Htrue. subst r.
    apply AwaitReplicationTheory.pass_true_iff in Hp as [_ Hall].
    rewrite Forall_forall in Hall. destruct (Hall s Hin) as [_ [Harb'|Hsync]].
    + rewrite Hstate in Harb'. congruence.
    + destruct Hsync as (st & ts' & _ & _ & _ & Hget).
      unfold getSecondaryTimestampFn in Hget. simpl in Hget.
      unfold _getDurableOpTimeTimestamp, cbind in Hget. rewrite Hopt in Hget.
      unfold selectedOpTime in Hsel. rewrite Hsel in Hget. discriminate.
Qed.

End AwaitReplicationReadsTheory.

(** ** ReplSetTest.awaitRSClientHosts *)

Module ClientHostsTheory.
Import ClientHosts.







End ClientHostsTheory.
